(** * ClipCut: the request pipeline of [bot.js], embedded and verified

    The development follows the layout of [bot.js]:
    - [JsString]: strings as sequences of UTF-16 code units, with the
      [String.prototype] operations the bot calls;
    - [Regex]: the regular expressions of the bot as syntax trees, run by the
      backtracking matcher of the language specification;
    - [JsNumber]: [Number(string)], [String(number)] and the arithmetic of
      [toSeconds];
    - sections 3 and 4 of the source: URL and timestamp extraction;
    - sections 5 to 7: the pipeline and the two Telegram handlers, as
      state-passing programs over an explicit world. *)

From Stdlib Require Import ZArith NArith Ascii String List Bool Lia.
From Stdlib Require DecimalPos DecimalN.
From stdpp Require Import base option list gmap.

Local Open Scope N_scope.

(* ------------------------------------------------------------------ *)
(** * Strings *)
(* ------------------------------------------------------------------ *)

Module JsString.

(** A JavaScript string is a sequence of 16-bit code units. *)
Definition char := N.
Definition str := list char.

(** ** Literals

    String literals of the source are written as Rocq strings, whose bytes
    are the UTF-8 encoding; [lit] decodes them to code units (a code point
    above U+FFFF becomes a surrogate pair). *)

Definition code_units (cp : N) : str :=
  if cp <? 65536 then [cp]
  else [55296 + (cp - 65536) / 1024; 56320 + (cp - 65536) mod 1024].

Fixpoint utf8_decode (need : nat) (acc : N) (bs : list N) : str :=
  match bs with
  | [] => []
  | b :: bs' =>
      match need with
      | S n =>
          let acc' := acc * 64 + b mod 64 in
          match n with
          | O => code_units acc' ++ utf8_decode O 0 bs'
          | S _ => utf8_decode n acc' bs'
          end
      | O =>
          if b <? 128 then b :: utf8_decode O 0 bs'
          else if b <? 224 then utf8_decode 1 (b mod 32) bs'
          else if b <? 240 then utf8_decode 2 (b mod 16) bs'
          else utf8_decode 3 (b mod 8) bs'
      end
  end.

Definition lit (s : string) : str :=
  utf8_decode O 0 (map N_of_ascii (list_ascii_of_string s)).

(** ** Character classes *)

(** [WhiteSpace] and [LineTerminator] of the language specification: the
    characters of [\s], of [String.prototype.trim] and of [StrWhiteSpaceChar]. *)
Definition is_space (c : char) : bool :=
  (c =? 9) || (c =? 10) || (c =? 11) || (c =? 12) || (c =? 13) || (c =? 32)
  || (c =? 160) || (c =? 5760) || ((8192 <=? c) && (c <=? 8202))
  || (c =? 8232) || (c =? 8233) || (c =? 8239) || (c =? 8287)
  || (c =? 12288) || (c =? 65279).

(** [\d] *)
Definition is_digit (c : char) : bool := (48 <=? c) && (c <=? 57).

(** ** [String.prototype] *)

Fixpoint trimStart (s : str) : str :=
  match s with
  | c :: s' => if is_space c then trimStart s' else s
  | [] => []
  end.

Definition trimEnd (s : str) : str := rev (trimStart (rev s)).

Definition trim (s : str) : str := trimEnd (trimStart s).

Fixpoint startsWith (s prefix : str) : bool :=
  match prefix, s with
  | [], _ => true
  | p :: prefix', c :: s' => (c =? p) && startsWith s' prefix'
  | _ :: _, [] => false
  end.

Fixpoint includes (s needle : str) : bool :=
  startsWith s needle ||
  match s with
  | [] => false
  | _ :: s' => includes s' needle
  end.

(** [s.split(sep)] for a separator that matches exactly one code unit (the
    regular expression [/[:.]/] and the string [':']).  The pieces between
    separators are kept, empty ones included; the empty string gives one
    empty piece. *)
Fixpoint split (sep : char -> bool) (s : str) : list str :=
  match s with
  | [] => [[]]
  | c :: s' =>
      if sep c then [] :: split sep s'
      else match split sep s' with
           | p :: ps => (c :: p) :: ps
           | [] => [[c]]
           end
  end.

(** [s.padStart(2, '0')] *)
Definition padStart2 (s : str) : str :=
  repeat 48 (2 - length s)%nat ++ s.

(** Truthiness of a value that is a string or [null]. *)
Definition truthy (v : option str) : bool :=
  match v with
  | Some (_ :: _) => true
  | _ => false
  end.

End JsString.
Export JsString.

(* ------------------------------------------------------------------ *)
(** * Regular expressions *)
(* ------------------------------------------------------------------ *)

Module Regex.

(** The fragment of the pattern language the bot uses; groups are all
    non-capturing or read through [match[0]] only. *)
Inductive regex :=
| Eps
| Chars (p : char -> bool)                        (* a class or a literal *)
| Seq (r1 r2 : regex)
| Alt (r1 r2 : regex)
| Quant (r : regex) (min : nat) (max : option nat). (* greedy: r{min,max} *)

Definition Opt r := Quant r 0 (Some 1%nat).     (* r?  *)
Definition Star r := Quant r 0 None.            (* r*  *)
Definition Plus r := Quant r 1 None.            (* r+  *)

(** Canonicalize of a pattern without the [u] flag, restricted to what a
    comparison with an ASCII pattern character can observe. *)
Definition canonicalize (c : char) : char :=
  if (97 <=? c) && (c <=? 122) then c - 32 else c.

Definition chr (c : char) : regex := Chars (fun x => x =? c).
Definition chr_i (c : char) : regex :=
  Chars (fun x => canonicalize x =? canonicalize c).

(** A literal run, with ([chr_i]) or without ([chr]) the [i] flag. *)
Definition word (one : char -> regex) (s : string) : regex :=
  foldr (fun c k => Seq (one c) k) Eps (lit s).

(** ** The matcher

    Continuation-passing, as in the specification: a matcher takes the rest
    of the input and a continuation on what it leaves, and answers with what
    the whole match leaves, or fails. *)
Definition cont := str -> option str.
Definition matcher := str -> cont -> option str.

(** RepeatMatcher.  An iteration that is not required and consumes nothing
    is refused; [fuel] bounds the number of iterations. *)
Fixpoint RepeatMatcher (fuel : nat) (m : matcher) (min : nat) (max : option nat)
    (x : str) (c : cont) : option str :=
  match fuel with
  | O => None
  | S fuel' =>
      if bool_decide (max = Some O) then c x
      else
        let d : cont := fun y =>
          if Nat.eqb min 0 && Nat.eqb (length y) (length x) then None
          else RepeatMatcher fuel' m (Nat.pred min) (Nat.pred <$> max) y c in
        if negb (Nat.eqb min 0) then m x d
        else match m x d with
             | Some z => Some z
             | None => c x
             end
  end.

Fixpoint compile (r : regex) : matcher :=
  match r with
  | Eps => fun x c => c x
  | Chars p => fun x c =>
      match x with
      | ch :: x' => if p ch then c x' else None
      | [] => None
      end
  | Seq r1 r2 => fun x c => compile r1 x (fun y => compile r2 y c)
  | Alt r1 r2 => fun x c =>
      match compile r1 x c with
      | Some z => Some z
      | None => compile r2 x c
      end
  | Quant r' min max => fun x c =>
      RepeatMatcher (S (min + length x)) (compile r') min max x c
  end.

(** One attempt at the start of [x]: the matched prefix and what follows. *)
Definition match_here (r : regex) (x : str) : option (str * str) :=
  match compile r x Some with
  | Some rest => Some (take (length x - length rest) x, rest)
  | None => None
  end.

(** [RegExpBuiltinExec] from index 0: the first index with a match. *)
Fixpoint exec (r : regex) (x : str) : option (str * str) :=
  match match_here r x with
  | Some res => Some res
  | None =>
      match x with
      | [] => None
      | _ :: x' => exec r x'
      end
  end.

(** [text.match(re)] for a pattern without the [g] flag: [match[0]]. *)
Definition match0 (r : regex) (x : str) : option str := fst <$> exec r x.

(** The loop of [text.match(re)] with the [g] flag.  [skip] counts the code
    units of the last match still to pass over: the next attempt is at the
    end of the last match, one further after an empty match. *)
Fixpoint match_loop (r : regex) (skip : nat) (x : str) : list str :=
  match skip with
  | S n =>
      match x with
      | [] => []
      | _ :: x' => match_loop r n x'
      end
  | O =>
      match match_here r x with
      | Some (m, _) =>
          m :: match x with
               | [] => []
               | _ :: x' => match_loop r (Nat.pred (length m)) x'
               end
      | None =>
          match x with
          | [] => []
          | _ :: x' => match_loop r O x'
          end
      end
  end.

(** The array of all matches, or [null] when there is none. *)
Definition match_g (r : regex) (x : str) : option (list str) :=
  match match_loop r O x with
  | [] => None
  | ms => Some ms
  end.

(** ** What a pattern denotes *)
Fixpoint matches (r : regex) (w : str) : Prop :=
  match r with
  | Eps => w = []
  | Chars p => exists c, w = [c] /\ p c = true
  | Seq r1 r2 => exists w1 w2, w = w1 ++ w2 /\ matches r1 w1 /\ matches r2 w2
  | Alt r1 r2 => matches r1 w \/ matches r2 w
  | Quant r' min max =>
      exists ws, w = concat ws /\ Forall (matches r') ws /\
                 (min <= length ws)%nat /\
                 (forall n, max = Some n -> (length ws <= n)%nat)
  end.

End Regex.
Export Regex.

(* ------------------------------------------------------------------ *)
(** * Numbers *)
(* ------------------------------------------------------------------ *)

Module JsNumber.

(** A Number value: [NaN], an infinity, or the finite value [m * 10^e].
    Finite values are kept exact: rounding to binary64 is not modelled, and
    the two zeros are one value (the bot only compares, adds, multiplies and
    prints numbers, and none of these tells the zeros apart).  The embedding
    agrees with an engine on every value that binary64 holds exactly, in
    particular on the integers below 2^53. *)
Inductive number :=
| NaN
| Inf (negative : bool)
| Fin (m : Z) (e : Z).

Definition of_Z (z : Z) : number := Fin z 0.

(** ** [Number(string)]: StringToNumber *)

Fixpoint span (p : char -> bool) (s : str) : str * str :=
  match s with
  | c :: s' =>
      if p c then let (a, b) := span p s' in (c :: a, b) else ([], s)
  | [] => ([], [])
  end.

Definition digit_in (base : N) (c : char) : option N :=
  let v := if is_digit c then Some (c - 48)
           else if (97 <=? c) && (c <=? 102) then Some (c - 87)
           else if (65 <=? c) && (c <=? 70) then Some (c - 55)
           else None in
  match v with
  | Some d => if d <? base then Some d else None
  | None => None
  end.

Fixpoint digits_in (base : N) (acc : N) (s : str) : option N :=
  match s with
  | [] => Some acc
  | c :: s' =>
      match digit_in base c with
      | Some d => digits_in base (acc * base + d) s'
      | None => None
      end
  end.

(** The mathematical value of a run of decimal digits. *)
Definition decimal_value (s : str) : N :=
  fold_left (fun a c => a * 10 + (c - 48)) s 0.

Definition is_nil (s : str) : bool :=
  match s with [] => true | _ => false end.

(** NonDecimalIntegerLiteral, after its two-character prefix. *)
Definition NonDecimalIntegerLiteral (base : N) (ds : str) : number :=
  match ds, digits_in base 0 ds with
  | _ :: _, Some v => of_Z (Z.of_N v)
  | _, _ => NaN
  end.

(** StrUnsignedDecimalLiteral, under the sign [neg]:
    [Infinity], or digits with an optional fraction and an optional
    exponent, at least one digit before the exponent. *)
Definition StrUnsignedDecimalLiteral (neg : bool) (s : str) : number :=
  if bool_decide (s = lit "Infinity") then Inf neg
  else
    let (int, r1) := span is_digit s in
    let (frac, r2) := match r1 with
                      | c :: r => if c =? 46 then span is_digit r else ([], r1)
                      | [] => ([], r1)
                      end in
    if is_nil int && is_nil frac then NaN
    else
      let mant := Z.of_N (decimal_value (int ++ frac)) in
      let m := if neg then (- mant)%Z else mant in
      let scale := Z.of_nat (length frac) in
      match r2 with
      | [] => Fin m (- scale)
      | c :: r3 =>
          if (c =? 101) || (c =? 69) then
            let (eneg, r4) := match r3 with
                              | c' :: r =>
                                  if c' =? 43 then (false, r)
                                  else if c' =? 45 then (true, r)
                                  else (false, r3)
                              | [] => (false, r3)
                              end in
            if is_nil r4 || negb (forallb is_digit r4) then NaN
            else
              let ex := Z.of_N (decimal_value r4) in
              Fin m ((if eneg then - ex else ex) - scale)
          else NaN
      end.

Definition Number (s : str) : number :=
  match trim s with
  | [] => of_Z 0
  | c :: r =>
      if c =? 43 then StrUnsignedDecimalLiteral false r
      else if c =? 45 then StrUnsignedDecimalLiteral true r
      else
        match r with
        | p :: ds =>
            if (c =? 48) && ((p =? 120) || (p =? 88)) then NonDecimalIntegerLiteral 16 ds
            else if (c =? 48) && ((p =? 111) || (p =? 79)) then NonDecimalIntegerLiteral 8 ds
            else if (c =? 48) && ((p =? 98) || (p =? 66)) then NonDecimalIntegerLiteral 2 ds
            else StrUnsignedDecimalLiteral false (c :: r)
        | [] => StrUnsignedDecimalLiteral false (c :: r)
        end
  end.

Definition isNaN (x : number) : bool :=
  match x with NaN => true | _ => false end.

(** ** Comparison and arithmetic *)

Definition compare_fin (m1 e1 m2 e2 : Z) : comparison :=
  let e := Z.min e1 e2 in
  (m1 * 10 ^ (e1 - e) ?= m2 * 10 ^ (e2 - e))%Z.

(** [a < b]; false when an operand is [NaN]. *)
Definition lt (a b : number) : bool :=
  match a, b with
  | NaN, _ | _, NaN => false
  | Inf na, Inf nb => na && negb nb
  | Inf na, Fin _ _ => na
  | Fin _ _, Inf nb => negb nb
  | Fin m1 e1, Fin m2 e2 =>
      match compare_fin m1 e1 m2 e2 with Lt => true | _ => false end
  end.

Definition gt (a b : number) : bool := lt b a.

(** [a >= b]: neither is [NaN] and [a < b] is false. *)
Definition ge (a b : number) : bool :=
  negb (isNaN a) && negb (isNaN b) && negb (lt a b).

Definition is_zero (m : Z) : bool := (m =? 0)%Z.
Definition negative (m : Z) : bool := (m <? 0)%Z.

Definition mul (a b : number) : number :=
  match a, b with
  | NaN, _ | _, NaN => NaN
  | Inf na, Inf nb => Inf (xorb na nb)
  | Inf na, Fin m _ | Fin m _, Inf na =>
      if is_zero m then NaN else Inf (xorb na (negative m))
  | Fin m1 e1, Fin m2 e2 => Fin (m1 * m2) (e1 + e2)
  end.

Definition add (a b : number) : number :=
  match a, b with
  | NaN, _ | _, NaN => NaN
  | Inf na, Inf nb => if eqb na nb then Inf na else NaN
  | Inf na, Fin _ _ | Fin _ _, Inf na => Inf na
  | Fin m1 e1, Fin m2 e2 =>
      let e := Z.min e1 e2 in
      Fin (m1 * 10 ^ (e1 - e) + m2 * 10 ^ (e2 - e)) e
  end.

Definition neg (a : number) : number :=
  match a with
  | NaN => NaN
  | Inf n => Inf (negb n)
  | Fin m e => Fin (- m) e
  end.

Definition sub (a b : number) : number := add a (neg b).

(** ** [String(number)]: Number::toString, radix 10 *)

Fixpoint uint_chars (u : Decimal.uint) : str :=
  match u with
  | Decimal.Nil => []
  | Decimal.D0 u => 48 :: uint_chars u
  | Decimal.D1 u => 49 :: uint_chars u
  | Decimal.D2 u => 50 :: uint_chars u
  | Decimal.D3 u => 51 :: uint_chars u
  | Decimal.D4 u => 52 :: uint_chars u
  | Decimal.D5 u => 53 :: uint_chars u
  | Decimal.D6 u => 54 :: uint_chars u
  | Decimal.D7 u => 55 :: uint_chars u
  | Decimal.D8 u => 56 :: uint_chars u
  | Decimal.D9 u => 57 :: uint_chars u
  end.

(** The decimal digits of [n], most significant first, [0] as one digit. *)
Definition decimal (n : N) : str := uint_chars (N.to_uint n).

(** The digits of [s] without its trailing zeros, and how many were cut. *)
Definition significant (ds : str) : str * nat :=
  let (zeros, rest) := span (fun c => c =? 48) (rev ds) in
  (rev rest, length zeros).

Definition ToString (x : number) : str :=
  match x with
  | NaN => lit "NaN"
  | Inf false => lit "Infinity"
  | Inf true => lit "-Infinity"
  | Fin m e =>
      if is_zero m then lit "0"
      else
        let sign := if negative m then lit "-" else [] in
        let (s, cut) := significant (decimal (Z.to_N (Z.abs m))) in
        let k := Z.of_nat (length s) in
        (* the value is 0.s * 10^n *)
        let n := (k + Z.of_nat cut + e)%Z in
        sign ++
        (if (k <=? n)%Z && (n <=? 21)%Z then
           s ++ repeat 48 (Z.to_nat (n - k))
         else if (0 <? n)%Z && (n <=? 21)%Z then
           take (Z.to_nat n) s ++ lit "." ++ drop (Z.to_nat n) s
         else if (-6 <? n)%Z && (n <=? 0)%Z then
           lit "0." ++ repeat 48 (Z.to_nat (- n)) ++ s
         else
           let ex := (n - 1)%Z in
           let exs := (if negative ex then lit "-" else lit "+")
                        ++ decimal (Z.to_N (Z.abs ex)) in
           match s with
           | [d] => [d] ++ lit "e" ++ exs
           | _ => take 1 s ++ lit "." ++ drop 1 s ++ lit "e" ++ exs
           end)
  end.

End JsNumber.
Export JsNumber.

(* ------------------------------------------------------------------ *)
(** * 3. YouTube URL extraction *)
(* ------------------------------------------------------------------ *)

Definition not_space (c : char) : bool := negb (is_space c).
Definition not_space_amp (c : char) : bool := negb (is_space c || (c =? 38)).
Definition not_space_qm (c : char) : bool := negb (is_space c || (c =? 63)).

(** The pattern of [extractYouTubeUrl], flag [i], group by group:
<<
  (?:https?:\/\/)?
  (?:www\.)?
  (?: youtube\.com\/ (?: watch\?[^\s]*v=[^\s&]+ | shorts\/[^\s?]+ | live\/[^\s?]+ )
    | youtu\.be\/[^\s?]+ )
  (?: [^\s]* )?
>> *)
Definition youtube_regex : regex :=
  Seq (Opt (Seq (word chr_i "http") (Seq (Opt (chr_i 115)) (word chr_i "://"))))
 (Seq (Opt (word chr_i "www."))
 (Seq (Alt
        (Seq (word chr_i "youtube.com/")
             (Alt (Seq (word chr_i "watch?")
                  (Seq (Star (Chars not_space))
                  (Seq (word chr_i "v=") (Plus (Chars not_space_amp)))))
             (Alt (Seq (word chr_i "shorts/") (Plus (Chars not_space_qm)))
                  (Seq (word chr_i "live/") (Plus (Chars not_space_qm))))))
        (Seq (word chr_i "youtu.be/") (Plus (Chars not_space_qm))))
      (Opt (Star (Chars not_space))))).

Definition extractYouTubeUrl (text : str) : option str :=
  match0 youtube_regex text.


(* ------------------------------------------------------------------ *)
(** * 4. Timestamp parsing *)
(* ------------------------------------------------------------------ *)

(** [/[:.]/] *)
Definition colon_or_dot (c : char) : bool := (c =? 58) || (c =? 46).

(** [const pad = (n) => String(n).padStart(2, '0')] *)
Definition pad (n : number) : str := padStart2 (ToString n).

Definition normaliseTimestamp (raw : str) : option str :=
  let trimmed := trim raw in
  let parts := map Number (split colon_or_dot trimmed) in
  if existsb isNaN parts then None
  else
    let fields :=
      match parts with
      | [hours; minutes; seconds] => Some (hours, minutes, seconds)
      | [minutes; seconds] => Some (of_Z 0, minutes, seconds)
      | [seconds] => Some (of_Z 0, of_Z 0, seconds)
      | _ => None
      end in
    match fields with
    | None => None
    | Some (hours, minutes, seconds) =>
        if lt seconds (of_Z 0) || gt seconds (of_Z 59)
           || lt minutes (of_Z 0) || gt minutes (of_Z 59)
           || lt hours (of_Z 0)
        then None
        else Some (pad hours ++ lit ":" ++ pad minutes ++ lit ":" ++ pad seconds)
    end.

(** [/(\d{1,2}(?:[:.]\d{1,2}){1,2})/g] *)
Definition tsPattern : regex :=
  Seq (Quant (Chars is_digit) 1 (Some 2%nat))
      (Quant (Seq (Chars colon_or_dot) (Quant (Chars is_digit) 1 (Some 2%nat)))
             1 (Some 2%nat)).

Record timestamps := { startTime : str; endTime : str }.

Definition extractTimestamps (text : str) : option timestamps :=
  match match_g tsPattern text with
  | Some (m0 :: m1 :: _) =>
      let start := normaliseTimestamp m0 in
      let end_ := normaliseTimestamp m1 in
      match start, end_ with
      | Some s, Some e =>
          if truthy start && truthy end_
          then Some {| startTime := s; endTime := e |}
          else None
      | _, _ => None
      end
  | _ => None
  end.

Definition toSeconds (hhmmss : str) : number :=
  let parts := map Number (split (fun c => c =? 58) hhmmss) in
  let h := nth 0 parts NaN in
  let m := nth 1 parts NaN in
  let s := nth 2 parts NaN in
  add (add (mul h (of_Z 3600)) (mul m (of_Z 60))) s.

(* ------------------------------------------------------------------ *)
(** * The world of the bot *)
(* ------------------------------------------------------------------ *)

(** ** 2. In-memory state *)

Module Pending.
(** [pendingRequests[chatId] = { url, startTime, endTime }] *)
Record t := { url : str; startTime : str; endTime : str }.
End Pending.

Inductive mode := audio | video.

(** What goes with a [sendMessage]: nothing, [parse_mode: 'Markdown'], or an
    inline keyboard of one row of buttons (text, callback_data). *)
Inductive options :=
| no_options
| parse_mode_Markdown
| inline_keyboard (row : list (str * str)).

(** The calls the bot makes on the transport, the tools and the disk, as
    they appear in its run. *)
Inductive call :=
| sendMessage (chat_id : Z) (text : str) (opts : options)
| editMessageText (text : str) (chat_id message_id : Z)
| editMessageReplyMarkup (keyboard : list (str * str)) (chat_id message_id : Z)
| answerCallbackQuery (id : str)
| sendAudio (chat_id : Z) (file : str) (caption : str) (duration : option number)
| sendVideo (chat_id : Z) (file : str) (caption : str) (duration : option number)
| execFile (cmd : str) (args : list str)
| unlinkSync (file : str)
| readdirSync.

(** Files are named relative to [TMP_DIR]: [path.join(TMP_DIR, name)] is
    [name], its [path.dirname] is [TMP_DIR] and its [path.basename] is
    [name] again. *)
Record world := World {
  pendingRequests : gmap Z Pending.t;   (* keyed by chatId *)
  tmp_dir : gmap str N;                 (* TMP_DIR: file name to size in bytes *)
  calls : list call;                    (* oldest first *)
}.

Inductive tool_result :=
| exited_0 (stdout : str)
| failed (stderr : str) (error_message : str).

(** What the outside answers; every answer may depend on all that happened
    so far. *)
Record environment := Environment {
  (* crypto.randomBytes(6), as a number below 2^48 *)
  randomBytes6 : world -> N;
  (* a call on the transport rejects with a message ([inl]) or resolves;
     [sendMessage] resolves to the message_id of the new message *)
  telegram : call -> world -> str + Z;
  (* a tool run: how it ends, and TMP_DIR afterwards *)
  tool : str -> list str -> world -> tool_result * gmap str N;
  (* unlinkSync of an existing file fails with this message *)
  unlink_error : str -> world -> option str;
  (* readdirSync(TMP_DIR) fails with this message *)
  readdir_error : world -> option str;
  (* the message of the error a missing file raises *)
  ENOENT : str -> world -> str;
}.

(** ** Programs: state passing, with exceptions *)

Inductive result (A : Type) :=
| Return (a : A)
| Throw (message : str).
Arguments Return {A} a.
Arguments Throw {A} message.

Definition M (A : Type) : Type := world -> result A * world.

#[global] Instance M_ret : MRet M := fun A a w => (Return a, w).
#[global] Instance M_bind : MBind M := fun A B f m w =>
  match m w with
  | (Return a, w') => f a w'
  | (Throw e, w') => (Throw e, w')
  end.

Definition throw {A} (message : str) : M A := fun w => (Throw message, w).

(** [try { body } catch (err) { handler(err.message) }] *)
Definition try_catch {A} (body : M A) (handler : str -> M A) : M A := fun w =>
  match body w with
  | (Throw e, w') => handler e w'
  | r => r
  end.

(** [try { body } finally { cleanup }]: an exception of [cleanup] replaces
    the outcome of [body]. *)
Definition try_finally {A} (body : M A) (cleanup : M unit) : M A := fun w =>
  let (r, w') := body w in
  match cleanup w' with
  | (Throw e, w'') => (Throw e, w'')
  | (Return _, w'') => (r, w'')
  end.

Fixpoint for_of {A} (l : list A) (body : A -> M unit) : M unit :=
  match l with
  | [] => mret tt
  | a :: l' => body a ;; for_of l' body
  end.

Definition record (c : call) (w : world) : world :=
  World (pendingRequests w) (tmp_dir w) (calls w ++ [c]).

Section Bot.
Variable env : environment.

(** A call on the transport. *)
Definition bot (c : call) : M Z := fun w =>
  match telegram env c w with
  | inl e => (Throw e, record c w)
  | inr id => (Return id, record c w)
  end.

(** ** [fs] *)

Definition existsSync (file : str) : M bool := fun w =>
  (Return (bool_decide (is_Some (tmp_dir w !! file))), w).

Definition statSync (file : str) : M N := fun w =>
  match tmp_dir w !! file with
  | Some size => (Return size, w)
  | None => (Throw (ENOENT env file w), w)
  end.

Definition fs_unlinkSync (file : str) : M unit := fun w =>
  let w' := record (unlinkSync file) w in
  match tmp_dir w !! file with
  | None => (Throw (ENOENT env file w), w')
  | Some _ =>
      match unlink_error env file w with
      | Some e => (Throw e, w')
      | None => (Return tt, World (pendingRequests w') (delete file (tmp_dir w')) (calls w'))
      end
  end.

Definition fs_readdirSync : M (list str) := fun w =>
  let w' := record readdirSync w in
  match readdir_error env w with
  | Some e => (Throw e, w')
  | None => (Return (map fst (map_to_list (tmp_dir w))), w')
  end.

(** ** [path], on names inside [TMP_DIR] *)

(** [path.extname]: from the last dot on, unless the name has no dot or
    starts with its only dot. *)
Definition extname (name : str) : str :=
  let (ext_rev, front_rev) := span (fun c => negb (c =? 46)) (rev name) in
  match front_rev with
  | [] | [_] => []
  | dot :: _ => dot :: rev ext_rev
  end.

Fixpoint strip_prefix (s prefix : str) : option str :=
  match prefix, s with
  | [], _ => Some s
  | p :: prefix', c :: s' => if c =? p then strip_prefix s' prefix' else None
  | _ :: _, [] => None
  end.

Definition strip_suffix (s suffix : str) : option str :=
  option_map (@rev char) (strip_prefix (rev s) (rev suffix)).

(** [path.basename(name, ext)] *)
Definition basename (name ext : str) : str :=
  match strip_suffix name ext with
  | Some (c :: base) => c :: base
  | _ => name
  end.

(** [pattern.replace(/\.\*$/, '')] *)
Definition drop_dot_star (pattern : str) : str :=
  match strip_suffix pattern (lit ".*") with
  | Some front => front
  | None => pattern
  end.

(** ** 5. Helper: run a command as a promise *)

Definition runCommand (cmd : str) (args : list str) : M str := fun w =>
  let w' := record (execFile cmd args) w in
  let (res, dir') := tool env cmd args w in
  let w'' := World (pendingRequests w') dir' (calls w') in
  match res with
  | exited_0 stdout => (Return (trim stdout), w'')
  | failed stderr error_message =>
      (Throw (cmd ++ lit " failed: "
                  ++ (if is_nil stderr then error_message else stderr)), w'')
  end.

(** ** 6. Download + cut + send pipeline *)

Definition TELEGRAM_FILE_LIMIT : N := 50 * 1024 * 1024.

Definition nl : str := [10].

Definition hex_digit (d : N) : char := if d <? 10 then 48 + d else 87 + d.

(** [crypto.randomBytes(6).toString('hex')]: twelve hexadecimal digits. *)
Definition hex12 (n : N) : str :=
  map (fun i => hex_digit ((n / 16 ^ N.of_nat i) mod 16)) (rev (seq 0 12)).

Definition variants : list str :=
  map lit [".mp4"; ".webm"; ".mkv"; ".m4a"; ".opus"; ".mp3"; ".ogg"]%string.

Fixpoint first_existing (candidates : list str) : M (option str) :=
  match candidates with
  | [] => mret None
  | candidate :: more =>
      found ← existsSync candidate;
      if found : bool then mret (Some candidate) else first_existing more
  end.

Definition findDownloadedFile (expectedPath : str) : M (option str) :=
  found ← existsSync expectedPath;
  if found : bool then mret (Some expectedPath)
  else
    let base := basename expectedPath (extname expectedPath) in
    first_existing (map (fun ext => base ++ ext) variants).

Definition cleanupFile (filePath : str) : M unit :=
  try_catch
    (found ← existsSync filePath;
     if found : bool then fs_unlinkSync filePath else mret tt)
    (fun _ => mret tt).

Definition cleanupGlob (pattern : str) : M unit :=
  let prefix := drop_dot_star pattern in
  try_catch
    (files ← fs_readdirSync;
     for_of files (fun file =>
       if startsWith file prefix then cleanupFile file else mret tt))
    (fun _ => mret tt).

Section processClip.
Variables (chatId : Z) (url startTime endTime : str) (mode_ : mode)
          (statusMsgId : Z).

Definition updateStatus (text : str) : M unit :=
  try_catch (bot (editMessageText text chatId statusMsgId) ;; mret tt)
            (fun _ => mret tt).

Definition isAudio : bool :=
  match mode_ with audio => true | video => false end.

Definition ext : str := if isAudio then lit "mp3" else lit "mp4".

Definition downloadPath (uid : str) : str :=
  uid ++ lit "_raw." ++ (if isAudio then lit "webm" else lit "mp4").

Definition outputPath (uid : str) : str := uid ++ lit "_clip." ++ ext.

Definition ytdlpArgs (uid : str) : list str :=
  if isAudio then
    [lit "-f"; lit "bestaudio";
     lit "-o"; downloadPath uid;
     lit "--no-playlist";
     lit "--no-warnings";
     url]
  else
    [lit "-f"; lit "bestvideo[ext=mp4]+bestaudio[ext=m4a]/best[ext=mp4]/best";
     lit "-o"; downloadPath uid;
     lit "--merge-output-format"; lit "mp4";
     lit "--no-playlist";
     lit "--no-warnings";
     url].

Definition ffmpegArgs (uid actualDownload : str) : list str :=
  let args := [lit "-y";
               lit "-i"; actualDownload;
               lit "-ss"; startTime;
               lit "-to"; endTime;
               lit "-c"; lit "copy"] in
  let args :=
    if isAudio then
      removelast (removelast args)
        ++ [lit "-vn"] ++ [lit "-acodec"; lit "libmp3lame"] ++ [lit "-ab"; lit "192k"]
    else args in
  args ++ [outputPath uid].

Definition status_downloading : str := lit "⬇️  Downloading from YouTube…".
Definition status_cutting : str := lit "✂️  Cutting your clip…".
Definition status_too_large : str :=
  lit "⚠️  The clip is too large to send via Telegram (> 50 MB)." ++ nl ++
  lit "Try a shorter segment or choose audio-only for a smaller file.".
Definition status_uploading : str := lit "📤  Uploading your clip…".
Definition status_done : str := lit "✅  Done! Enjoy your clip.".

Definition error_not_found : str :=
  lit "Download completed but file not found on disk.".
Definition error_empty : str :=
  lit "Output file is empty — the timestamps may be outside the video duration.".

Definition went_wrong : str :=
  lit "❌  Something went wrong while processing your clip." ++ nl ++ nl.
Definition explain_download : str :=
  lit "Could not download from YouTube. Please check that the link is valid and the video is publicly available.".
Definition explain_cut : str :=
  lit "Failed to cut the clip. The timestamps might be outside the video duration.".

(** The text of the [catch] block. *)
Definition userMessage (err_message : str) : str :=
  went_wrong ++
  (if includes err_message (lit "yt-dlp") then explain_download
   else if includes err_message (lit "ffmpeg") then explain_cut
   else lit "Error: " ++ err_message).

(** Steps 1 and 2: download, find the file, cut. *)
Definition download_and_cut (uid : str) : M unit :=
  updateStatus status_downloading ;;
  runCommand (lit "yt-dlp") (ytdlpArgs uid) ;;
  actualDownload ← findDownloadedFile (downloadPath uid);
  match actualDownload with
  | None => throw error_not_found
  | Some actualDownload =>
      updateStatus status_cutting ;;
      runCommand (lit "ffmpeg") (ffmpegArgs uid actualDownload) ;;
      mret tt
  end.

Definition caption (kind : str) : str :=
  kind ++ lit " (" ++ startTime ++ lit " → " ++ endTime ++ lit ")".

(** Steps 3 and 4: check the size, send. *)
Definition check_and_send (uid : str) : M unit :=
  size ← statSync (outputPath uid);
  if TELEGRAM_FILE_LIMIT <? size then
    updateStatus status_too_large        (* return *)
  else if size =? 0 then
    throw error_empty
  else
    updateStatus status_uploading ;;
    let duration := sub (toSeconds endTime) (toSeconds startTime) in
    let duration := if gt duration (of_Z 0) then Some duration else None in
    (if isAudio then
       bot (sendAudio chatId (outputPath uid) (caption (lit "🎵 Audio clip")) duration)
     else
       bot (sendVideo chatId (outputPath uid) (caption (lit "🎬 Video clip")) duration)) ;;
    updateStatus status_done.

Definition cleanup (uid : str) : M unit :=
  cleanupFile (downloadPath uid) ;;
  cleanupFile (outputPath uid) ;;
  cleanupGlob (uid ++ lit "_raw.*").

Definition attempt (uid : str) : M unit :=
  try_catch (download_and_cut uid ;; check_and_send uid)
            (fun err_message => updateStatus (userMessage err_message)).

Definition processClip : M unit := fun w =>
  let uid := hex12 (randomBytes6 env w) in
  try_finally (attempt uid) (cleanup uid) w.

End processClip.

(** ** 7. Telegram handlers *)

Record message := { msg_text : option str; msg_chat_id : Z }.

Definition reply_start_before_end (startTime endTime : str) : str :=
  lit "⚠️  The start time must be before the end time." ++ nl ++ nl ++
  lit "You sent: " ++ startTime ++ lit " → " ++ endTime ++ nl ++ nl ++
  lit "Please try again.".

Definition reply_got_it (url startTime endTime : str) : str :=
  lit "🎯  Got it!" ++ nl ++ nl ++
  lit "📎  " ++ url ++ nl ++
  lit "⏱  " ++ startTime ++ lit " → " ++ endTime ++ nl ++ nl ++
  lit "What format do you want?".

Definition format_keyboard : list (str * str) :=
  [(lit "🎵 Audio only", lit "format_audio");
   (lit "🎬 Video clip", lit "format_video")].

Definition reply_need_timestamps : str :=
  lit "👍  I see the YouTube link!" ++ nl ++ nl ++
  lit "Now please also include the **start** and **end** timestamps." ++ nl ++ nl ++
  lit "Examples:" ++ nl ++
  lit "• `from 1:20 to 2:45`" ++ nl ++
  lit "• `20.50 to 21.30`" ++ nl ++
  lit "• `0:00 to 0:30`" ++ nl ++ nl ++
  lit "You can include everything in one message, like:" ++ nl ++
  lit "`https://youtube.com/... from 1:20 to 2:45`".

Definition reply_need_url : str :=
  lit "👍  I see the timestamps!" ++ nl ++ nl ++
  lit "Please also include a **YouTube link** in your message." ++ nl ++ nl ++
  lit "Example:" ++ nl ++
  lit "`https://youtube.com/watch?v=... from 1:20 to 2:45`".

Definition reply_help : str :=
  lit "👋  Hi! I'm **ClipCut** — I cut clips from YouTube videos." ++ nl ++ nl ++
  lit "**How to use me:**" ++ nl ++
  lit "Send a message with a YouTube link and the start/end times." ++ nl ++ nl ++
  lit "**Examples:**" ++ nl ++
  lit "• `https://youtube.com/watch?v=abc from 1:20 to 2:45`" ++ nl ++
  lit "• `https://youtu.be/abc 20.50 to 21.30`" ++ nl ++
  lit "• `Please cut from 0:10 to 0:40 https://youtube.com/watch?v=abc`" ++ nl ++ nl ++
  lit "I'll then ask if you want 🎵 audio or 🎬 video!".

Definition store (chatId : Z) (request : Pending.t) : M unit := fun w =>
  (Return tt, World (<[chatId := request]> (pendingRequests w)) (tmp_dir w) (calls w)).

Definition remove (chatId : Z) : M unit := fun w =>
  (Return tt, World (delete chatId (pendingRequests w)) (tmp_dir w) (calls w)).

Definition lookup_pending (chatId : Z) : M (option Pending.t) := fun w =>
  (Return (pendingRequests w !! chatId), w).

(** [bot.on('message', ...)] *)
Definition on_message (msg : message) : M unit :=
  if negb (truthy (msg_text msg)) then mret tt
  else
    let chatId := msg_chat_id msg in
    let text := trim (default [] (msg_text msg)) in
    let url := extractYouTubeUrl text in
    let timestamps := extractTimestamps text in
    match url, timestamps with
    | Some (c :: u), Some {| startTime := startTime; endTime := endTime |} =>
        (* Case 1: both URL and timestamps present *)
        let url := c :: u in
        if ge (toSeconds startTime) (toSeconds endTime) then
          bot (sendMessage chatId (reply_start_before_end startTime endTime) no_options) ;;
          mret tt
        else
          store chatId (Pending.Build_t url startTime endTime) ;;
          bot (sendMessage chatId (reply_got_it url startTime endTime)
                 (inline_keyboard format_keyboard)) ;;
          mret tt
    | Some (c :: u), None =>
        (* Case 2: URL present but no timestamps *)
        bot (sendMessage chatId reply_need_timestamps parse_mode_Markdown) ;;
        mret tt
    | _, Some _ =>
        (* Case 3: timestamps present but no URL *)
        bot (sendMessage chatId reply_need_url parse_mode_Markdown) ;;
        mret tt
    | _, None =>
        (* Case 4: neither *)
        bot (sendMessage chatId reply_help parse_mode_Markdown) ;;
        mret tt
    end.

Record callback_query := {
  query_id : str;
  query_data : option str;
  query_chat_id : Z;           (* query.message.chat.id *)
  query_message_id : Z;        (* query.message.message_id *)
}.

Definition reply_no_pending : str :=
  lit "⚠️  I don't have a pending request for you." ++ nl ++ nl ++
  lit "Please send a YouTube link with timestamps first.".

Definition status_processing : str := lit "⏳  Processing your clip…".

(** [let mode; if (data === 'format_audio') ... else return] *)
Definition selected_mode (data : option str) : option mode :=
  if bool_decide (data = Some (lit "format_audio")) then Some audio
  else if bool_decide (data = Some (lit "format_video")) then Some video
  else None.

(** [bot.on('callback_query', ...)] *)
Definition on_callback_query (query : callback_query) : M unit :=
  let chatId := query_chat_id query in
  let data := query_data query in
  bot (answerCallbackQuery (query_id query)) ;;
  request ← lookup_pending chatId;
  match request with
  | None =>
      bot (sendMessage chatId reply_no_pending no_options) ;;
      mret tt
  | Some request =>
      match selected_mode data with
      | None => mret tt                     (* unknown callback, ignore *)
      | Some mode_ =>
          remove chatId ;;
          try_catch
            (bot (editMessageReplyMarkup [] chatId (query_message_id query)) ;; mret tt)
            (fun _ => mret tt) ;;
          statusMsgId ← bot (sendMessage chatId status_processing no_options);
          processClip chatId (Pending.url request) (Pending.startTime request)
                      (Pending.endTime request) mode_ statusMsgId
      end
  end.

End Bot.

(** The bot as a machine: one event, one handler run.  Handlers of the
    source may interleave where they await, but each reads and writes
    [pendingRequests] in code that runs without awaiting, so on the store
    every interleaving acts as some sequence of handler runs would.  Output
    on the console is left out. *)
Inductive event :=
| Message (msg : message)
| CallbackQuery (query : callback_query).

Definition handle (env : environment) (ev : event) : M unit :=
  match ev with
  | Message msg => on_message env msg
  | CallbackQuery query => on_callback_query env query
  end.

Definition initial (w : world) : Prop :=
  pendingRequests w = ∅ /\ calls w = [].

Inductive reachable : world -> Prop :=
| reach_initial w : initial w -> reachable w
| reach_handle env ev w r w' :
    reachable w -> handle env ev w = (r, w') -> reachable w'.

(* ------------------------------------------------------------------ *)
(** * Vocabulary of the properties *)
(* ------------------------------------------------------------------ *)

(** Every quantifier has its lower bound below its upper bound, as the
    pattern grammar demands. *)
Fixpoint well_formed (r : regex) : bool :=
  match r with
  | Eps | Chars _ => true
  | Seq r1 r2 | Alt r1 r2 => well_formed r1 && well_formed r2
  | Quant r' min max =>
      well_formed r' &&
      match max with Some n => Nat.leb min n | None => true end
  end.

(** A match of [r] starts [i] code units into [x]. *)
Definition match_at (r : regex) (x : str) (i : nat) : Prop :=
  exists m rest, drop i x = m ++ rest /\ matches r m.

(** Two decimal digits. *)
Definition two_digits (v : N) : str := [48 + v / 10; 48 + v mod 10].

(** A matcher is local when it asks its continuation about what is left of
    its input only, never about anything longer. *)
Definition local (m : matcher) : Prop :=
  forall x c c',
    (forall y, (length y <= length x)%nat -> c y = c' y) -> m x c = m x c'.

(** A greedy star on a class: the longest run first, then shorter ones. *)
Fixpoint star_class (p : char -> bool) (t : str) (c : cont) : option str :=
  match t with
  | ch :: t' =>
      if p ch then
        match star_class p t' c with
        | Some z => Some z
        | None => c t
        end
      else c t
  | [] => c t
  end.

(** What a program leaves of the pending requests. *)
Definition keeps_pending {A} (m : M A) : Prop :=
  forall w, pendingRequests (m w).2 = pendingRequests w.

(** A run of decimal digits, not empty; a group of one or two. *)
Definition digit_run (g : str) : Prop :=
  g <> [] /\ forallb is_digit g = true.

Definition digit_group (g : str) : Prop :=
  (1 <= length g <= 2)%nat /\ forallb is_digit g = true.

(** Groups written one after the other, each further one behind its
    separator. *)
Definition join (g : str) (more : list (char * str)) : str :=
  g ++ concat (map (fun sg => fst sg :: snd sg) more).

Definition separators (more : list (char * str)) : Prop :=
  Forall (fun sg => colon_or_dot (fst sg) = true) more.

(** A candidate timestamp: a group of one or two digits, then one or two
    further such groups, each behind a colon or a dot. *)
Definition candidate (w : str) : Prop :=
  exists g more,
    w = join g more /\ (1 <= length more <= 2)%nat /\ separators more /\
    Forall digit_group (g :: map snd more).

(** Seconds, then minutes, then hours, from the right. *)
Definition fields_of (values : list N) : option (N * N * N) :=
  match values with
  | [h; m; s] => Some (h, m, s)
  | [m; s] => Some (0, m, s)
  | [s] => Some (0, 0, s)
  | _ => None
  end.

(** The same on numbers, as the code assigns them. *)
Definition number_fields (parts : list number) : option (number * number * number) :=
  match parts with
  | [hours; minutes; seconds] => Some (hours, minutes, seconds)
  | [minutes; seconds] => Some (of_Z 0, minutes, seconds)
  | [seconds] => Some (of_Z 0, of_Z 0, seconds)
  | _ => None
  end.

(** A number that binary64 holds exactly, so that the embedding has it as
    the code has it: an infinity, or a whole number of a magnitude below
    2^53. *)
Definition exact (x : number) : Prop :=
  match x with
  | NaN => False
  | Inf _ => True
  | Fin m e => (0 <= e)%Z /\ (Z.abs m * 10 ^ e < 2 ^ 53)%Z
  end.

(** The whole number [z], written with a mantissa and a power of ten. *)
Definition whole (x : number) (z : Z) : Prop :=
  match x with
  | Fin m e => (0 <= e)%Z /\ z = (m * 10 ^ e)%Z
  | _ => False
  end.

(** The value of a digit in a radix up to 16, and of a run of such
    digits. *)
Definition digit_value (c : char) : N :=
  if c <=? 57 then c - 48 else if c <=? 70 then c - 55 else c - 87.

Definition digit_of (base : N) (c : char) : bool :=
  (is_digit c || ((65 <=? c) && (c <=? 70)) || ((97 <=? c) && (c <=? 102)))
  && (digit_value c <? base).

Definition radix_value (base : N) (ds : str) : N :=
  fold_left (fun a c => a * base + digit_value c) ds 0.

(** The radix that the second character of a literal [0x..], [0o..] or
    [0b..] announces. *)
Definition radix_of (p : char) : option N :=
  if (p =? 120) || (p =? 88) then Some 16
  else if (p =? 111) || (p =? 79) then Some 8
  else if (p =? 98) || (p =? 66) then Some 2
  else None.

(** What a group denotes when it is written as a numeric literal without a
    fraction.  Unsigned: a run of digits; a run of digits with an exponent
    ([e] or [E], an optional [+], a run of digits); [Infinity]. *)
Inductive unsigned_literal : str -> number -> Prop :=
| literal_digits ds :
    digit_run ds -> unsigned_literal ds (of_Z (Z.of_N (decimal_value ds)))
| literal_exponent ds e plus ks :
    digit_run ds -> e = 101 \/ e = 69 -> plus = [] \/ plus = [43] ->
    digit_run ks ->
    unsigned_literal (ds ++ e :: plus ++ ks)
                     (Fin (Z.of_N (decimal_value ds)) (Z.of_N (decimal_value ks)))
| literal_Infinity : unsigned_literal (lit "Infinity") (Inf false).

(** Any group: empty or blank (zero); an unsigned literal, also behind a
    sign; digits of radix 16, 8 or 2 behind [0x], [0o] or [0b]. *)
Inductive denotes : str -> number -> Prop :=
| denotes_blank g : forallb is_space g = true -> denotes g (of_Z 0)
| denotes_unsigned g x : unsigned_literal g x -> denotes g x
| denotes_plus g x : unsigned_literal g x -> denotes (43 :: g) x
| denotes_minus g x : unsigned_literal g x -> denotes (45 :: g) (neg x)
| denotes_radix p base ds :
    radix_of p = Some base -> ds <> [] -> forallb (digit_of base) ds = true ->
    denotes (48 :: p :: ds) (of_Z (Z.of_N (radix_value base ds))).

(** The code units that numeric literals are written with: white space,
    digits, the signs, the dot, and the letters of [Infinity], of the
    hexadecimal digits, of the prefixes [0x], [0o] and [0b] and of the
    exponent. *)
Definition literal_char (c : char) : bool :=
  is_space c || is_digit c
  || existsb (N.eqb c) (lit "+-.InfinityabcdefABCDEFxXoO").

(** Hours, minutes and seconds in print, when minutes and seconds are in
    range. *)
Definition print_fields (hms : N * N * N) : option str :=
  let '(h, m, s) := hms in
  if (m <=? 59) && (s <=? 59)
  then Some (pad (of_Z (Z.of_N h)) ++ lit ":" ++ two_digits m ++ lit ":" ++ two_digits s)
  else None.

(** The canonical form: three fields of two digits. *)
Definition canonical (h m s : N) : str :=
  two_digits h ++ lit ":" ++ two_digits m ++ lit ":" ++ two_digits s.

(** A string of the form HH:MM:SS: digits only, at least two for the hours,
    two each for minutes and seconds, both at most 59. *)
Definition is_HH_MM_SS (x : str) : bool :=
  match split (fun c => c =? 58) x with
  | [hh; mm; ss] =>
      forallb is_digit (hh ++ mm ++ ss)
      && Nat.leb 2 (length hh) && Nat.eqb (length mm) 2 && Nat.eqb (length ss) 2
      && (decimal_value mm <=? 59) && (decimal_value ss <=? 59)
  | _ => false
  end.

(** The same string up to the case of ASCII letters. *)
Definition same_letters (s : str) (l : string) : Prop :=
  map canonicalize s = map canonicalize (lit l).

(** A video identifier: code units of a class, at least one. *)
Definition video_id (class : char -> bool) (x : str) : Prop :=
  x <> [] /\ forallb class x = true.

(** The known shapes of a YouTube URL: an optional scheme, an optional
    [www.], then a watch link (with [v=] somewhere in its query), a shorts
    link, a live link or a short link, each with its video identifier, then
    whatever follows up to the next white space. *)
Definition youtube_url (u : str) : Prop :=
  exists scheme www body tail,
    u = scheme ++ www ++ body ++ tail /\
    (scheme = [] \/ same_letters scheme "http://" \/ same_letters scheme "https://") /\
    (www = [] \/ same_letters www "www.") /\
    ((exists host query v x,
         body = host ++ query ++ v ++ x /\
         same_letters host "youtube.com/watch?" /\
         forallb not_space query = true /\
         same_letters v "v=" /\ video_id not_space_amp x)
     \/ (exists host x,
           body = host ++ x /\ same_letters host "youtube.com/shorts/" /\
           video_id not_space_qm x)
     \/ (exists host x,
           body = host ++ x /\ same_letters host "youtube.com/live/" /\
           video_id not_space_qm x)
     \/ (exists host x,
           body = host ++ x /\ same_letters host "youtu.be/" /\
           video_id not_space_qm x)) /\
    forallb not_space tail = true.

(** The shapes as they are usually listed: [youtube.com/watch?v=X],
    [youtu.be/X], [youtube.com/shorts/X] and [youtube.com/live/X], each
    with or without scheme and [www.], for any [X] that is not empty. *)
Definition listed_shape (u : str) : Prop :=
  exists scheme www path x,
    u = scheme ++ www ++ path ++ x /\
    (scheme = [] \/ same_letters scheme "http://" \/ same_letters scheme "https://") /\
    (www = [] \/ same_letters www "www.") /\
    (same_letters path "youtube.com/watch?v=" \/ same_letters path "youtu.be/" \/
     same_letters path "youtube.com/shorts/" \/ same_letters path "youtube.com/live/") /\
    x <> [].

(** Calls on the disk, as the cleanup makes them. *)
Definition is_fs_call (c : call) : bool :=
  match c with
  | unlinkSync _ | readdirSync => true
  | _ => false
  end.

(** The texts the status message is given, in order. *)
Definition statuses (cs : list call) : list str :=
  flat_map (fun c => match c with
                     | editMessageText text _ _ => [text]
                     | _ => []
                     end) cs.

(** The world when a format choice has consumed the pending request of its
    chat: the query is answered, the entry is gone, the keyboard is taken
    off. *)
Definition consumed (query : callback_query) (w : world) : world :=
  World (delete (query_chat_id query) (pendingRequests w)) (tmp_dir w)
        (calls w ++ [answerCallbackQuery (query_id query);
                     editMessageReplyMarkup [] (query_chat_id query)
                                            (query_message_id query)]).

(** The world after a sequence of events, each with the outside it meets. *)
Fixpoint run (events : list (environment * event)) (w : world) : world :=
  match events with
  | [] => w
  | (env, ev) :: events' => run events' (handle env ev w).2
  end.

(** A format choice: the callback data of one of the two buttons, and the
    mode it stands for. *)
Definition format_choice (data : option str) (mode_ : mode) : Prop :=
  (data = Some (lit "format_audio") /\ mode_ = audio) \/
  (data = Some (lit "format_video") /\ mode_ = video).



(** Every pending request starts before it ends. *)
Definition ordered (w : world) : Prop :=
  forall chatId request,
    pendingRequests w !! chatId = Some request ->
    lt (toSeconds (Pending.startTime request))
       (toSeconds (Pending.endTime request)) = true.

(** The successive matches of a scan from left to right: each starts at the
    first place, behind the one before, where the pattern matches at all, and
    is picked among the matches that start there. *)
Inductive scan (r : regex) (pick : str -> str -> Prop) : str -> list str -> Prop :=
| scan_end x : (forall i, ~ match_at r x i) -> scan r pick x []
| scan_match pre m rest ms :
    matches r m -> m <> [] ->
    (forall i, (i < length pre)%nat -> ~ match_at r (pre ++ m ++ rest) i) ->
    pick m rest ->
    scan r pick rest ms ->
    scan r pick (pre ++ m ++ rest) (m :: ms).

(** [m], before [rest], is as long as a match at its place can be. *)
Definition longest (r : regex) (m rest : str) : Prop :=
  forall m' rest',
    m ++ rest = m' ++ rest' -> matches r m' -> (length m' <= length m)%nat.

(** What is left behind one or two digits, two if there are two; behind a
    separator and such digits; and behind the candidate that starts a
    string, with its third group if there is one. *)
Definition behind_digits (y : str) : option str :=
  match y with
  | a :: y' =>
      if is_digit a then
        match y' with
        | b :: r => if is_digit b then Some r else Some y'
        | [] => Some y'
        end
      else None
  | [] => None
  end.

Definition behind_group (y : str) : option str :=
  match y with
  | s :: y' => if colon_or_dot s then behind_digits y' else None
  | [] => None
  end.

Definition behind_candidate (x : str) : option str :=
  match behind_digits x with
  | Some y0 =>
      match behind_group y0 with
      | Some y1 =>
          match behind_group y1 with
          | Some y2 => Some y2
          | None => Some y1
          end
      | None => None
      end
  | None => None
  end.

(** A candidate timestamp starts [i] code units into [x]. *)
Definition candidate_at (x : str) (i : nat) : Prop :=
  exists m rest, drop i x = m ++ rest /\ candidate m.

(** The candidates of a text, as a scan from left to right finds them: the
    next one starts at the first place, behind the one before, where a
    candidate starts at all; it is the longest candidate that starts there;
    and the scan goes on behind it. *)
Inductive candidates_of : str -> list str -> Prop :=
| candidates_none x : (forall i, ~ candidate_at x i) -> candidates_of x []
| candidates_next pre m rest ms :
    candidate m ->
    (forall i, (i < length pre)%nat -> ~ candidate_at (pre ++ m ++ rest) i) ->
    (forall m' rest',
        m ++ rest = m' ++ rest' -> candidate m' -> (length m' <= length m)%nat) ->
    candidates_of rest ms ->
    candidates_of (pre ++ m ++ rest) (m :: ms).

(* ------------------------------------------------------------------ *)
(** * Sample worlds *)
(* ------------------------------------------------------------------ *)

(** An outside where every call goes well: the transport numbers its
    messages, yt-dlp writes the file named after [-o], ffmpeg writes its last
    argument with [clip_size] bytes, the disk obeys. *)
Definition obliging (clip_size : N) : environment := {|
  randomBytes6 := fun _ => 188900967593797;
  telegram := fun _ w => inr (Z.of_nat (length (calls w)));
  tool := fun cmd args w =>
    if bool_decide (cmd = lit "yt-dlp")
    then (exited_0 [], <[nth 3 args [] := 1000]> (tmp_dir w))
    else (exited_0 [], <[List.last args [] := clip_size]> (tmp_dir w));
  unlink_error := fun _ _ => None;
  readdir_error := fun _ => None;
  ENOENT := fun file _ => lit "ENOENT: no such file or directory, stat '" ++ file ++ lit "'";
|}.

(** The same, but yt-dlp exits with an error. *)
Definition no_download : environment := {|
  randomBytes6 := randomBytes6 (obliging 0);
  telegram := telegram (obliging 0);
  tool := fun cmd args w => (failed (lit "ERROR: Video unavailable") (lit "Command failed"), tmp_dir w);
  unlink_error := unlink_error (obliging 0);
  readdir_error := readdir_error (obliging 0);
  ENOENT := ENOENT (obliging 0);
|}.

(** The same, but yt-dlp exits well and leaves no file. *)
Definition no_file : environment := {|
  randomBytes6 := randomBytes6 (obliging 0);
  telegram := telegram (obliging 0);
  tool := fun cmd args w => (exited_0 [], tmp_dir w);
  unlink_error := unlink_error (obliging 0);
  readdir_error := readdir_error (obliging 0);
  ENOENT := ENOENT (obliging 0);
|}.


Definition empty_world : world := World ∅ ∅ [].

Definition sample_request : Pending.t :=
  Pending.Build_t (lit "https://youtu.be/abc123") (lit "00:00:10") (lit "00:00:30").

(** Chat 5 has a request pending. *)
Definition waiting_world : world := World {[ 5%Z := sample_request ]} ∅ [].

Definition choice (data : string) : callback_query := {|
  query_id := lit "q1";
  query_data := Some (lit data);
  query_chat_id := 5;
  query_message_id := 9;
|}.

(* ------------------------------------------------------------------ *)
(** * Vocabulary of the further properties *)
(* ------------------------------------------------------------------ *)

(** The same string with every dot written as a colon. *)
Definition colons (s : str) : str :=
  map (fun c => if c =? 46 then 58 else c) s.

(** An outside where the download goes well and the cut fails. *)
Definition no_cut : environment := {|
  randomBytes6 := randomBytes6 (obliging 0);
  telegram := telegram (obliging 0);
  tool := fun cmd args w =>
    if bool_decide (cmd = lit "yt-dlp")
    then (exited_0 [], <[nth 3 args [] := 1000]> (tmp_dir w))
    else (failed (lit "Invalid duration specification") (lit "Command failed"),
          tmp_dir w);
  unlink_error := unlink_error (obliging 0);
  readdir_error := readdir_error (obliging 0);
  ENOENT := ENOENT (obliging 0);
|}.

(** An outside where no text message can be sent. *)
Definition no_send : environment := {|
  randomBytes6 := randomBytes6 (obliging 0);
  telegram := fun c w =>
    match c with
    | sendMessage _ _ _ => inl (lit "ETELEGRAM: 429 Too Many Requests")
    | _ => inr 0%Z
    end;
  tool := tool (obliging 0);
  unlink_error := unlink_error (obliging 0);
  readdir_error := readdir_error (obliging 0);
  ENOENT := ENOENT (obliging 0);
|}.

(** A request as the message handler stores it: a link of one of the known
    shapes, without white space, and two timestamps of the form HH:MM:SS,
    the first before the second. *)
Definition well_formed_request (request : Pending.t) : Prop :=
  youtube_url (Pending.url request) /\
  forallb not_space (Pending.url request) = true /\
  exists h m s h' m' s',
    (h < 100 /\ m <= 59 /\ s <= 59) /\ (h' < 100 /\ m' <= 59 /\ s' <= 59) /\
    Pending.startTime request = canonical h m s /\
    Pending.endTime request = canonical h' m' s' /\
    h * 3600 + m * 60 + s < h' * 3600 + m' * 60 + s'.

(** The chat an event comes from. *)
Definition chat_of (ev : event) : Z :=
  match ev with
  | Message msg => msg_chat_id msg
  | CallbackQuery query => query_chat_id query
  end.

(** A run of [m] from [w] adds calls that all satisfy [P], and what it
    returns, if it returns, satisfies [Q]. *)
Definition emits_at {A} (P : call -> Prop) (Q : A -> Prop) (m : M A) (w : world) : Prop :=
  exists new,
    calls (m w).2 = calls w ++ new /\ Forall P new /\
    match (m w).1 with
    | Return a => Q a
    | Throw _ => True
    end.

Definition emits {A} (P : call -> Prop) (Q : A -> Prop) (m : M A) : Prop :=
  forall w, emits_at P Q m w.

(** The calls of one run of the pipeline: edits of its status message,
    one upload of its output file in its mode, the two tools on their
    argument lists, and the disk calls of the cleanup on files named after
    the run. *)
Definition pipeline_call (chatId : Z) (url startTime endTime : str)
    (mode_ : mode) (statusMsgId : Z) (uid : str) (c : call) : Prop :=
  match c with
  | editMessageText _ chat_id message_id =>
      chat_id = chatId /\ message_id = statusMsgId
  | sendAudio chat_id file _ _ =>
      mode_ = audio /\ chat_id = chatId /\ file = outputPath mode_ uid
  | sendVideo chat_id file _ _ =>
      mode_ = video /\ chat_id = chatId /\ file = outputPath mode_ uid
  | execFile cmd args =>
      (cmd = lit "yt-dlp" /\ args = ytdlpArgs url mode_ uid) \/
      (cmd = lit "ffmpeg" /\
       exists actualDownload,
         startsWith actualDownload (uid ++ lit "_raw") = true /\
         args = ffmpegArgs startTime endTime mode_ uid actualDownload)
  | unlinkSync file => startsWith file uid = true
  | readdirSync => True
  | sendMessage _ _ _ | editMessageReplyMarkup _ _ _ | answerCallbackQuery _ => False
  end.

(** The calls of one handler run, as far as they address someone: the
    chat of the event, and the query of the event. *)
Definition addressed_to (ev : event) (c : call) : Prop :=
  match c with
  | sendMessage chat_id _ _
  | editMessageText _ chat_id _
  | editMessageReplyMarkup _ chat_id _
  | sendAudio chat_id _ _ _
  | sendVideo chat_id _ _ _ => chat_id = chat_of ev
  | answerCallbackQuery id =>
      match ev with
      | CallbackQuery query => id = query_id query
      | Message _ => False
      end
  | execFile _ _ | unlinkSync _ | readdirSync =>
      match ev with
      | CallbackQuery _ => True
      | Message _ => False
      end
  end.

(** The same outside, except for what the transport answers when the text
    of a message is edited. *)
Definition edits_answered (answer : call -> world -> str + Z)
    (env : environment) : environment := {|
  randomBytes6 := randomBytes6 env;
  telegram := fun c w =>
    match c with
    | editMessageText _ _ _ => answer c w
    | _ => telegram env c w
    end;
  tool := tool env;
  unlink_error := unlink_error env;
  readdir_error := readdir_error env;
  ENOENT := ENOENT env;
|}.

(* ================================================================== *)
(** * Part II: properties *)
(* ================================================================== *)

(** Literals, numbers and prints stay folded under [simpl]. *)
#[local] Arguments lit : simpl never.
#[local] Arguments of_Z : simpl never.
#[local] Arguments Number : simpl never.
#[local] Arguments ToString : simpl never.
#[local] Arguments pad : simpl never.
#[local] Arguments two_digits : simpl never.
#[local] Arguments lt : simpl never.
#[local] Arguments gt : simpl never.
#[local] Arguments ge : simpl never.
#[local] Arguments add : simpl never.
#[local] Arguments mul : simpl never.
#[local] Arguments sub : simpl never.
#[local] Arguments trim : simpl never.

(* ------------------------------------------------------------------ *)
(** ** The matcher computes what a pattern denotes *)
(* ------------------------------------------------------------------ *)

Section RepeatMatcher.
Variable m : matcher.
Variable L : str -> Prop.
Hypothesis m_sound : forall x c z,
  m x c = Some z -> exists w y, x = w ++ y /\ L w /\ c y = Some z.
Hypothesis m_complete : forall w y c z,
  L w -> c y = Some z -> is_Some (m (w ++ y) c).

Lemma repeat_sound fuel : forall min max x c z,
  (forall n, max = Some n -> (min <= n)%nat) ->
  RepeatMatcher fuel m min max x c = Some z ->
  exists ws y, x = concat ws ++ y /\ Forall L ws /\
               (min <= length ws)%nat /\
               (forall n, max = Some n -> (length ws <= n)%nat) /\
               c y = Some z.
Proof.
  induction fuel as [|f IH]; intros min max x c z Hwf H; simpl in H; [discriminate|].
  case_bool_decide as Hmax.
  { exists [], x. subst max. specialize (Hwf _ eq_refl).
    repeat split; auto; simpl; intros; try lia. }
  assert (Hstop : c x = Some z ->  min = O ->
    exists ws y, x = concat ws ++ y /\ Forall L ws /\ (min <= length ws)%nat /\
      (forall n, max = Some n -> (length ws <= n)%nat) /\ c y = Some z).
  { intros Hc ->. exists [], x. repeat split; auto; simpl; intros; lia. }
  assert (Hstep : forall y w, L w -> x = w ++ y ->
    RepeatMatcher f m (Nat.pred min) (Nat.pred <$> max) y c = Some z ->
    exists ws y, x = concat ws ++ y /\ Forall L ws /\ (min <= length ws)%nat /\
      (forall n, max = Some n -> (length ws <= n)%nat) /\ c y = Some z).
  { intros y w Hw -> Hr. apply IH in Hr as (ws & y' & -> & Hall & Hmin & Hmx & Hc).
    - exists (w :: ws), y'. simpl. rewrite app_assoc. repeat split; auto.
      + lia.
      + intros n ->. specialize (Hmx (Nat.pred n) eq_refl).
        destruct n; [congruence | simpl in *; lia].
    - intros n Hn. destruct max as [k|]; simpl in Hn; [|discriminate].
      injection Hn as <-. specialize (Hwf _ eq_refl). lia. }
  destruct (Nat.eqb min 0) eqn:Hmin0; simpl in H.
  - apply Nat.eqb_eq in Hmin0.
    destruct (m x _) as [z0|] eqn:Hm.
    + injection H as ->. apply m_sound in Hm as (w & y & Hx & Hw & Hd).
      destruct (Nat.eqb (length y) (length x)); [discriminate|]. eauto.
    + auto.
  - apply m_sound in H as (w & y & Hx & Hw & Hd). eauto.
Qed.

Lemma repeat_complete ws : forall min max y c z fuel,
  Forall L ws -> (min <= length ws)%nat ->
  (forall n, max = Some n -> (length ws <= n)%nat) ->
  c y = Some z ->
  (min + length (concat ws ++ y) < fuel)%nat ->
  is_Some (RepeatMatcher fuel m min max (concat ws ++ y) c).
Proof.
  induction ws as [|w ws IH]; intros min max y c z fuel Hall Hmin Hmax Hc Hfuel;
    (destruct fuel as [|f]; [lia|]); simpl in *.
  - assert (min = O) as -> by lia. simpl.
    case_bool_decide; [eauto|].
    destruct (m y _); eauto.
  - apply Forall_cons in Hall as [Hw Hall].
    case_bool_decide as Hm0; [specialize (Hmax _ Hm0); lia|].
    rewrite length_app in Hfuel.
    assert (Hmax' : forall n, Nat.pred <$> max = Some n -> (length ws <= n)%nat).
    { intros n Hn. destruct max as [k|]; simpl in Hn; [|discriminate].
      injection Hn as <-. specialize (Hmax _ eq_refl). lia. }
    destruct min as [|min']; simpl.
    + destruct w as [|a w].
      * simpl. specialize (IH O max y c z (S f) Hall).
        simpl in IH. rewrite bool_decide_eq_false_2 in IH by done.
        apply IH; auto; try lia.
        -- intros n Hn. specialize (Hmax _ Hn). lia.
        -- simpl in Hfuel. rewrite length_app. lia.
      * rewrite <- app_assoc.
        match goal with |- context [m _ ?d] => set (d0 := d) end.
        assert (Hd : is_Some (d0 (concat ws ++ y))).
        { unfold d0.
          destruct (Nat.eqb_spec (length (concat ws ++ y))
                      (length ((a :: w) ++ concat ws ++ y))) as [He|_].
          { rewrite !length_app in He. simpl in He. lia. }
          eapply IH; eauto; simpl in *; try lia.
          rewrite !length_app in *. lia. }
        destruct Hd as [z' Hd].
        destruct (m_complete (a :: w) _ d0 z' Hw Hd) as [z'' ->]. eauto.
    + rewrite <- app_assoc.
      assert (Hd : is_Some (RepeatMatcher f m min' (Nat.pred <$> max)
                              (concat ws ++ y) c)).
      { eapply IH; eauto; try lia. rewrite length_app in *. lia. }
      destruct Hd as [z' Hd].
      eapply m_complete; [exact Hw | exact Hd].
Qed.
End RepeatMatcher.

Lemma compile_sound r :
  well_formed r = true ->
  forall x c z, compile r x c = Some z ->
  exists w y, x = w ++ y /\ matches r w /\ c y = Some z.
Proof.
  induction r as [|p|r1 IH1 r2 IH2|r1 IH1 r2 IH2|r IH min max];
    cbn [compile well_formed matches]; intros Hwf x c z H.
  - exists [], x. auto.
  - destruct x as [|ch x]; [discriminate|].
    destruct (p ch) eqn:Hp; [|discriminate].
    exists [ch], x. eauto.
  - apply andb_true_iff in Hwf as [Hwf1 Hwf2].
    apply IH1 in H as (w1 & y1 & -> & Hw1 & H); auto.
    apply IH2 in H as (w2 & y2 & -> & Hw2 & H); auto.
    exists (w1 ++ w2), y2. rewrite <- app_assoc. eauto 10.
  - apply andb_true_iff in Hwf as [Hwf1 Hwf2].
    destruct (compile r1 x c) as [z1|] eqn:H1.
    + injection H as ->. apply IH1 in H1 as (w & y & ? & ? & ?); eauto 10.
    + apply IH2 in H as (w & y & ? & ? & ?); eauto 10.
  - apply andb_true_iff in Hwf as [Hwf1 Hwf2].
    eapply (repeat_sound (compile r) (matches r)) in H
      as (ws & y & -> & Hall & Hmin & Hmax & Hc); eauto.
    + exists (concat ws), y. eauto 10.
    + intros n ->. by apply Nat.leb_le.
Qed.

Lemma compile_complete r :
  well_formed r = true ->
  forall w y c z, matches r w -> c y = Some z -> is_Some (compile r (w ++ y) c).
Proof.
  induction r as [|p|r1 IH1 r2 IH2|r1 IH1 r2 IH2|r IH min max];
    cbn [compile well_formed matches]; intros Hwf w y c z Hw Hc.
  - subst w. simpl. eauto.
  - destruct Hw as (ch & -> & Hp). simpl. rewrite Hp. eauto.
  - apply andb_true_iff in Hwf as [Hwf1 Hwf2].
    destruct Hw as (w1 & w2 & -> & Hw1 & Hw2).
    rewrite <- app_assoc.
    destruct (IH2 Hwf2 w2 y c z Hw2 Hc) as [z2 H2].
    eapply IH1; eauto.
  - apply andb_true_iff in Hwf as [Hwf1 Hwf2].
    destruct (compile r1 (w ++ y) c) eqn:H1; [eauto|].
    destruct Hw as [Hw|Hw].
    + destruct (IH1 Hwf1 w y c z Hw Hc) as [? ?]. congruence.
    + eauto.
  - apply andb_true_iff in Hwf as [Hwf1 Hwf2].
    destruct Hw as (ws & -> & Hall & Hmin & Hmax).
    eapply (repeat_complete (compile r) (matches r)); eauto.
Qed.

(** *** Fuel

    For a local matcher the fuel of [RepeatMatcher] is of no account once it
    exceeds the bound that [compile] gives it: the iterations never run
    out. *)

Lemma RepeatMatcher_local m :
  local m -> forall fuel min max, local (RepeatMatcher fuel m min max).
Proof.
  intros Hm fuel. induction fuel as [|f IH]; intros min max x c c' Hc; [done|].
  cbn [RepeatMatcher]. rewrite (Hc x) by done.
  assert (Hd : m x (fun y =>
                 if Nat.eqb min 0 && Nat.eqb (length y) (length x) then None
                 else RepeatMatcher f m (Nat.pred min) (Nat.pred <$> max) y c)
             = m x (fun y =>
                 if Nat.eqb min 0 && Nat.eqb (length y) (length x) then None
                 else RepeatMatcher f m (Nat.pred min) (Nat.pred <$> max) y c')).
  { apply Hm. intros y Hy. destruct (_ && _); [done|].
    apply IH. intros y' Hy'. apply Hc. lia. }
  by rewrite Hd.
Qed.

Lemma compile_local r : local (compile r).
Proof.
  induction r as [|p|r1 IH1 r2 IH2|r1 IH1 r2 IH2|r IH min max];
    intros x c c' Hc; cbn [compile].
  - by apply Hc.
  - destruct x as [|ch x]; [done|]. destruct (p ch); [|done].
    apply Hc. simpl. lia.
  - apply IH1. intros y Hy. apply IH2. intros y' Hy'. apply Hc. lia.
  - by rewrite (IH1 x c c'), (IH2 x c c').
  - by apply RepeatMatcher_local.
Qed.

Lemma RepeatMatcher_fuel m :
  local m ->
  forall fuel fuel' min max x c,
    (min + length x < fuel)%nat -> (min + length x < fuel')%nat ->
    RepeatMatcher fuel m min max x c = RepeatMatcher fuel' m min max x c.
Proof.
  intros Hm fuel.
  induction fuel as [|f IH]; intros fuel' min max x c Hf Hf'; [lia|].
  destruct fuel' as [|f']; [lia|]. cbn [RepeatMatcher].
  assert (Hd : m x (fun y =>
                 if Nat.eqb min 0 && Nat.eqb (length y) (length x) then None
                 else RepeatMatcher f m (Nat.pred min) (Nat.pred <$> max) y c)
             = m x (fun y =>
                 if Nat.eqb min 0 && Nat.eqb (length y) (length x) then None
                 else RepeatMatcher f' m (Nat.pred min) (Nat.pred <$> max) y c)).
  { apply Hm. intros y Hy.
    destruct (Nat.eqb_spec min 0) as [->|Hmin]; cbn [andb].
    - destruct (Nat.eqb_spec (length y) (length x)); [done|].
      apply IH; simpl; lia.
    - apply IH; lia. }
  by rewrite Hd.
Qed.

Lemma match_here_Some r x m rest :
  well_formed r = true ->
  match_here r x = Some (m, rest) -> x = m ++ rest /\ matches r m.
Proof.
  unfold match_here. intros Hwf H.
  destruct (compile r x Some) as [y|] eqn:Hc; [|discriminate].
  apply compile_sound in Hc as (w & y' & -> & Hw & [= ->]); auto.
  injection H as <- <-.
  rewrite length_app, Nat.add_sub, take_app_length. auto.
Qed.

Lemma match_here_None r x :
  well_formed r = true ->
  match_here r x = None -> forall m rest, x = m ++ rest -> ~ matches r m.
Proof.
  unfold match_here. intros Hwf H m rest -> Hm.
  destruct (compile_complete r Hwf m rest Some rest Hm eq_refl) as [z Hz].
  destruct (compile r (m ++ rest) _); [discriminate | congruence].
Qed.

Lemma exec_Some r x m rest :
  well_formed r = true ->
  exec r x = Some (m, rest) ->
  exists pre, x = pre ++ m ++ rest /\ matches r m /\
              match_here r (m ++ rest) = Some (m, rest) /\
              forall i, (i < length pre)%nat -> ~ match_at r x i.
Proof.
  intros Hwf. induction x as [|ch x IH]; simpl; intros H.
  - destruct (match_here r []) as [res|] eqn:Hh; [|discriminate].
    injection H as ->. pose proof Hh as Hh'.
    apply match_here_Some in Hh as [Hx Hm]; auto.
    exists []. simpl. split; [done|]. split; [done|].
    split; [by rewrite <- Hx|]. intros; lia.
  - destruct (match_here r (ch :: x)) as [res|] eqn:Hh.
    + injection H as ->. pose proof Hh as Hh'.
      apply match_here_Some in Hh as [Hx Hm]; auto.
      exists []. simpl. split; [done|]. split; [done|].
      split; [by rewrite <- Hx|]. intros; lia.
    + apply IH in H as (pre & -> & Hm & Hhere & Hfirst).
      exists (ch :: pre). split; [done|]. split; [done|]. split; [done|].
      intros [|i] Hi (m' & rest' & Hd & Hm').
      * simpl in Hd. eapply match_here_None; eauto.
      * simpl in Hd, Hi. apply (Hfirst i); [lia|]. exists m', rest'. auto.
Qed.

Lemma exec_None r x :
  well_formed r = true ->
  exec r x = None -> forall i, ~ match_at r x i.
Proof.
  intros Hwf. induction x as [|ch x IH]; simpl; intros H i (m & rest & Hd & Hm).
  - destruct (match_here r []) eqn:Hh; [discriminate|].
    rewrite drop_nil in Hd. eapply match_here_None; eauto.
  - destruct (match_here r (ch :: x)) eqn:Hh; [discriminate|].
    destruct i as [|i]; simpl in Hd.
    + eapply match_here_None; eauto.
    + apply (IH H i). exists m, rest. auto.
Qed.

(** The loop of a global match, told by [exec]: find the next match, keep
    it, and go on where it ends (one code unit further after an empty
    match, stopping at the end of the input). *)
Lemma match_loop_skip r n : forall x,
  (n <= length x)%nat -> match_loop r n x = match_loop r O (drop n x).
Proof.
  induction n as [|n IH]; intros x Hn; [done|].
  destruct x as [|ch x]; simpl in *; [lia|]. apply IH. lia.
Qed.

Lemma match_loop_exec r x :
  well_formed r = true ->
  match_loop r O x =
    match exec r x with
    | None => []
    | Some ([], rest) => [] :: match rest with
                               | [] => []
                               | _ :: rest' => match_loop r O rest'
                               end
    | Some (m, rest) => m :: match_loop r O rest
    end.
Proof.
  intros Hwf. induction x as [|ch x IH]; simpl.
  - destruct (match_here r []) as [[m rest]|] eqn:Hh; [|done].
    apply match_here_Some in Hh as [Hx Hm]; auto.
    symmetry in Hx. apply app_eq_nil in Hx as [-> ->]. done.
  - destruct (match_here r (ch :: x)) as [[m rest]|] eqn:Hh; [|apply IH].
    apply match_here_Some in Hh as [Hx Hm]; auto.
    destruct m as [|a m]; simpl in *.
    + subst rest. done.
    + injection Hx as -> ->. f_equal.
      rewrite match_loop_skip by (rewrite length_app; lia).
      by rewrite drop_app_length.
Qed.

(* ------------------------------------------------------------------ *)
(** ** Characters and strings *)
(* ------------------------------------------------------------------ *)

(** Decide the comparisons of a goal by case analysis and arithmetic. *)
Ltac decide_tests :=
  repeat match goal with
         | |- context [N.eqb ?a ?b] => destruct (N.eqb_spec a b); try lia
         | |- context [N.leb ?a ?b] => destruct (N.leb_spec a b); try lia
         | |- context [N.ltb ?a ?b] => destruct (N.ltb_spec a b); try lia
         end.

Lemma is_digit_range c : is_digit c = true <-> 48 <= c <= 57.
Proof.
  unfold is_digit. rewrite andb_true_iff, !N.leb_le. done.
Qed.

Lemma digit_not_space c : is_digit c = true -> is_space c = false.
Proof.
  intros H%is_digit_range. unfold is_space. decide_tests; done.
Qed.

Lemma digit_not_sep c : is_digit c = true -> colon_or_dot c = false.
Proof.
  intros H%is_digit_range. unfold colon_or_dot. decide_tests; done.
Qed.

Lemma trimStart_id c s : is_space c = false -> trimStart (c :: s) = c :: s.
Proof. intros H. simpl. by rewrite H. Qed.

(** A string that neither starts nor ends with white space is its own trim. *)
Lemma trim_id s c d front back :
  s = c :: back -> s = front ++ [d] ->
  is_space c = false -> is_space d = false -> trim s = s.
Proof.
  intros Hc Hd Hsc Hsd. unfold trim, trimEnd.
  rewrite Hc, trimStart_id, <- Hc, Hd by done.
  rewrite rev_app_distr. simpl. rewrite Hsd. simpl.
  by rewrite rev_involutive.
Qed.

Lemma trim_digits s :
  forallb is_digit s = true -> trim s = s.
Proof.
  intros H. destruct s as [|c back]; [done|].
  destruct (exists_last (l := c :: back)) as (front & d & Hd); [done|].
  eapply trim_id; eauto.
  - simpl in H. apply andb_true_iff in H as [H _]. by apply digit_not_space.
  - rewrite Hd, forallb_app in H. simpl in H.
    apply andb_true_iff in H as [_ H]. apply andb_true_iff in H as [H _].
    by apply digit_not_space.
Qed.

Lemma span_all p s : forallb p s = true -> span p s = (s, []).
Proof.
  induction s as [|c s IH]; simpl; [done|].
  intros [Hc Hs]%andb_true_iff. by rewrite Hc, IH.
Qed.

(** ** Splitting *)

Lemma split_no_sep sep s :
  forallb (fun c => negb (sep c)) s = true -> split sep s = [s].
Proof.
  induction s as [|c s IH]; simpl; [done|].
  intros [Hc Hs]%andb_true_iff. apply negb_true_iff in Hc.
  by rewrite Hc, IH.
Qed.

Lemma split_cons_ne sep s : split sep s <> [].
Proof.
  destruct s as [|c s]; simpl; [done|].
  destruct (sep c); [done|]. by destruct (split sep s).
Qed.

Lemma split_app sep g c s :
  forallb (fun c => negb (sep c)) g = true -> sep c = true ->
  split sep (g ++ c :: s) = g :: split sep s.
Proof.
  intros Hg Hc. induction g as [|a g IH]; simpl.
  - by rewrite Hc.
  - simpl in Hg. apply andb_true_iff in Hg as [Ha Hg].
    apply negb_true_iff in Ha. by rewrite Ha, IH.
Qed.

Lemma digits_no_sep g :
  forallb is_digit g = true -> forallb (fun c => negb (colon_or_dot c)) g = true.
Proof.
  rewrite !forallb_forall. intros H c Hc. by rewrite digit_not_sep by auto.
Qed.

Lemma digits_no_colon g :
  forallb is_digit g = true -> forallb (fun c => negb (c =? 58)) g = true.
Proof.
  rewrite !forallb_forall. intros H c Hc.
  specialize (H c Hc). apply is_digit_range in H. decide_tests; done.
Qed.

(* ------------------------------------------------------------------ *)
(** ** Numbers *)
(* ------------------------------------------------------------------ *)

Lemma decimal_literal_digits g :
  g <> [] -> forallb is_digit g = true ->
  StrUnsignedDecimalLiteral false g = of_Z (Z.of_N (decimal_value g)).
Proof.
  intros Hne Hg. unfold StrUnsignedDecimalLiteral.
  case_bool_decide as Hinf; [subst g; vm_compute in Hg; discriminate|].
  rewrite span_all by done.
  destruct g as [|c g]; [done|]. simpl is_nil. cbn iota beta.
  by rewrite app_nil_r.
Qed.

(** [Number] of a run of decimal digits is its value. *)
Lemma Number_digits g :
  g <> [] -> forallb is_digit g = true ->
  Number g = of_Z (Z.of_N (decimal_value g)).
Proof.
  intros Hne Hg. unfold Number. rewrite trim_digits by done.
  rewrite <- (decimal_literal_digits g) by done.
  destruct g as [|c r]; [done|].
  pose proof Hg as Hg'. simpl in Hg'. apply andb_true_iff in Hg' as [Hc Hr].
  apply is_digit_range in Hc.
  destruct (N.eqb_spec c 43); [lia|]. destruct (N.eqb_spec c 45); [lia|].
  destruct r as [|p ds]; [done|].
  simpl in Hr. apply andb_true_iff in Hr as [Hp _]. apply is_digit_range in Hp.
  replace ((p =? 120) || (p =? 88)) with false by (decide_tests; done).
  replace ((p =? 111) || (p =? 79)) with false by (decide_tests; done).
  replace ((p =? 98) || (p =? 66)) with false by (decide_tests; done).
  by rewrite !andb_false_r.
Qed.

Lemma isNaN_of_Z z : isNaN (of_Z z) = false.
Proof. done. Qed.

Lemma lt_of_Z a b : lt (of_Z a) (of_Z b) = (a <? b)%Z.
Proof.
  unfold lt, of_Z, compare_fin. simpl. rewrite !Z.mul_1_r.
  unfold Z.ltb. by destruct (a ?= b)%Z.
Qed.

Lemma gt_of_Z a b : gt (of_Z a) (of_Z b) = (b <? a)%Z.
Proof. apply lt_of_Z. Qed.

Lemma ge_of_Z a b : ge (of_Z a) (of_Z b) = (b <=? a)%Z.
Proof.
  unfold ge. rewrite lt_of_Z. simpl. rewrite Z.leb_antisym. done.
Qed.

Lemma add_of_Z a b : add (of_Z a) (of_Z b) = of_Z (a + b).
Proof. unfold add, of_Z. simpl. by rewrite !Z.mul_1_r. Qed.

Lemma mul_of_Z a b : mul (of_Z a) (of_Z b) = of_Z (a * b).
Proof. done. Qed.

Lemma pad_two_digits v : v < 100 -> pad (of_Z (Z.of_N v)) = two_digits v.
Proof.
  intros Hv.
  assert (Hall : forallb (fun n => bool_decide
            (pad (of_Z (Z.of_N (N.of_nat n))) = two_digits (N.of_nat n)))
            (seq 0 100) = true) by (vm_compute; reflexivity).
  rewrite forallb_forall in Hall.
  assert (Hin : In (N.to_nat v) (seq 0 100)) by (apply in_seq; lia).
  apply Hall in Hin. rewrite N2Nat.id in Hin.
  by apply bool_decide_eq_true in Hin.
Qed.

Lemma two_digits_are_digits v :
  v < 100 -> forallb is_digit (two_digits v) = true.
Proof.
  intros Hv. unfold two_digits. simpl. rewrite !andb_true_r.
  apply andb_true_iff; split; apply is_digit_range.
  - assert (v / 10 < 10) by (apply N.Div0.div_lt_upper_bound; lia).
    generalize dependent (v / 10). intros; lia.
  - assert (v mod 10 < 10) by (apply N.mod_lt; lia).
    generalize dependent (v mod 10). intros; lia.
Qed.

Lemma decimal_value_two_digits v :
  v < 100 -> decimal_value (two_digits v) = v.
Proof.
  intros Hv. unfold decimal_value, two_digits. simpl.
  rewrite (N.div_mod v 10) at 3 by lia.
  generalize (v / 10) (v mod 10). intros; lia.
Qed.

(* ------------------------------------------------------------------ *)
(** ** 4. Timestamp parsing *)
(* ------------------------------------------------------------------ *)

Lemma digit_group_run g : digit_group g -> digit_run g.
Proof. intros [Hl Hd]. split; [|done]. destruct g; simpl in *; [lia|done]. Qed.

Lemma join_cons g s g' more : join g ((s, g') :: more) = g ++ s :: join g' more.
Proof. done. Qed.

Lemma split_join g more :
  separators more -> Forall digit_run (g :: map snd more) ->
  split colon_or_dot (join g more) = g :: map snd more.
Proof.
  revert g. induction more as [|[s g'] more IH]; intros g Hs Hg.
  - unfold join. simpl. rewrite app_nil_r. apply split_no_sep, digits_no_sep.
    by apply Forall_cons in Hg as [[_ Hg] _].
  - rewrite join_cons. apply Forall_cons in Hs as [Hs Hmore].
    apply Forall_cons in Hg as [[_ Hg] Hrest].
    rewrite split_app by (simpl in *; auto using digits_no_sep).
    simpl. f_equal. by apply IH.
Qed.

Lemma join_ends g more :
  Forall digit_run (g :: map snd more) ->
  exists c back front d,
    join g more = c :: back /\ join g more = front ++ [d] /\
    is_digit c = true /\ is_digit d = true.
Proof.
  revert g. induction more as [|[s g'] more IH]; intros g Hg.
  - apply Forall_cons in Hg as [[Hne Hg] _]. unfold join. simpl. rewrite app_nil_r.
    destruct g as [|c back]; [done|].
    destruct (exists_last (l := c :: back)) as (front & d & Hd); [done|].
    exists c, back, front, d. split; [done|]. split; [done|].
    split.
    + simpl in Hg. by apply andb_true_iff in Hg as [? _].
    + rewrite Hd, forallb_app in Hg. simpl in Hg.
      apply andb_true_iff in Hg as [_ Hg]. by apply andb_true_iff in Hg as [? _].
  - apply Forall_cons in Hg as [[Hne Hg] Hrest]. simpl in Hrest.
    destruct (IH g' Hrest) as (c' & back' & front' & d & _ & Hd & _ & Hdd).
    rewrite join_cons. destruct g as [|c back]; [done|].
    exists c, (back ++ s :: join g' more), ((c :: back) ++ s :: front'), d.
    split; [done|]. split.
    + rewrite Hd. simpl. f_equal. by rewrite <- app_assoc.
    + split; [|done]. simpl in Hg. by apply andb_true_iff in Hg as [? _].
Qed.

Lemma trim_join g more :
  Forall digit_run (g :: map snd more) -> trim (join g more) = join g more.
Proof.
  intros Hg. destruct (join_ends g more Hg) as (c & back & front & d & Hc & Hd & ? & ?).
  eapply trim_id; eauto using digit_not_space.
Qed.

Lemma map_Number_digits gs :
  Forall digit_run gs ->
  map Number gs = map (fun g => of_Z (Z.of_N (decimal_value g))) gs.
Proof.
  induction 1 as [|g gs [Hne Hg] _ IH]; simpl; [done|].
  by rewrite Number_digits, IH.
Qed.

Lemma existsb_isNaN_of_Z (f : str -> Z) gs :
  existsb isNaN (map (fun g => of_Z (f g)) gs) = false.
Proof. induction gs; simpl; auto. Qed.

(** The range tests of [normaliseTimestamp] on natural numbers. *)
Lemma range_tests (h m s : Z) (m' s' : N) :
  (0 <= h)%Z -> m = Z.of_N m' -> s = Z.of_N s' ->
  lt (of_Z s) (of_Z 0) || gt (of_Z s) (of_Z 59)
  || lt (of_Z m) (of_Z 0) || gt (of_Z m) (of_Z 59)
  || lt (of_Z h) (of_Z 0)
  = negb ((m' <=? 59) && (s' <=? 59)).
Proof.
  intros Hh -> ->. rewrite !lt_of_Z, !gt_of_Z.
  destruct (N.leb_spec m' 59), (N.leb_spec s' 59);
    repeat match goal with
           | |- context [(?a <? ?b)%Z] => destruct (Z.ltb_spec a b); try lia
           end; done.
Qed.

(** [normaliseTimestamp] on runs of digits joined by colons and dots. *)
Lemma normaliseTimestamp_digits g more :
  separators more -> Forall digit_run (g :: map snd more) ->
  normaliseTimestamp (join g more) =
    fields_of (map decimal_value (g :: map snd more)) ≫= print_fields.
Proof.
  intros Hs Hg. unfold normaliseTimestamp.
  rewrite trim_join, split_join, map_Number_digits by done.
  rewrite existsb_isNaN_of_Z.
  set (gs := g :: map snd more).
  destruct gs as [|g0 [|g1 [|g2 [|g3 gs]]]]; simpl; try done.
  - rewrite (range_tests 0 0 _ 0 (decimal_value g0)) by (done || lia).
    unfold print_fields. change (0 <=? 59) with true. cbn [andb].
    destruct (N.leb_spec (decimal_value g0) 59); simpl; [|done].
    rewrite (pad_two_digits (decimal_value g0)) by lia. done.
  - rewrite (range_tests 0 _ _ (decimal_value g0) (decimal_value g1)) by (done || lia).
    unfold print_fields.
    destruct (N.leb_spec (decimal_value g0) 59),
             (N.leb_spec (decimal_value g1) 59); simpl; try done.
    rewrite !pad_two_digits by lia. done.
  - rewrite (range_tests _ _ _ (decimal_value g1) (decimal_value g2)) by (done || lia).
    unfold print_fields.
    destruct (N.leb_spec (decimal_value g1) 59),
             (N.leb_spec (decimal_value g2) 59); simpl; try done.
    rewrite !(pad_two_digits (decimal_value g1)),
            !(pad_two_digits (decimal_value g2)) by lia. done.
Qed.

(** ** The timestamp pattern denotes the candidates *)

Lemma matches_class_run p min max g :
  matches (Quant (Chars p) min (Some max)) g <->
  (min <= length g <= max)%nat /\ forallb p g = true.
Proof.
  cbn [matches]. split.
  - intros (ws & -> & Hall & Hmin & Hmax). specialize (Hmax _ eq_refl).
    assert (length (concat ws) = length ws /\ forallb p (concat ws) = true) as [Hl Hp].
    { clear Hmin Hmax. induction Hall as [|w ws (c & -> & Hc) _ [IHl IHp]]; [done|].
      simpl. rewrite Hc, IHl, IHp. done. }
    rewrite Hl. done.
  - intros [[Hmin Hmax] Hp]. exists (map (fun c => [c]) g).
    split; [|split; [|split]].
    + clear. induction g as [|c g IH]; simpl; congruence.
    + apply List.Forall_forall. intros w (c & <- & Hc)%in_map_iff.
      rewrite forallb_forall in Hp. eauto.
    + by rewrite length_map.
    + intros n [= <-]. by rewrite length_map.
Qed.

Lemma matches_tsPattern w : matches tsPattern w <-> candidate w.
Proof.
  unfold tsPattern, candidate. cbn [matches]. split.
  - intros (g & w2 & -> & Hg & ws & -> & Hall & Hmin & Hmax).
    specialize (Hmax _ eq_refl).
    apply (matches_class_run is_digit 1 2) in Hg.
    assert (exists more, concat ws = concat (map (fun sg => fst sg :: snd sg) more)
              /\ length more = length ws /\ separators more
              /\ Forall digit_group (map snd more)) as (more & Hc & Hl & Hs & Hd).
    { clear Hmin Hmax.
      induction Hall as [|wi ws (w1 & g1 & -> & (s & -> & Hs) & Hg1) _
                           (more & IHc & IHl & IHs & IHd)].
      - exists []. repeat split; constructor.
      - apply (matches_class_run is_digit 1 2) in Hg1.
        exists ((s, g1) :: more). split; [simpl; by rewrite IHc|].
        split; [simpl; by rewrite IHl|]. split; constructor; auto. }
    exists g, more. unfold join. rewrite Hc.
    split; [done|]. split; [unfold str in *; lia|]. split; [done|]. by constructor.
  - intros (g & more & -> & [Hmin Hmax] & Hs & Hd).
    apply Forall_cons in Hd as [Hg Hd].
    exists g, (concat (map (fun sg => fst sg :: snd sg) more)).
    split; [done|]. split; [by apply (matches_class_run is_digit 1 2)|].
    exists (map (fun sg => fst sg :: snd sg) more).
    rewrite length_map. split; [done|].
    split; [|split; [unfold str in *; lia|intros n [= <-]; unfold str in *; lia]].
    apply List.Forall_forall. intros wi ([s g1] & <- & Hin)%in_map_iff.
    exists [s], g1. split; [done|]. split.
    + exists s. split; [done|]. unfold separators in Hs.
      rewrite List.Forall_forall in Hs. by apply (Hs (s, g1)).
    + apply (matches_class_run is_digit 1 2).
      rewrite List.Forall_forall in Hd. apply Hd, in_map_iff. by exists (s, g1).
Qed.

Lemma candidate_not_empty w : candidate w -> w <> [].
Proof.
  intros (g & more & -> & _ & _ & Hd). apply Forall_cons in Hd as [[Hl _] _].
  destruct g; simpl in *; [lia|done].
Qed.

Lemma well_formed_tsPattern : well_formed tsPattern = true.
Proof. reflexivity. Qed.

(** ** A global match is a scan *)

Lemma match_loop_scan r :
  well_formed r = true -> (forall m, matches r m -> m <> []) ->
  forall x,
    scan r (fun m rest => match_here r (m ++ rest) = Some (m, rest)) x
         (match_loop r O x).
Proof.
  intros Hwf Hne x. remember (length x) as n eqn:Hn. revert x Hn.
  induction n as [n IH] using lt_wf_ind. intros x ->.
  rewrite match_loop_exec by done.
  destruct (exec r x) as [[m rest]|] eqn:He.
  - apply exec_Some in He as (pre & -> & Hm & Hhere & Hfirst); [|done].
    pose proof (Hne m Hm) as Hm'.
    destruct m as [|a m]; [done|].
    apply scan_match; auto.
    eapply IH; [|reflexivity].
    rewrite !length_app. simpl. lia.
  - apply scan_end. by apply exec_None.
Qed.

(** ** Canonical timestamps *)

Lemma canonical_join h m s :
  canonical h m s = join (two_digits h) [(58, two_digits m); (58, two_digits s)].
Proof. done. Qed.

Lemma two_digits_run v : v < 100 -> digit_run (two_digits v).
Proof. intros Hv. split; [done|]. by apply two_digits_are_digits. Qed.

Lemma normaliseTimestamp_canonical h m s :
  h < 100 -> m <= 59 -> s <= 59 ->
  normaliseTimestamp (canonical h m s) = Some (canonical h m s).
Proof.
  intros Hh Hm Hs. rewrite canonical_join, normaliseTimestamp_digits.
  - cbn [map snd fields_of]. rewrite !decimal_value_two_digits by lia.
    cbn [mbind option_bind print_fields].
    destruct (N.leb_spec m 59), (N.leb_spec s 59); try lia.
    by rewrite pad_two_digits.
  - repeat constructor.
  - repeat constructor; apply two_digits_run || apply two_digits_are_digits; lia.
Qed.

(** The digits of a string of the form HH:MM:SS of eight code units. *)
Lemma two_digits_of a b :
  is_digit a = true -> is_digit b = true ->
  [a; b] = two_digits (decimal_value [a; b]) /\ decimal_value [a; b] < 100.
Proof.
  intros Ha%is_digit_range Hb%is_digit_range.
  unfold decimal_value, two_digits. simpl.
  assert (Hv : (0 * 10 + (a - 48)) * 10 + (b - 48) = 10 * (a - 48) + (b - 48)) by lia.
  rewrite Hv.
  assert (Hq : (10 * (a - 48) + (b - 48)) / 10 = a - 48).
  { symmetry. apply (N.div_unique _ _ _ (b - 48)); lia. }
  assert (Hr : (10 * (a - 48) + (b - 48)) mod 10 = b - 48).
  { symmetry. apply (N.mod_unique _ _ (a - 48)); lia. }
  rewrite Hq, Hr. split; [|lia]. f_equal; [lia|f_equal; lia].
Qed.

Lemma HH_MM_SS_canonical x :
  length x = 8%nat -> is_HH_MM_SS x = true ->
  exists h m s, h < 100 /\ m <= 59 /\ s <= 59 /\ x = canonical h m s.
Proof.
  intros Hl H.
  destruct x as [|c1 [|c2 [|c3 [|c4 [|c5 [|c6 [|c7 [|c8 [|c9 x]]]]]]]]];
    try discriminate Hl.
  unfold is_HH_MM_SS in H. cbn [split] in H.
  repeat match type of H with
         | context [N.eqb ?c 58] => destruct (N.eqb_spec c 58)
         end; cbn in H; try discriminate H;
    repeat match type of H with
           | (_ && _) = true => apply andb_true_iff in H as [H ?]
           end; try discriminate.
  subst c3 c6.
  repeat match goal with
         | Hd : is_digit _ && _ = true |- _ => apply andb_true_iff in Hd as [? Hd]
         end.
  destruct (two_digits_of c1 c2) as [E1 B1]; auto.
  destruct (two_digits_of c4 c5) as [E2 B2]; auto.
  destruct (two_digits_of c7 c8) as [E3 B3]; auto.
  exists (decimal_value [c1; c2]), (decimal_value [c4; c5]), (decimal_value [c7; c8]).
  split; [done|]. split; [by apply N.leb_le|]. split; [by apply N.leb_le|].
  unfold canonical. rewrite <- E1, <- E2, <- E3. done.
Qed.

(** C9. [normaliseTimestamp] leaves canonical output as it is: for every
    string [x] of the form HH:MM:SS with two digits in each field (eight code
    units; hours from 00 to 99, minutes and seconds from 00 to 59),
    [normaliseTimestamp x] is [x]. *)
Theorem normaliseTimestamp_idempotent x :
  length x = 8%nat -> is_HH_MM_SS x = true ->
  normaliseTimestamp x = Some x.
Proof.
  intros Hl H.
  destruct (HH_MM_SS_canonical x Hl H) as (h & m & s & Hh & Hm & Hs & ->).
  by apply normaliseTimestamp_canonical.
Qed.

Lemma normaliseTimestamp_idempotent_witness :
  normaliseTimestamp (lit "01:02:15") = Some (lit "01:02:15").
Proof.
  apply (normaliseTimestamp_idempotent (lit "01:02:15")); reflexivity.
Defined.

(** ** [normaliseTimestamp] on any input *)

Lemma normaliseTimestamp_NaN raw g :
  In g (split colon_or_dot (trim raw)) -> isNaN (Number g) = true ->
  normaliseTimestamp raw = None.
Proof.
  intros Hin Hnan. unfold normaliseTimestamp.
  replace (existsb isNaN (map Number (split colon_or_dot (trim raw)))) with true; [done|].
  symmetry. apply existsb_exists. exists (Number g). split; [|done].
  apply in_map_iff. eauto.
Qed.

Lemma normaliseTimestamp_too_many raw :
  (3 < length (split colon_or_dot (trim raw)))%nat ->
  normaliseTimestamp raw = None.
Proof.
  intros Hl. unfold normaliseTimestamp.
  destruct (existsb isNaN _); [done|].
  destruct (split colon_or_dot (trim raw)) as [|g0 [|g1 [|g2 [|g3 gs]]]];
    simpl in *; try lia; done.
Qed.

Lemma normaliseTimestamp_fields raw :
  normaliseTimestamp raw =
    if existsb isNaN (map Number (split colon_or_dot (trim raw))) then None
    else
      match number_fields (map Number (split colon_or_dot (trim raw))) with
      | Some (hours, minutes, seconds) =>
          if lt seconds (of_Z 0) || gt seconds (of_Z 59)
             || lt minutes (of_Z 0) || gt minutes (of_Z 59)
             || lt hours (of_Z 0)
          then None
          else Some (pad hours ++ lit ":" ++ pad minutes ++ lit ":" ++ pad seconds)
      | None => None
      end.
Proof.
  unfold normaliseTimestamp, number_fields.
  destruct (existsb isNaN _); [done|].
  by destruct (map Number _) as [|p0 [|p1 [|p2 [|p3 ps]]]].
Qed.

(** ** Groups that are literals *)

Lemma trimStart_blank g : forallb is_space g = true -> trimStart g = [].
Proof.
  induction g as [|c g IH]; [done|]. cbn [forallb trimStart].
  intros [Hc Hg]%andb_true_iff. rewrite Hc. by apply IH.
Qed.

Lemma trim_blank g : forallb is_space g = true -> trim g = [].
Proof. intros H. unfold trim, trimEnd. by rewrite (trimStart_blank g) by done. Qed.

Lemma trim_no_space g :
  forallb (fun c => negb (is_space c)) g = true -> trim g = g.
Proof.
  intros H. destruct g as [|c back]; [done|].
  destruct (exists_last (l := c :: back)) as (front & d & Hd); [done|].
  eapply trim_id; eauto.
  - simpl in H. apply andb_true_iff in H as [H _]. by apply negb_true_iff.
  - rewrite Hd, forallb_app in H. simpl in H.
    apply andb_true_iff in H as [_ H]. apply andb_true_iff in H as [H _].
    by apply negb_true_iff.
Qed.

Lemma digits_no_space g :
  forallb is_digit g = true -> forallb (fun c => negb (is_space c)) g = true.
Proof.
  rewrite !forallb_forall. intros H c Hc. by rewrite digit_not_space by auto.
Qed.

Lemma span_app p ds c t :
  forallb p ds = true -> p c = false -> span p (ds ++ c :: t) = (ds, c :: t).
Proof.
  intros Hds Hc. induction ds as [|d ds IH]; cbn [app span].
  - by rewrite Hc.
  - cbn [forallb] in Hds. apply andb_true_iff in Hds as [-> Hds].
    by rewrite IH.
Qed.

(** StrUnsignedDecimalLiteral on a run of digits, under either sign. *)
Lemma literal_of_digits neg ds :
  digit_run ds ->
  StrUnsignedDecimalLiteral neg ds
  = (if neg then JsNumber.neg else id) (of_Z (Z.of_N (decimal_value ds))).
Proof.
  intros [Hne Hds]. unfold StrUnsignedDecimalLiteral.
  case_bool_decide as Hinf; [subst ds; vm_compute in Hds; discriminate|].
  rewrite span_all by done.
  destruct ds as [|c ds]; [done|]. cbn [is_nil andb]. cbn iota beta.
  rewrite app_nil_r. by destruct neg.
Qed.

(** The same on digits with an exponent. *)
Lemma literal_of_exponent neg ds e plus ks :
  digit_run ds -> e = 101 \/ e = 69 -> plus = [] \/ plus = [43] -> digit_run ks ->
  StrUnsignedDecimalLiteral neg (ds ++ e :: plus ++ ks)
  = (if neg then JsNumber.neg else id)
      (Fin (Z.of_N (decimal_value ds)) (Z.of_N (decimal_value ks))).
Proof.
  intros [Hne Hds] He Hplus [Hkne Hks]. unfold StrUnsignedDecimalLiteral.
  assert (He_digit : is_digit e = false) by (by destruct He as [-> | ->]).
  case_bool_decide as Hinf.
  { destruct ds as [|c ds]; [done|]. injection Hinf as -> _.
    vm_compute in Hds. discriminate. }
  rewrite span_app by done.
  replace (e =? 46) with false by (by destruct He as [-> | ->]).
  destruct ds as [|c ds]; [done|]. cbn [is_nil andb]. cbn iota beta.
  replace ((e =? 101) || (e =? 69)) with true by (by destruct He as [-> | ->]).
  destruct ks as [|k ks]; [done|].
  pose proof Hks as Hk. cbn [forallb] in Hk.
  apply andb_true_iff in Hk as [Hk%is_digit_range _].
  destruct Hplus as [-> | ->]; cbn [app].
  - destruct (N.eqb_spec k 43); [lia|]. destruct (N.eqb_spec k 45); [lia|].
    cbn iota beta. cbn [is_nil orb]. rewrite Hks. cbn [negb].
    rewrite app_nil_r. cbn [length Z.of_nat]. rewrite Z.sub_0_r. by destruct neg.
  - change (43 =? 43) with true. cbn iota beta. cbn [is_nil orb].
    rewrite Hks. cbn [negb].
    rewrite app_nil_r. cbn [length Z.of_nat]. rewrite Z.sub_0_r. by destruct neg.
Qed.

Lemma literal_of_Infinity neg :
  StrUnsignedDecimalLiteral neg (lit "Infinity") = Inf neg.
Proof. unfold StrUnsignedDecimalLiteral. by rewrite bool_decide_eq_true_2. Qed.

Lemma unsigned_literal_signed neg g x :
  unsigned_literal g x ->
  StrUnsignedDecimalLiteral neg g = (if neg then JsNumber.neg else id) x.
Proof.
  intros [ds Hds|ds e plus ks Hds He Hplus Hks|].
  - by apply literal_of_digits.
  - by apply literal_of_exponent.
  - rewrite literal_of_Infinity. by destruct neg.
Qed.

(** An unsigned literal has no white space, and starts with a digit or
    with [I]. *)
Lemma unsigned_literal_chars g x :
  unsigned_literal g x ->
  forallb (fun c => negb (is_space c)) g = true /\
  exists c r, g = c :: r /\ (is_digit c = true \/ c = 73).
Proof.
  intros [ds [Hne Hds]|ds e plus ks [Hne Hds] He Hplus [Hkne Hks]|].
  - split; [by apply digits_no_space|].
    destruct ds as [|c r]; [done|]. exists c, r. split; [done|]. left.
    cbn [forallb] in Hds. by apply andb_true_iff in Hds as [-> _].
  - split.
    + apply forallb_forall. intros c Hc.
      assert (Hdigit : forall s, forallb is_digit s = true -> In c s ->
                negb (is_space c) = true).
      { intros s Hs Hin. rewrite forallb_forall in Hs.
        by rewrite (digit_not_space c) by auto. }
      apply in_app_or in Hc as [Hc|[<-|Hc]]; [by apply (Hdigit ds)| |].
      * by destruct He as [-> | ->].
      * apply in_app_or in Hc as [Hc|Hc]; [|by apply (Hdigit ks)].
        destruct Hplus as [-> | ->]; [done|]. by destruct Hc as [<-|[]].
    + destruct ds as [|c r]; [done|]. exists c, (r ++ e :: plus ++ ks).
      split; [done|]. left.
      cbn [forallb] in Hds. by apply andb_true_iff in Hds as [-> _].
  - split; [by vm_compute|]. eexists _, _. split; [vm_compute; reflexivity|].
    by right.
Qed.

Lemma digit_of_no_space base c : digit_of base c = true -> is_space c = false.
Proof.
  unfold digit_of, is_digit, is_space.
  intros [H _]%andb_true_iff. revert H. decide_tests; done.
Qed.

Lemma digits_in_value base ds : forall acc,
  forallb (digit_of base) ds = true ->
  digits_in base acc ds
  = Some (fold_left (fun a c => a * base + digit_value c) ds acc).
Proof.
  induction ds as [|c ds IH]; intros acc Hds; [done|].
  cbn [forallb] in Hds. apply andb_true_iff in Hds as [Hc Hds].
  cbn [digits_in fold_left].
  assert (Hd : digit_in base c = Some (digit_value c)).
  { unfold digit_of in Hc. apply andb_true_iff in Hc as [Hrange Hlt].
    unfold digit_in. unfold digit_value, is_digit in *.
    revert Hrange Hlt. decide_tests; cbn; try done; intros _ Hlt;
      rewrite ?Hlt; try done; decide_tests; done. }
  rewrite Hd. by apply IH.
Qed.

(** [Number] of a group that is a literal is what the literal denotes. *)
Lemma Number_denotes g0 x0 : denotes g0 x0 -> Number g0 = x0.
Proof.
  intros [g Hg|g x Hu|g x Hu|g x Hu|p base ds Hp Hne Hds]; unfold Number.
  - by rewrite trim_blank.
  - destruct (unsigned_literal_chars g x Hu) as (Hns & c & r & -> & Hc).
    rewrite trim_no_space by done.
    pose proof (unsigned_literal_signed false (c :: r) x Hu) as Hlit.
    cbn iota in Hlit. unfold id in Hlit. rewrite <- Hlit. clear Hlit.
    assert (Hc' : (48 <= c <= 57) \/ c = 73).
    { destruct Hc as [Hc%is_digit_range| ->]; auto. }
    destruct (N.eqb_spec c 43); [lia|]. destruct (N.eqb_spec c 45); [lia|].
    destruct r as [|p ds]; [done|].
    destruct (N.eqb_spec c 48) as [->|]; [|done]. cbn [andb].
    inversion Hu as [ds0 [_ Hd]|ds0 e plus ks [Hne0 Hd] He Hplus Hks Heq|].
    + cbn [forallb] in Hd. apply andb_true_iff in Hd as [_ Hd].
      apply andb_true_iff in Hd as [Hp%is_digit_range _].
      replace ((p =? 120) || (p =? 88)) with false by (decide_tests; done).
      replace ((p =? 111) || (p =? 79)) with false by (decide_tests; done).
      replace ((p =? 98) || (p =? 66)) with false by (decide_tests; done).
      done.
    + assert (Hp : (48 <= p <= 57) \/ p = 101 \/ p = 69).
      { destruct ds0 as [|d0 [|d1 ds0]]; [done| |].
        - injection Heq as _ <-. tauto.
        - injection Heq as _ <- _. cbn [forallb] in Hd.
          apply andb_true_iff in Hd as [_ Hd].
          apply andb_true_iff in Hd as [Hd%is_digit_range _]. auto. }
      replace ((p =? 120) || (p =? 88)) with false by (decide_tests; done).
      replace ((p =? 111) || (p =? 79)) with false by (decide_tests; done).
      replace ((p =? 98) || (p =? 66)) with false by (decide_tests; done).
      done.
  - destruct (unsigned_literal_chars g x Hu) as (Hns & _).
    rewrite trim_no_space by (cbn [forallb]; by rewrite Hns).
    rewrite N.eqb_refl. by rewrite (unsigned_literal_signed false g x Hu).
  - destruct (unsigned_literal_chars g x Hu) as (Hns & _).
    rewrite trim_no_space by (cbn [forallb]; by rewrite Hns).
    change (45 =? 43) with false. rewrite N.eqb_refl. cbn iota.
    by rewrite (unsigned_literal_signed true g x Hu).
  - rewrite trim_no_space.
    2:{ cbn [forallb]. apply andb_true_iff. split; [done|].
        apply andb_true_iff. split.
        - unfold radix_of in Hp. revert Hp. unfold is_space.
          decide_tests; done.
        - apply forallb_forall. intros c Hc.
          rewrite forallb_forall in Hds.
          by rewrite (digit_of_no_space base c) by auto. }
    change (48 =? 43) with false. change (48 =? 45) with false.
    change (48 =? 48) with true. cbn iota. cbn [andb].
    unfold radix_of in Hp.
    assert (Hlit : NonDecimalIntegerLiteral base ds
                   = of_Z (Z.of_N (radix_value base ds))).
    { destruct ds as [|d ds]; [done|]. unfold NonDecimalIntegerLiteral.
      by rewrite digits_in_value by done. }
    destruct ((p =? 120) || (p =? 88)); [by injection Hp as <-|].
    destruct ((p =? 111) || (p =? 79)); [by injection Hp as <-|].
    destruct ((p =? 98) || (p =? 66)); [by injection Hp as <-|done].
Qed.

(** White space around a group does not count. *)
Lemma trimStart_app_blank a s :
  forallb is_space a = true -> trimStart (a ++ s) = trimStart s.
Proof.
  induction a as [|c a IH]; [done|]. cbn [forallb app trimStart].
  intros [Hc Ha]%andb_true_iff. rewrite Hc. by apply IH.
Qed.

Lemma trimStart_app s b :
  forallb is_space s = false -> trimStart (s ++ b) = trimStart s ++ b.
Proof.
  induction s as [|c s IH]; [done|]. cbn [forallb app trimStart].
  destruct (is_space c); [apply IH|done].
Qed.

Lemma forallb_rev {A} (p : A -> bool) s : forallb p (rev s) = forallb p s.
Proof.
  apply eq_true_iff_eq. rewrite !forallb_forall.
  split; intros H c Hc; apply H; by apply in_rev in Hc.
Qed.

Lemma trim_spaces a g b :
  forallb is_space a = true -> forallb is_space b = true ->
  trim (a ++ g ++ b) = trim g.
Proof.
  intros Ha Hb. unfold trim. rewrite trimStart_app_blank by done.
  destruct (forallb is_space g) eqn:Hg.
  - rewrite (trimStart_blank (g ++ b)) by (by rewrite forallb_app, Hg, Hb).
    by rewrite (trimStart_blank g) by done.
  - rewrite trimStart_app by done. unfold trimEnd.
    rewrite rev_app_distr, trimStart_app_blank; [done|].
    by rewrite forallb_rev.
Qed.

Lemma Number_spaces a g b :
  forallb is_space a = true -> forallb is_space b = true ->
  Number (a ++ g ++ b) = Number g.
Proof. intros Ha Hb. unfold Number. by rewrite trim_spaces. Qed.

(** ** Whole numbers in comparison and in print *)

Lemma lt_whole x z a : whole x z -> lt x (of_Z a) = (z <? a)%Z.
Proof.
  destruct x as [| |m e]; try done. intros [He ->].
  unfold lt, of_Z, compare_fin. rewrite Z.min_r by done.
  rewrite Z.sub_0_r. cbn [Z.sub Z.add Z.opp Z.pow Z.pow_pos Pos.iter].
  rewrite Z.mul_1_r. by unfold Z.ltb.
Qed.

Lemma gt_whole x z a : whole x z -> gt x (of_Z a) = (a <? z)%Z.
Proof.
  destruct x as [| |m e]; try done. intros [He ->].
  unfold gt, lt, of_Z, compare_fin. rewrite Z.min_l by done.
  rewrite !Z.sub_0_r. change (10 ^ 0)%Z with 1%Z.
  rewrite Z.mul_1_r. by unfold Z.ltb.
Qed.

Lemma pad_whole x z :
  whole x z -> (0 <= z < 100)%Z -> pad x = two_digits (Z.to_N z).
Proof.
  destruct x as [| |m e]; try done. intros [He ->] Hz.
  destruct (Z.eq_dec m 0%Z) as [->|Hm]; [by rewrite Z.mul_0_l|].
  assert (Hpos : (0 < 10 ^ e)%Z) by (by apply Z.pow_pos_nonneg).
  assert (Hm' : (1 <= m)%Z) by nia.
  assert (He' : (e < 2)%Z).
  { destruct (Z.lt_ge_cases e 2) as [|Hge]; [done|].
    pose proof (Z.pow_le_mono_r 10 2 e ltac:(lia) Hge)%Z as Hp.
    change (10 ^ 2)%Z with 100%Z in Hp. nia. }
  assert (Hcases : e = 0%Z \/ e = 1%Z) by lia.
  destruct Hcases as [-> | ->].
  - change (10 ^ 0)%Z with 1%Z in *. rewrite Z.mul_1_r in *.
    rewrite <- (Z2N.id m) at 1 by lia. apply pad_two_digits. lia.
  - change (10 ^ 1)%Z with 10%Z in *.
    assert (Hdigit : In m [1; 2; 3; 4; 5; 6; 7; 8; 9]%Z) by (cbn [In]; lia).
    revert Hdigit. cbn [In]. intuition (subst; by vm_compute).
Qed.

Lemma exact_number x : exact x -> isNaN x = false.
Proof. by destruct x. Qed.

(** On groups that are exact numbers the answer is decided by the range
    tests alone. *)
Lemma normaliseTimestamp_exact raw hours minutes seconds :
  number_fields (map Number (split colon_or_dot (trim raw)))
    = Some (hours, minutes, seconds) ->
  exact hours -> exact minutes -> exact seconds ->
  normaliseTimestamp raw =
    if lt seconds (of_Z 0) || gt seconds (of_Z 59)
       || lt minutes (of_Z 0) || gt minutes (of_Z 59)
       || lt hours (of_Z 0)
    then None
    else Some (pad hours ++ lit ":" ++ pad minutes ++ lit ":" ++ pad seconds).
Proof.
  intros Hf Hh%exact_number Hm%exact_number Hs%exact_number.
  rewrite normaliseTimestamp_fields, Hf.
  replace (existsb isNaN _) with false; [done|].
  unfold number_fields in Hf.
  destruct (map Number _) as [|p0 [|p1 [|p2 [|p3 ps]]]]; try done;
    injection Hf as <- <- <- || injection Hf as <- <- || injection Hf as <-;
    cbn [existsb]; by rewrite ?Hh, ?Hm, ?Hs.
Qed.

(** ** Groups that are no literals *)

Lemma trimStart_keeps c s : In c s -> is_space c = false -> In c (trimStart s).
Proof.
  intros Hin Hc. induction s as [|d s IH]; [done|]. cbn [trimStart].
  destruct (is_space d) eqn:Hd; [|done].
  destruct Hin as [->|Hin]; [congruence|by apply IH].
Qed.

Lemma trim_keeps c s : In c s -> is_space c = false -> In c (trim s).
Proof.
  intros Hin Hc. unfold trim, trimEnd. apply -> in_rev.
  apply trimStart_keeps; [|done]. apply -> in_rev.
  by apply trimStart_keeps.
Qed.

Lemma span_In p s c :
  In c s -> p c = false -> In c (span p s).2.
Proof.
  intros Hin Hc. induction s as [|d s IH]; [done|]. cbn [span].
  destruct (p d) eqn:Hd; [|done].
  destruct (span p s) as [a b]. cbn [snd] in *.
  destruct Hin as [->|Hin]; [congruence|by apply IH].
Qed.

Lemma literal_char_false c :
  literal_char c = false ->
  is_space c = false /\ is_digit c = false /\
  ~ In c (lit "+-.InfinityabcdefABCDEFxXoO").
Proof.
  unfold literal_char. intros [[Hs Hd]%orb_false_iff Hl]%orb_false_iff.
  repeat split; [done..|]. intros Hin.
  assert (existsb (N.eqb c) (lit "+-.InfinityabcdefABCDEFxXoO") = true);
    [|congruence].
  apply existsb_exists. exists c. split; [done|apply N.eqb_refl].
Qed.

Ltac not_a_literal_char H :=
  let Hin := fresh in
  intros Hin; apply H; subst; vm_compute; tauto.

Lemma StrUnsignedDecimalLiteral_NaN neg s c :
  In c s -> literal_char c = false -> StrUnsignedDecimalLiteral neg s = NaN.
Proof.
  intros Hin (Hspace & Hdigit & Hl)%literal_char_false.
  assert (H46 : c <> 46) by not_a_literal_char Hl.
  assert (H43 : c <> 43) by not_a_literal_char Hl.
  assert (H45 : c <> 45) by not_a_literal_char Hl.
  assert (H101 : c <> 101) by not_a_literal_char Hl.
  assert (H69 : c <> 69) by not_a_literal_char Hl.
  unfold StrUnsignedDecimalLiteral.
  case_bool_decide as Hinf.
  { exfalso. apply Hl. subst s. revert Hin. vm_compute. tauto. }
  pose proof (span_In is_digit s c Hin Hdigit) as H1.
  destruct (span is_digit s) as [int r1]. cbn [snd] in H1.
  assert (H2 : In c (match r1 with
                     | c1 :: r => if c1 =? 46 then span is_digit r else ([], r1)
                     | [] => ([], r1)
                     end).2).
  { destruct r1 as [|c1 r]; [done|].
    destruct (N.eqb_spec c1 46) as [->|]; [|done].
    destruct H1 as [<-|H1]; [done|]. by apply span_In. }
  destruct (match r1 with [] => _ | _ => _ end) as [frac r2]. cbn [snd] in H2.
  destruct (is_nil int && is_nil frac); [done|].
  destruct r2 as [|c2 r3]; [done|].
  destruct ((c2 =? 101) || (c2 =? 69)) eqn:He; [|done].
  destruct H2 as [<-|H2].
  { revert He. decide_tests; done. }
  assert (H4 : In c (match r3 with
                     | c' :: r =>
                         if c' =? 43 then (false, r)
                         else if c' =? 45 then (true, r)
                         else (false, r3)
                     | [] => (false, r3)
                     end).2).
  { destruct r3 as [|c' r]; [done|].
    destruct (N.eqb_spec c' 43) as [->|];
      [destruct H2 as [<-|H2]; done|].
    destruct (N.eqb_spec c' 45) as [->|];
      [destruct H2 as [<-|H2]; done|]. done. }
  destruct (match r3 with [] => _ | _ => _ end) as [eneg r4]. cbn [snd] in H4.
  replace (forallb is_digit r4) with false; [by rewrite orb_true_r|].
  symmetry. apply not_true_iff_false. rewrite forallb_forall.
  intros H. apply H in H4. congruence.
Qed.

Lemma NonDecimalIntegerLiteral_NaN base ds c :
  In c ds -> literal_char c = false -> NonDecimalIntegerLiteral base ds = NaN.
Proof.
  intros Hin (Hspace & Hdigit & Hl)%literal_char_false.
  assert (Hd : digit_in base c = None).
  { unfold digit_in. rewrite Hdigit.
    destruct ((97 <=? c) && (c <=? 102)) eqn:Hlow.
    { exfalso. apply Hl. apply andb_true_iff in Hlow as [H0%N.leb_le H1%N.leb_le].
      assert (Hc : In c [97; 98; 99; 100; 101; 102]) by (cbn [In]; lia).
      revert Hc. vm_compute. tauto. }
    destruct ((65 <=? c) && (c <=? 70)) eqn:Hup; [|done].
    exfalso. apply Hl. apply andb_true_iff in Hup as [H0%N.leb_le H1%N.leb_le].
    assert (Hc : In c [65; 66; 67; 68; 69; 70]) by (cbn [In]; lia).
    revert Hc. vm_compute. tauto. }
  assert (Hds : forall acc, digits_in base acc ds = None).
  { induction ds as [|d ds IH]; [done|]. intros acc. cbn [digits_in].
    destruct Hin as [->|Hin]; [by rewrite Hd|].
    destruct (digit_in base d); [by apply IH|done]. }
  unfold NonDecimalIntegerLiteral. destruct ds as [|d ds']; [done|].
  by rewrite Hds.
Qed.

(** A group with a code unit that no numeric literal has is [NaN]. *)
Lemma Number_NaN g c : In c g -> literal_char c = false -> Number g = NaN.
Proof.
  intros Hin Hc. pose proof Hc as (Hspace & Hdigit & Hl)%literal_char_false.
  assert (H43 : c <> 43) by not_a_literal_char Hl.
  assert (H45 : c <> 45) by not_a_literal_char Hl.
  assert (H48 : c <> 48) by (intros ->; done).
  assert (Hx : forall p, radix_of p <> None -> c <> p).
  { intros p Hp ->. apply Hl. unfold radix_of in Hp. revert Hp.
    decide_tests; cbn [orb]; intros Hp; try done; subst; vm_compute; tauto. }
  apply trim_keeps in Hin; [|done]. unfold Number.
  destruct (trim g) as [|c0 r]; [done|].
  destruct (N.eqb_spec c0 43) as [->|].
  { destruct Hin as [<-|Hin]; [done|].
    by apply (StrUnsignedDecimalLiteral_NaN _ _ c). }
  destruct (N.eqb_spec c0 45) as [->|].
  { destruct Hin as [<-|Hin]; [done|].
    by apply (StrUnsignedDecimalLiteral_NaN _ _ c). }
  pose proof (StrUnsignedDecimalLiteral_NaN false (c0 :: r) c Hin Hc) as Hlit.
  destruct r as [|p ds]; [done|].
  assert (Hds : forall base, (c0 =? 48) = true -> radix_of p <> None ->
                  NonDecimalIntegerLiteral base ds = NaN).
  { intros base H0%N.eqb_eq Hp. subst c0.
    destruct Hin as [<-|[<-|Hin]]; [done|by destruct (Hx _ Hp)|].
    by apply (NonDecimalIntegerLiteral_NaN _ _ c). }
  unfold radix_of in Hds.
  destruct (c0 =? 48); [|done]. cbn [andb].
  destruct ((p =? 120) || (p =? 88)); [by apply Hds|].
  destruct ((p =? 111) || (p =? 79)); [by apply Hds|].
  destruct ((p =? 98) || (p =? 66)); [by apply Hds|done].
Qed.

(** ** Whole numbers in print: their decimal digits *)

(** The value of the digits of a decimal numeral. *)
Lemma decimal_value_uint d : forall acc,
  fold_left (fun a c => a * 10 + (c - 48)) (uint_chars d) acc
  = acc * 10 ^ DecimalPos.Unsigned.usize d
    + DecimalPos.Unsigned.of_lu (Decimal.rev d).
Proof.
  induction d; intros acc; cbn [uint_chars fold_left DecimalPos.Unsigned.usize];
    [cbn; lia|..];
    rewrite IHd; unfold Decimal.rev; cbn [Decimal.revapp];
    rewrite (DecimalPos.Unsigned.of_lu_revapp d (_ Decimal.Nil));
    cbn [DecimalPos.Unsigned.of_lu]; rewrite N.pow_succ_r';
    unfold Decimal.rev;
    match goal with
    | |- context [(?c - 48)] =>
        let v := eval vm_compute in (c - 48) in change (c - 48) with v
    end; ring.
Qed.

Lemma decimal_value_of_uint d : decimal_value (uint_chars d) = N.of_uint d.
Proof.
  unfold decimal_value. rewrite decimal_value_uint.
  unfold N.of_uint. rewrite DecimalPos.Unsigned.of_uint_alt. lia.
Qed.

(** A run of digits is a decimal numeral. *)
Lemma digits_uint ds :
  forallb is_digit ds = true -> exists d, uint_chars d = ds.
Proof.
  induction ds as [|c ds IH]; [by exists Decimal.Nil|].
  cbn [forallb]. intros [Hc%is_digit_range Hds]%andb_true_iff.
  destruct (IH Hds) as [d <-].
  assert (Hcases : In c [48; 49; 50; 51; 52; 53; 54; 55; 56; 57])
    by (cbn [In]; lia).
  cbn [In] in Hcases.
  destruct Hcases as [<-|[<-|[<-|[<-|[<-|[<-|[<-|[<-|[<-|[<-|[]]]]]]]]]]];
    [by exists (Decimal.D0 d)|by exists (Decimal.D1 d)|by exists (Decimal.D2 d)
    |by exists (Decimal.D3 d)|by exists (Decimal.D4 d)|by exists (Decimal.D5 d)
    |by exists (Decimal.D6 d)|by exists (Decimal.D7 d)|by exists (Decimal.D8 d)
    |by exists (Decimal.D9 d)].
Qed.

(** The digits of the value of a run of digits without a leading zero are
    the run itself. *)
Lemma decimal_of_digits c ds :
  forallb is_digit (c :: ds) = true -> c <> 48 ->
  decimal (decimal_value (c :: ds)) = c :: ds.
Proof.
  intros Hds Hc. destruct (digits_uint _ Hds) as [d Hd].
  rewrite <- Hd at 1. rewrite decimal_value_of_uint. unfold decimal.
  rewrite DecimalN.Unsigned.to_of.
  replace (Decimal.unorm d) with d; [done|].
  destruct d; try done. by injection Hd as <- _.
Qed.

(** A run of digits without a leading zero is worth at least the power of
    ten of its length. *)
Lemma decimal_value_lower ds : forall acc,
  acc * 10 ^ N.of_nat (length ds)
  <= fold_left (fun a c => a * 10 + (c - 48)) ds acc.
Proof.
  induction ds as [|c ds IH]; intros acc; cbn [fold_left length].
  - cbn. lia.
  - specialize (IH (acc * 10 + (c - 48))).
    rewrite Nat2N.inj_succ, N.pow_succ_r'. nia.
Qed.

(** What is cut off the end of a numeral is zeros. *)
Lemma span_spec p s :
  s = (span p s).1 ++ (span p s).2 /\ forallb p (span p s).1 = true.
Proof.
  induction s as [|c s IH]; [done|]. cbn [span].
  destruct (p c) eqn:Hc; [|done].
  destruct (span p s) as [a b]. cbn [fst snd app forallb] in *.
  destruct IH as [<- ->]. by rewrite Hc.
Qed.

Lemma significant_spec ds :
  (significant ds).1 ++ repeat 48 (significant ds).2 = ds.
Proof.
  unfold significant.
  destruct (span_spec (fun c => c =? 48) (rev ds)) as [Hrev Hzeros].
  destruct (span _ (rev ds)) as [zeros rest]. cbn [fst snd] in *.
  rewrite <- (rev_involutive ds), Hrev, rev_app_distr. f_equal.
  clear Hrev. induction zeros as [|z zeros IH]; [done|].
  cbn [forallb] in Hzeros. apply andb_true_iff in Hzeros as [->%N.eqb_eq Hz].
  cbn [rev length repeat]. rewrite <- IH by done. apply repeat_cons.
Qed.

(** [String] of a whole number [m * 10^e] that has at most 21 digits: the
    digits of [m], then [e] zeros. *)
Lemma ToString_whole m e :
  (0 < m)%Z -> (0 <= e)%Z ->
  (Z.of_nat (length (decimal (Z.to_N m))) + e <= 21)%Z ->
  ToString (Fin m e) = decimal (Z.to_N m) ++ repeat 48 (Z.to_nat e).
Proof.
  intros Hm He Hlen. unfold ToString.
  replace (is_zero m) with false by (symmetry; apply Z.eqb_neq; lia).
  replace (negative m) with false by (symmetry; apply Z.ltb_ge; lia).
  rewrite Z.abs_eq by lia.
  pose proof (significant_spec (decimal (Z.to_N m))) as Hs.
  destruct (significant (decimal (Z.to_N m))) as [s cut]. cbn [fst snd] in Hs.
  rewrite <- Hs in Hlen |- *. rewrite length_app, repeat_length in Hlen.
  cbn [app].
  replace (_ <=? _)%Z with true by (symmetry; apply Z.leb_le; lia).
  replace (_ <=? 21)%Z with true by (symmetry; apply Z.leb_le; lia).
  cbn [andb].
  replace (Z.to_nat _) with (cut + Z.to_nat e)%nat by lia.
  by rewrite repeat_app, app_assoc.
Qed.

(** An exact whole number, written with digits that do not start with a
    zero and a power of ten, prints as the digits followed by as many
    zeros. *)
Lemma ToString_digits ds k :
  digit_run ds -> hd 48 ds <> 48 ->
  exact (Fin (Z.of_N (decimal_value ds)) (Z.of_N k)) ->
  ToString (Fin (Z.of_N (decimal_value ds)) (Z.of_N k))
  = ds ++ repeat 48 (N.to_nat k).
Proof.
  intros [Hne Hds] Hhd [_ Hexact].
  destruct ds as [|c ds]; [done|]. cbn [hd] in Hhd.
  pose proof Hds as Hc. cbn [forallb] in Hc.
  apply andb_true_iff in Hc as [Hc%is_digit_range _].
  pose proof (decimal_value_lower ds (c - 48)) as Hlow.
  change (fold_left _ ds (c - 48)) with (decimal_value (c :: ds)) in Hlow.
  assert (Hpow : 10 ^ (N.of_nat (length ds) + k) < 10 ^ 16).
  { rewrite N.pow_add_r.
    assert (H1 : 10 ^ N.of_nat (length ds) <= decimal_value (c :: ds)).
    { etrans; [|exact Hlow].
      rewrite <- (N.mul_1_l (10 ^ N.of_nat (length ds))) at 1.
      apply N.mul_le_mono_r. lia. }
    assert (H2 : decimal_value (c :: ds) * 10 ^ k < 2 ^ 53).
    { rewrite Z.abs_eq in Hexact by lia.
      apply N2Z.inj_lt. rewrite N2Z.inj_mul, N2Z.inj_pow. exact Hexact. }
    assert (H3 : 0 < 10 ^ k) by (apply N.neq_0_lt_0, N.pow_nonzero; lia).
    change (2 ^ 53) with 9007199254740992 in H2.
    change (10 ^ 16) with 10000000000000000. nia. }
  apply N.pow_lt_mono_r_iff in Hpow; [|lia].
  assert (Hpos : 0 < decimal_value (c :: ds)).
  { eapply N.lt_le_trans; [|exact Hlow].
    apply N.mul_pos_pos; [lia|]. apply N.neq_0_lt_0, N.pow_nonzero. lia. }
  assert (Hc48 : c <> 48) by done.
  rewrite ToString_whole.
  - rewrite N2Z.id, decimal_of_digits by done.
    by rewrite <- Z_N_nat, N2Z.id.
  - lia.
  - lia.
  - rewrite N2Z.id, decimal_of_digits by done. cbn [length]. lia.
Qed.

(** C4, as the code has it.  [normaliseTimestamp] splits its trimmed input
    at every colon and dot and converts each group with [Number].
    - On one to three runs of decimal digits (each of a value below 2^53,
      where a Number is exact) it reads them from the right as seconds,
      minutes and hours, answers [null] when minutes or seconds exceed 59,
      and otherwise prints the three fields, minutes and seconds with two
      digits and the hours as [String] prints them, padded to two digits
      (two digits exactly below 100).
    - On any input it answers [null] when [Number] of a group is [NaN], as
      it is for every group with a code unit that no numeric literal is
      written with, and when there are more than three groups.
    - When the groups convert to exact numbers (whole numbers below 2^53 in
      magnitude, or an infinity), read from the right as seconds, minutes
      and hours, it answers [null] when seconds or minutes are outside 0..59
      or the hours are negative, and otherwise the three numbers as
      [String] prints them, each padded to two digits and joined by colons.
    - A group written as a numeric literal, white space around it or not,
      converts to the number it denotes when that number is exact: 0 for a
      blank group; a run of digits, with or without an exponent ([e] or
      [E], an optional [+], digits) and with or without a sign; [Infinity],
      with or without a sign; [0x], [0o] or [0b] and digits of that radix.
    - Exact whole numbers compare with 0 and 59 as integers do, the
      negative infinity is below 0 and the positive one above 59.  In print,
      padded to two characters, a whole number from 0 to 99 is its two
      digits, an exact whole number that is digits without a leading zero
      times a power of ten is those digits followed by as many zeros, and
      the positive infinity is [Infinity]: so the answer need not be of the
      form HH:MM:SS.
    - The five examples of the claim hold, a mixed one prints [31:05:10]
      and an empty leading group counts as 0. *)
Theorem normaliseTimestamp_spec :
  (forall g more,
      separators more -> Forall digit_run (g :: map snd more) ->
      Forall (fun v => v < 2 ^ 53) (map decimal_value (g :: map snd more)) ->
      normaliseTimestamp (join g more) =
        fields_of (map decimal_value (g :: map snd more)) ≫= print_fields)
  /\ (forall h, h < 100 -> pad (of_Z (Z.of_N h)) = two_digits h)
  /\ (forall raw g,
         In g (split colon_or_dot (trim raw)) -> isNaN (Number g) = true ->
         normaliseTimestamp raw = None)
  /\ (forall g c, In c g -> literal_char c = false -> Number g = NaN)
  /\ (forall raw,
         (3 < length (split colon_or_dot (trim raw)))%nat ->
         normaliseTimestamp raw = None)
  /\ (forall raw hours minutes seconds,
         number_fields (map Number (split colon_or_dot (trim raw)))
           = Some (hours, minutes, seconds) ->
         exact hours -> exact minutes -> exact seconds ->
         normaliseTimestamp raw =
           if lt seconds (of_Z 0) || gt seconds (of_Z 59)
              || lt minutes (of_Z 0) || gt minutes (of_Z 59)
              || lt hours (of_Z 0)
           then None
           else Some (pad hours ++ lit ":" ++ pad minutes ++ lit ":" ++ pad seconds))
  /\ (forall a g b x,
         forallb is_space a = true -> forallb is_space b = true ->
         denotes g x -> exact x -> Number (a ++ g ++ b) = x)
  /\ (forall x z,
         whole x z -> exact x ->
         lt x (of_Z 0) = (z <? 0)%Z /\ gt x (of_Z 59) = (59 <? z)%Z)
  /\ (forall below,
         lt (Inf below) (of_Z 0) = below /\ gt (Inf below) (of_Z 59) = negb below)
  /\ (forall x z,
         whole x z -> (0 <= z < 100)%Z -> pad x = two_digits (Z.to_N z))
  /\ (forall ds k,
         digit_run ds -> hd 48 ds <> 48 ->
         exact (Fin (Z.of_N (decimal_value ds)) (Z.of_N k)) ->
         pad (Fin (Z.of_N (decimal_value ds)) (Z.of_N k))
         = padStart2 (ds ++ repeat 48 (N.to_nat k)))
  /\ pad (Inf false) = lit "Infinity"
  /\ normaliseTimestamp (lit "20.50") = Some (lit "00:20:50")
  /\ normaliseTimestamp (lit "1:02:15") = Some (lit "01:02:15")
  /\ normaliseTimestamp (lit "5") = Some (lit "00:00:05")
  /\ normaliseTimestamp (lit "60:00") = None
  /\ normaliseTimestamp (lit "1:2:3:4") = None
  /\ normaliseTimestamp (lit "0x1F:+5:1e1") = Some (lit "31:05:10")
  /\ normaliseTimestamp (lit ":5") = Some (lit "00:00:05").
Proof.
  split; [intros g more Hs Hg _; by apply normaliseTimestamp_digits|].
  split; [exact pad_two_digits|].
  split; [exact normaliseTimestamp_NaN|].
  split; [exact Number_NaN|].
  split; [exact normaliseTimestamp_too_many|].
  split; [exact normaliseTimestamp_exact|].
  split.
  { intros a g b x Ha Hb Hg _. rewrite Number_spaces by done.
    by apply Number_denotes. }
  split; [intros x z Hx _; split; [by apply lt_whole|by apply gt_whole]|].
  split; [intros below; split; by destruct below|].
  split; [exact pad_whole|].
  split; [intros ds k Hds Hhd Hx; unfold pad; by rewrite ToString_digits|].
  repeat split; vm_compute; reflexivity.
Qed.

(** C4, as the claim has it, fails on [Infinity:0:0]: its three groups are
    numbers, minutes and seconds are 0 and the hours are not negative, yet
    the answer is neither [null] nor a string of the form HH:MM:SS. *)
Lemma normaliseTimestamp_Infinity :
  map Number (split colon_or_dot (trim (lit "Infinity:0:0")))
    = [Inf false; of_Z 0; of_Z 0]
  /\ lt (Inf false) (of_Z 0) = false
  /\ normaliseTimestamp (lit "Infinity:0:0") = Some (lit "Infinity:00:00")
  /\ is_HH_MM_SS (lit "Infinity:00:00") = false.
Proof. repeat split; vm_compute; reflexivity. Qed.

(** ** [extractTimestamps] *)

(** *** The candidate that is matched is the longest *)

Definition digits12 : regex := Quant (Chars is_digit) 1 (Some 2%nat).
Definition group12 : regex := Seq (Chars colon_or_dot) digits12.

Lemma compile_digits12 y c :
  compile digits12 y c =
    match y with
    | a :: y' =>
        if is_digit a then
          match (match y' with
                 | b :: r => if is_digit b then c r else None
                 | [] => None
                 end) with
          | Some z => Some z
          | None => c y'
          end
        else None
    | [] => None
    end.
Proof.
  destruct y as [|a [|b r]]; [done| |].
  - cbn. by destruct (is_digit a).
  - cbn. destruct (is_digit a); [|done]. destruct (is_digit b); [|done].
    by rewrite (proj2 (Nat.eqb_neq (length r) (S (length r)))) by lia.
Qed.

Lemma behind_digits_shorter y y1 :
  behind_digits y = Some y1 -> (length y1 < length y)%nat.
Proof.
  destruct y as [|a [|b r]]; cbn; [done| |];
    repeat case_match; intros [= <-]; simpl; lia.
Qed.

Lemma behind_group_shorter y y1 :
  behind_group y = Some y1 -> (length y1 < length y)%nat.
Proof.
  destruct y as [|s y]; cbn; [done|]. destruct (colon_or_dot s); [|done].
  intros H%behind_digits_shorter. lia.
Qed.

(** With a continuation that takes what the greedy choice leaves, the
    greedy choice is the answer. *)
Lemma digits12_greedy y c :
  compile digits12 y c =
    match behind_digits y with
    | Some y1 => match c y1 with
                 | Some z => Some z
                 | None => compile digits12 y c
                 end
    | None => None
    end.
Proof.
  rewrite compile_digits12. destruct y as [|a [|b r]]; cbn; [done| |].
  - destruct (is_digit a); [|done]. by destruct (c []).
  - destruct (is_digit a); [|done]. destruct (is_digit b).
    + by destruct (c r).
    + by destruct (c (b :: r)).
Qed.

Lemma group12_greedy y c :
  compile group12 y c =
    match behind_group y with
    | Some y1 => match c y1 with
                 | Some z => Some z
                 | None => compile group12 y c
                 end
    | None => None
    end.
Proof.
  change (compile group12 y c) with
    (match y with
     | s :: y' => if colon_or_dot s then compile digits12 y' c else None
     | [] => None
     end).
  destruct y as [|s y']; [done|]. cbn [behind_group].
  destruct (colon_or_dot s); [|done]. apply digits12_greedy.
Qed.

Lemma compile_groups y :
  compile (Quant group12 1 (Some 2%nat)) y Some =
    match behind_group y with
    | Some y1 => Some (default y1 (behind_group y1))
    | None => None
    end.
Proof.
  destruct y as [|s y']; [done|].
  change (compile (Quant group12 1 (Some 2%nat)) (s :: y') Some) with
    (compile group12 (s :: y') (fun y1 =>
       match compile group12 y1 (fun y2 =>
               if Nat.eqb (length y2) (length y1) then None else Some y2) with
       | Some z => Some z
       | None => Some y1
       end)).
  rewrite group12_greedy.
  destruct (behind_group (s :: y')) as [y1|]; [|done].
  rewrite (group12_greedy y1).
  destruct (behind_group y1) as [y2|] eqn:H2; [|done].
  apply behind_group_shorter in H2.
  by rewrite (proj2 (Nat.eqb_neq (length y2) (length y1))) by lia.
Qed.

Lemma compile_tsPattern x :
  compile tsPattern x Some = behind_candidate x.
Proof.
  change (compile tsPattern x Some) with
    (compile digits12 x (fun y => compile (Quant group12 1 (Some 2%nat)) y Some)).
  rewrite compile_digits12. unfold behind_candidate.
  destruct x as [|a [|b r]]; cbn [behind_digits]; [done| |].
  - by destruct (is_digit a).
  - destruct (is_digit a); [|done].
    destruct (is_digit b) eqn:Hb.
    + rewrite !compile_groups. cbn [behind_group].
      rewrite (digit_not_sep b Hb).
      destruct (behind_group r) as [y1|]; [|done]. by destruct (behind_group y1).
    + rewrite compile_groups.
      destruct (behind_group (b :: r)) as [y1|]; [|done]. by destruct (behind_group y1).
Qed.

Lemma sep_not_digit s : colon_or_dot s = true -> is_digit s = false.
Proof.
  intros Hs. destruct (is_digit s) eqn:Hd; [|done].
  by rewrite (digit_not_sep s Hd) in Hs.
Qed.

Lemma behind_candidate_longest m' rest' rest :
  candidate m' -> behind_candidate (m' ++ rest') = Some rest ->
  (length rest <= length rest')%nat.
Proof.
  intros (g & more & -> & [Hmin Hmax] & Hs & Hd) H.
  assert (Hgroup : forall g, digit_group g ->
            exists a, is_digit a = true /\
              (g = [a] \/ exists b, is_digit b = true /\ g = [a; b])).
  { intros [|a [|b [|c g']]] [Hl Hg]; simpl in *; try lia.
    - apply andb_true_iff in Hg as [? _]. eauto.
    - apply andb_true_iff in Hg as [? Hg]. apply andb_true_iff in Hg as [? _].
      eauto 10. }
  apply Forall_cons in Hd as [Hg Hd].
  destruct more as [|[s1 g1] [|[s2 g2] [|? ?]]]; simpl in Hmin, Hmax; try lia;
    repeat match goal with
           | Hf : Forall _ (map _ (_ :: _)) |- _ => cbn [map snd] in Hf
           | Hf : Forall _ (_ :: _) |- _ => apply Forall_cons in Hf as [? Hf]
           | Hf : separators (_ :: _) |- _ => apply Forall_cons in Hf as [? Hf]
           end; cbn [fst] in *;
    repeat match goal with
           | Hg : digit_group _ |- _ =>
               apply Hgroup in Hg as (? & ? & [->|(? & ? & ->)])
           end;
    unfold join, behind_candidate, behind_group, behind_digits in H;
    cbn [map concat app fst snd] in H;
    repeat (progress (cbn beta iota in H;
      repeat match goal with
             | Hx : is_digit ?c = true |- _ =>
                 progress (rewrite ?Hx, ?(digit_not_sep c Hx) in H)
             | Hx : colon_or_dot ?c = true |- _ =>
                 progress (rewrite ?Hx, ?(sep_not_digit c Hx) in H)
             end));
    repeat case_match; simplify_eq; simpl; try lia.
Qed.

Lemma match_here_longest m rest :
  match_here tsPattern (m ++ rest) = Some (m, rest) -> longest tsPattern m rest.
Proof.
  unfold match_here. rewrite compile_tsPattern.
  destruct (behind_candidate (m ++ rest)) as [rest0|] eqn:Hb; [|discriminate].
  intros [= Hm ->] m' rest' Heq Hm'. rewrite Heq in Hb.
  apply matches_tsPattern in Hm'.
  pose proof (behind_candidate_longest m' rest' rest Hm' Hb) as Hl.
  apply (f_equal length) in Heq. rewrite !length_app in Heq. lia.
Qed.

Lemma scan_pick r (pick pick' : str -> str -> Prop) x ms :
  (forall m rest, pick m rest -> pick' m rest) ->
  scan r pick x ms -> scan r pick' x ms.
Proof. intros Hp. induction 1; constructor; auto. Qed.

Lemma match_g_tsPattern text :
  exists candidates,
    scan tsPattern (longest tsPattern) text candidates /\
    Forall candidate candidates /\
    match_g tsPattern text =
      match candidates with [] => None | _ => Some candidates end.
Proof.
  exists (match_loop tsPattern O text).
  assert (Hscan : scan tsPattern (longest tsPattern) text
                    (match_loop tsPattern O text)).
  { eapply scan_pick; [apply match_here_longest|].
    apply match_loop_scan; [done|].
    intros m Hm. by apply candidate_not_empty, matches_tsPattern. }
  split; [done|]. split; [|unfold match_g; by destruct (match_loop _ _ _)].
  induction Hscan; constructor; auto. by apply matches_tsPattern.
Qed.

Lemma print_fields_canonical h m s r :
  h < 100 -> print_fields (h, m, s) = Some r ->
  m <= 59 /\ s <= 59 /\ r = canonical h m s.
Proof.
  intros Hh. unfold print_fields.
  destruct (N.leb_spec m 59), (N.leb_spec s 59); try discriminate.
  cbn [andb]. intros [= <-]. by rewrite pad_two_digits.
Qed.

Lemma candidate_normalised w r :
  candidate w -> normaliseTimestamp w = Some r ->
  exists h m s, h < 100 /\ m <= 59 /\ s <= 59 /\ r = canonical h m s.
Proof.
  intros (g & more & -> & Hl & Hs & Hd) H.
  assert (Hruns : Forall digit_run (g :: map snd more)).
  { eapply Forall_impl; [exact Hd|]. apply digit_group_run. }
  rewrite normaliseTimestamp_digits in H by done.
  assert (Hsmall : Forall (fun v => v < 100) (map decimal_value (g :: map snd more))).
  { apply Forall_map. eapply Forall_impl; [exact Hd|].
    intros [|a [|b [|c]]] [Hlen Hdig]; simpl in *; try lia.
    - unfold decimal_value. simpl. apply andb_true_iff in Hdig as [Ha%is_digit_range _]. lia.
    - apply andb_true_iff in Hdig as [Ha Hdig]. apply andb_true_iff in Hdig as [Hb _].
      by apply two_digits_of. }
  revert H Hsmall. generalize (map decimal_value (g :: map snd more)).
  intros [|v0 [|v1 [|v2 [|v3 vs]]]] H Hv;
    cbn [fields_of mbind option_bind] in H; try discriminate H;
    repeat match goal with
           | Hf : Forall _ (_ :: _) |- _ => apply Forall_cons in Hf as [? Hf]
           end;
    apply print_fields_canonical in H as (? & ? & ->); try lia.
  - exists 0, 0, v0. repeat split; auto; lia.
  - exists 0, v0, v1. repeat split; auto; lia.
  - exists v0, v1, v2. repeat split; auto; lia.
Qed.

(** The scan of the pattern is the scan for candidates. *)
Lemma scan_candidates x ms :
  scan tsPattern (longest tsPattern) x ms -> candidates_of x ms.
Proof.
  assert (Hat : forall y i, candidate_at y i <-> match_at tsPattern y i).
  { intros y i. unfold candidate_at, match_at.
    split; intros (m & rest & Hd & Hm); exists m, rest;
      (split; [done|]); by apply matches_tsPattern. }
  induction 1 as [x Hnone|pre m rest ms Hm Hne Hfirst Hlong _ IH].
  - apply candidates_none. intros i Hi%Hat. by apply (Hnone i).
  - apply candidates_next; [by apply matches_tsPattern| | |done].
    + intros i Hi Hc%Hat. by apply (Hfirst i).
    + intros m' rest' Heq Hm'. apply (Hlong m' rest' Heq).
      by apply matches_tsPattern.
Qed.

(** A text has one list of candidates. *)
Lemma candidates_of_unique x ms :
  candidates_of x ms -> forall ms', candidates_of x ms' -> ms = ms'.
Proof.
  induction 1 as [x Hnone|pre m rest ms Hm Hfirst Hlong _ IH];
    intros ms' H'.
  - inversion H' as [|pre' m' rest' ms1 Hm' _ _ _ Hx]; [done|]. subst.
    exfalso. apply (Hnone (length pre')). exists m', rest'.
    by rewrite drop_app_length.
  - inversion H' as [x Hnone Hx|pre' m' rest' ms1 Hm' Hfirst' Hlong' Hrest' Hx].
    + subst. exfalso. apply (Hnone (length pre)). exists m, rest.
      by rewrite drop_app_length.
    + assert (Hlen : length pre = length pre').
      { destruct (Nat.lt_trichotomy (length pre) (length pre')) as [Hlt|[Heq|Hgt]];
          [|done|]; exfalso.
        - rewrite Hx in Hfirst'. apply (Hfirst' (length pre) Hlt).
          exists m, rest. by rewrite drop_app_length.
        - apply (Hfirst (length pre') Hgt). rewrite <- Hx.
          exists m', rest'. by rewrite drop_app_length. }
      apply app_inj_1 in Hx as [-> Hx]; [|done].
      assert (Hm_len : length m = length m').
      { apply Nat.le_antisymm; [apply (Hlong' m rest)|apply (Hlong m' rest')];
          done. }
      apply app_inj_1 in Hx as [-> ->]; [|done].
      f_equal. by apply IH.
Qed.

(** C5. [extractTimestamps] scans the text from left to right for the
    candidate timestamps (one or two digits, then one or two further groups
    of one or two digits, each behind a colon or a dot; at each place the
    longest one), normalises the first two and returns them as start and
    end; with fewer than two candidates, or
    when one of the two does not normalise, it returns [null], never a part.
    Every text has its list of candidates, and one only.  The two examples
    of the claim hold. *)
Theorem extractTimestamps_spec :
  (forall text, exists candidates, candidates_of text candidates)
  /\ (forall text candidates,
        candidates_of text candidates ->
        extractTimestamps text =
          match candidates with
          | c0 :: c1 :: _ =>
              match normaliseTimestamp c0, normaliseTimestamp c1 with
              | Some s, Some e => Some {| startTime := s; endTime := e |}
              | _, _ => None
              end
          | _ => None
          end)
  /\ extractTimestamps (lit "from 1:20 to 2:45")
       = Some {| startTime := lit "00:01:20"; endTime := lit "00:02:45" |}
  /\ extractTimestamps (lit "only one 1:20 here") = None.
Proof.
  split; [|split; [|split; vm_compute; reflexivity]].
  { intros text. destruct (match_g_tsPattern text) as (cs & Hscan & _).
    exists cs. by apply scan_candidates. }
  intros text candidates Hcs.
  destruct (match_g_tsPattern text) as (cs & Hscan & Hc & Hg).
  apply scan_candidates in Hscan.
  rewrite (candidates_of_unique _ _ Hcs _ Hscan).
  unfold extractTimestamps. rewrite Hg.
  destruct cs as [|c0 [|c1 cs]]; try done.
  apply Forall_cons in Hc as [Hc0 Hc]. apply Forall_cons in Hc as [Hc1 _].
  destruct (normaliseTimestamp c0) as [s|] eqn:H0; [|done].
  destruct (normaliseTimestamp c1) as [e|] eqn:H1; [|done].
  destruct (candidate_normalised _ _ Hc0 H0) as (? & ? & ? & _ & _ & _ & ->).
  destruct (candidate_normalised _ _ Hc1 H1) as (? & ? & ? & _ & _ & _ & ->).
  done.
Qed.

(* ------------------------------------------------------------------ *)
(** ** Programs *)
(* ------------------------------------------------------------------ *)

Lemma bind_run {A B} (m : M A) (f : A -> M B) w :
  (m ≫= f) w = match m w with
               | (Return a, w') => f a w'
               | (Throw e, w') => (Throw e, w')
               end.
Proof. done. Qed.

Lemma keeps_ret {A} (a : A) : keeps_pending (mret a : M A).
Proof. done. Qed.

Lemma keeps_throw {A} e : keeps_pending (throw e : M A).
Proof. done. Qed.

Lemma keeps_bind {A B} (m : M A) (f : A -> M B) :
  keeps_pending m -> (forall a, keeps_pending (f a)) -> keeps_pending (m ≫= f).
Proof.
  intros Hm Hf w. rewrite bind_run. specialize (Hm w).
  destruct (m w) as [[a|e] w']; simpl in *; [|done].
  by rewrite Hf.
Qed.

Lemma keeps_try_catch {A} (m : M A) h :
  keeps_pending m -> (forall e, keeps_pending (h e)) -> keeps_pending (try_catch m h).
Proof.
  intros Hm Hh w. unfold try_catch. specialize (Hm w).
  destruct (m w) as [[a|e] w']; simpl in *; [done|].
  by rewrite Hh.
Qed.

Lemma keeps_try_finally {A} (m : M A) c :
  keeps_pending m -> keeps_pending c -> keeps_pending (try_finally m c).
Proof.
  intros Hm Hc w. unfold try_finally. specialize (Hm w).
  destruct (m w) as [r w']. specialize (Hc w').
  destruct (c w') as [[[]|e] w'']; simpl in *; congruence.
Qed.

Lemma keeps_for_of {A} (l : list A) body :
  (forall a, keeps_pending (body a)) -> keeps_pending (for_of l body).
Proof.
  intros Hb. induction l as [|a l IH]; simpl; [apply keeps_ret|].
  apply keeps_bind; auto.
Qed.

Section Keeps.
Variable env : environment.

Lemma keeps_bot c : keeps_pending (bot env c).
Proof. intros w. unfold bot. by destruct (telegram env c w). Qed.

Lemma keeps_existsSync f : keeps_pending (existsSync f).
Proof. done. Qed.

Lemma keeps_statSync f : keeps_pending (statSync env f).
Proof. intros w. unfold statSync. by destruct (tmp_dir w !! f). Qed.

Lemma keeps_unlinkSync f : keeps_pending (fs_unlinkSync env f).
Proof.
  intros w. unfold fs_unlinkSync.
  destruct (tmp_dir w !! f); [|done]. by destruct (unlink_error env f w).
Qed.

Lemma keeps_readdirSync : keeps_pending (fs_readdirSync env).
Proof. intros w. unfold fs_readdirSync. by destruct (readdir_error env w). Qed.

Lemma keeps_runCommand cmd args : keeps_pending (runCommand env cmd args).
Proof.
  intros w. unfold runCommand.
  destruct (tool env cmd args w) as [[out|err msg] dir]; done.
Qed.

Lemma keeps_updateStatus chatId statusMsgId text :
  keeps_pending (updateStatus env chatId statusMsgId text).
Proof.
  apply keeps_try_catch; [|intros; apply keeps_ret].
  apply keeps_bind; [apply keeps_bot|intros; apply keeps_ret].
Qed.

Lemma keeps_cleanupFile f : keeps_pending (cleanupFile env f).
Proof.
  apply keeps_try_catch; [|intros; apply keeps_ret].
  apply keeps_bind; [apply keeps_existsSync|].
  intros []; [apply keeps_unlinkSync|apply keeps_ret].
Qed.

Lemma keeps_cleanupGlob pattern : keeps_pending (cleanupGlob env pattern).
Proof.
  apply keeps_try_catch; [|intros; apply keeps_ret].
  apply keeps_bind; [apply keeps_readdirSync|].
  intros files. apply keeps_for_of. intros file.
  destruct (startsWith _ _); [apply keeps_cleanupFile|apply keeps_ret].
Qed.

Lemma keeps_first_existing l : keeps_pending (first_existing l).
Proof.
  induction l as [|c l IH]; [apply keeps_ret|].
  apply keeps_bind; [apply keeps_existsSync|].
  intros []; [apply keeps_ret|done].
Qed.

Lemma keeps_processClip chatId url startTime endTime mode_ statusMsgId :
  keeps_pending (processClip env chatId url startTime endTime mode_ statusMsgId).
Proof.
  intros w. unfold processClip.
  apply keeps_try_finally.
  - apply keeps_try_catch; [|intros; apply keeps_updateStatus].
    apply keeps_bind.
    + apply keeps_bind; [apply keeps_updateStatus|]. intros _.
      apply keeps_bind; [apply keeps_runCommand|]. intros _.
      apply keeps_bind.
      { apply keeps_bind; [apply keeps_existsSync|].
        intros []; [apply keeps_ret|apply keeps_first_existing]. }
      intros [actual|]; [|apply keeps_throw].
      apply keeps_bind; [apply keeps_updateStatus|]. intros _.
      apply keeps_bind; [apply keeps_runCommand|]. intros _. apply keeps_ret.
    + intros _. apply keeps_bind; [apply keeps_statSync|]. intros size.
      destruct (_ <? _); [apply keeps_updateStatus|].
      destruct (_ =? _); [apply keeps_throw|].
      apply keeps_bind; [apply keeps_updateStatus|]. intros _.
      apply keeps_bind; [|intros; apply keeps_updateStatus].
      destruct (isAudio mode_); apply keeps_bot.
  - apply keeps_bind; [apply keeps_cleanupFile|]. intros _.
    apply keeps_bind; [apply keeps_cleanupFile|]. intros _.
    apply keeps_cleanupGlob.
Qed.

End Keeps.

(* ------------------------------------------------------------------ *)
(** ** 7b. Format selection *)
(* ------------------------------------------------------------------ *)

Section Selection.
Variable env : environment.
Variable query : callback_query.
Variable w : world.

Let chatId := query_chat_id query.
Let ack := answerCallbackQuery (query_id query).

(** The query cannot be answered: the handler stops there. *)
Lemma callback_not_answered e :
  telegram env ack w = inl e ->
  on_callback_query env query w = (Throw e, record ack w).
Proof.
  intros Hack. unfold on_callback_query. rewrite bind_run.
  unfold bot. fold ack. by rewrite Hack.
Qed.

(** No pending request: the selection is refused. *)
Lemma callback_refused id :
  telegram env ack w = inr id ->
  pendingRequests w !! chatId = None ->
  exists r,
    on_callback_query env query w =
      (r, record (sendMessage chatId reply_no_pending no_options) (record ack w)).
Proof.
  intros Hack Hnone. unfold on_callback_query. rewrite bind_run.
  unfold bot at 1. fold ack. rewrite Hack.
  rewrite bind_run. unfold lookup_pending. cbn [pendingRequests record].
  fold chatId. rewrite Hnone. rewrite bind_run. unfold bot.
  destruct (telegram env (sendMessage _ _ _) _); eexists; reflexivity.
Qed.

(** A pending request and an unknown callback: nothing but the answer. *)
Lemma callback_unknown id request :
  telegram env ack w = inr id ->
  pendingRequests w !! chatId = Some request ->
  selected_mode (query_data query) = None ->
  on_callback_query env query w = (Return tt, record ack w).
Proof.
  intros Hack Hsome Hmode. unfold on_callback_query. rewrite bind_run.
  unfold bot at 1. fold ack. rewrite Hack.
  rewrite bind_run. unfold lookup_pending. cbn [pendingRequests record].
  fold chatId. rewrite Hsome, Hmode. done.
Qed.

(** A pending request and a format: the request is consumed, then the
    status message is sent and the pipeline runs. *)
Lemma callback_selected id request mode_ :
  telegram env ack w = inr id ->
  pendingRequests w !! chatId = Some request ->
  selected_mode (query_data query) = Some mode_ ->
  on_callback_query env query w =
    (bot env (sendMessage chatId status_processing no_options) ≫= fun statusMsgId =>
     processClip env chatId (Pending.url request) (Pending.startTime request)
                 (Pending.endTime request) mode_ statusMsgId)
      (consumed query w).
Proof.
  intros Hack Hsome Hmode. unfold on_callback_query. rewrite bind_run.
  unfold bot at 1. fold ack. rewrite Hack.
  rewrite bind_run. unfold lookup_pending. cbn [pendingRequests record].
  fold chatId. rewrite Hsome, Hmode.
  rewrite bind_run. unfold remove. cbn [pendingRequests tmp_dir calls record].
  rewrite bind_run. unfold try_catch. rewrite bind_run. unfold bot at 1.
  unfold consumed. fold chatId.
  destruct (telegram env (editMessageReplyMarkup _ _ _) _);
    unfold record; cbn [pendingRequests tmp_dir calls mret M_ret];
    rewrite <- app_assoc; reflexivity.
Qed.

(** Whatever the handler does, an entry of the store is left or deleted. *)
Lemma callback_store :
  pendingRequests (on_callback_query env query w).2 = pendingRequests w \/
  pendingRequests (on_callback_query env query w).2
    = delete chatId (pendingRequests w).
Proof.
  destruct (telegram env ack w) as [e|id] eqn:Hack.
  { left. by rewrite (callback_not_answered e). }
  destruct (pendingRequests w !! chatId) as [request|] eqn:Hreq.
  2:{ left. destruct (callback_refused id Hack Hreq) as [r ->]. done. }
  destruct (selected_mode (query_data query)) as [mode_|] eqn:Hmode.
  2:{ left. by rewrite (callback_unknown id request). }
  right. rewrite (callback_selected id request mode_) by done.
  rewrite bind_run.
  pose proof (keeps_bot env (sendMessage chatId status_processing no_options)
                (consumed query w)) as Hsend.
  destruct (bot env _ (consumed query w)) as [[statusMsgId|e] w1]; simpl in *.
  - by rewrite keeps_processClip.
  - done.
Qed.

End Selection.

(** C10. A callback whose data is neither [format_audio] nor
    [format_video], for a chat with a pending request, is answered and then
    ignored: the only call is the answer, the store and the files are as
    before, and a later format choice of the chat still finds the request
    and starts the pipeline with it. *)
Theorem unknown_callback_ignored env query w id request :
  telegram env (answerCallbackQuery (query_id query)) w = inr id ->
  pendingRequests w !! query_chat_id query = Some request ->
  query_data query <> Some (lit "format_audio") ->
  query_data query <> Some (lit "format_video") ->
  let w' := record (answerCallbackQuery (query_id query)) w in
  on_callback_query env query w = (Return tt, w')
  /\ pendingRequests w' = pendingRequests w
  /\ tmp_dir w' = tmp_dir w
  /\ calls w' = calls w ++ [answerCallbackQuery (query_id query)]
  /\ forall env' query' id' mode_,
       query_chat_id query' = query_chat_id query ->
       telegram env' (answerCallbackQuery (query_id query')) w' = inr id' ->
       selected_mode (query_data query') = Some mode_ ->
       on_callback_query env' query' w' =
         (bot env' (sendMessage (query_chat_id query) status_processing no_options)
            ≫= fun statusMsgId =>
          processClip env' (query_chat_id query) (Pending.url request)
                      (Pending.startTime request) (Pending.endTime request)
                      mode_ statusMsgId)
           (consumed query' w').
Proof.
  intros Hack Hreq Ha Hv w'.
  assert (Hmode : selected_mode (query_data query) = None).
  { unfold selected_mode. by rewrite !bool_decide_eq_false_2. }
  split; [by apply (callback_unknown env query w id request)|].
  repeat split.
  intros env' query' id' mode_ Hchat Hack' Hmode'.
  rewrite <- Hchat. apply (callback_selected env' query' w' id'); auto.
  by rewrite Hchat.
Qed.

Lemma unknown_callback_ignored_witness :
  on_callback_query (obliging 500) (choice "format_gif") waiting_world
    = (Return tt, record (answerCallbackQuery (lit "q1")) waiting_world).
Proof.
  apply (unknown_callback_ignored (obliging 500) (choice "format_gif")
           waiting_world 0%Z sample_request);
    [reflexivity | reflexivity | discriminate | discriminate].
Defined.

(* ------------------------------------------------------------------ *)
(** ** 7a. Text messages *)
(* ------------------------------------------------------------------ *)

Lemma toSeconds_canonical h m s :
  h < 100 -> m < 100 -> s < 100 ->
  toSeconds (canonical h m s) = of_Z (Z.of_N (h * 3600 + m * 60 + s)).
Proof.
  intros Hh Hm Hs. unfold toSeconds, canonical.
  change (lit ":") with [58]. cbn [app].
  rewrite (split_app _ (two_digits h) 58)
    by (done || apply digits_no_colon, two_digits_are_digits; done).
  rewrite (split_app _ (two_digits m) 58)
    by (done || apply digits_no_colon, two_digits_are_digits; done).
  rewrite split_no_sep by (apply digits_no_colon, two_digits_are_digits; done).
  cbn [map nth]. rewrite !Number_digits
    by (done || apply two_digits_are_digits; done).
  rewrite !decimal_value_two_digits by done.
  rewrite !mul_of_Z, !add_of_Z. f_equal. lia.
Qed.

Lemma extractTimestamps_canonical text ts :
  extractTimestamps text = Some ts ->
  exists h m s h' m' s',
    (h < 100 /\ m <= 59 /\ s <= 59) /\ (h' < 100 /\ m' <= 59 /\ s' <= 59) /\
    ts = {| startTime := canonical h m s; endTime := canonical h' m' s' |}.
Proof.
  intros H. destruct (match_g_tsPattern text) as (cs & _ & Hc & Hg).
  unfold extractTimestamps in H. rewrite Hg in H.
  destruct cs as [|c0 [|c1 cs]]; try discriminate H.
  apply Forall_cons in Hc as [Hc0 Hc]. apply Forall_cons in Hc as [Hc1 _].
  destruct (normaliseTimestamp c0) as [a|] eqn:H0; [|discriminate H].
  destruct (normaliseTimestamp c1) as [b|] eqn:H1; [|discriminate H].
  destruct (candidate_normalised _ _ Hc0 H0) as (h & m & s & ? & ? & ? & ->).
  destruct (candidate_normalised _ _ Hc1 H1) as (h' & m' & s' & ? & ? & ? & ->).
  simpl in H. injection H as <-. exists h, m, s, h', m', s'. done.
Qed.

(** On what [extractTimestamps] returns, [>=] and [<] on the seconds are
    each the negation of the other. *)
Lemma extracted_order text ts :
  extractTimestamps text = Some ts ->
  lt (toSeconds (startTime ts)) (toSeconds (endTime ts))
    = negb (ge (toSeconds (startTime ts)) (toSeconds (endTime ts))).
Proof.
  intros (h & m & s & h' & m' & s' & (? & ? & ?) & (? & ? & ?) & ->)
    %extractTimestamps_canonical.
  cbn [startTime endTime]. rewrite !toSeconds_canonical by lia.
  rewrite lt_of_Z, ge_of_Z. rewrite Z.leb_antisym. by rewrite negb_involutive.
Qed.

Lemma well_formed_youtube_regex : well_formed youtube_regex = true.
Proof. reflexivity. Qed.

Lemma extractYouTubeUrl_not_empty text : extractYouTubeUrl text <> Some [].
Proof.
  unfold extractYouTubeUrl, match0. intros H.
  destruct (exec youtube_regex text) as [[m rest]|] eqn:He; [|discriminate].
  injection H as ->.
  apply exec_Some in He as (pre & _ & Hm & _ & _); [|done].
  destruct (compile_complete youtube_regex well_formed_youtube_regex
              [] [] Some [] Hm eq_refl) as [z Hz].
  vm_compute in Hz. discriminate.
Qed.

Section Messages.
Variable env : environment.
Variable msg : message.
Variable w : world.

Let chatId := msg_chat_id msg.

(** A message with a link and a pair of timestamps out of order: the pair
    is sent back, nothing is stored. *)
Lemma message_refused raw url ts :
  msg_text msg = Some raw -> raw <> [] ->
  extractYouTubeUrl (trim raw) = Some url ->
  extractTimestamps (trim raw) = Some ts ->
  ge (toSeconds (startTime ts)) (toSeconds (endTime ts)) = true ->
  exists r,
    on_message env msg w =
      (r, record (sendMessage chatId
                    (reply_start_before_end (startTime ts) (endTime ts))
                    no_options) w).
Proof.
  intros Htext Hne Hurl Hts Hge. unfold on_message.
  rewrite Htext. destruct raw as [|c raw]; [done|]. cbn [truthy negb from_option id].
  rewrite Hurl, Hts.
  destruct url as [|u url]; [by apply extractYouTubeUrl_not_empty in Hurl|].
  destruct ts as [start end_]. cbn [startTime endTime] in *. rewrite Hge.
  rewrite bind_run. unfold bot. fold chatId.
  destruct (telegram env _ _); eexists; reflexivity.
Qed.

(** A message with a link and a pair of timestamps in order: the request
    is stored, and the format is asked for. *)
Lemma message_stored raw url ts :
  msg_text msg = Some raw -> raw <> [] ->
  extractYouTubeUrl (trim raw) = Some url ->
  extractTimestamps (trim raw) = Some ts ->
  ge (toSeconds (startTime ts)) (toSeconds (endTime ts)) = false ->
  exists r,
    on_message env msg w =
      (r, record (sendMessage chatId
                    (reply_got_it url (startTime ts) (endTime ts))
                    (inline_keyboard format_keyboard))
            (World (<[chatId := Pending.Build_t url (startTime ts) (endTime ts)]>
                      (pendingRequests w))
                   (tmp_dir w) (calls w))).
Proof.
  intros Htext Hne Hurl Hts Hge. unfold on_message.
  rewrite Htext. destruct raw as [|c raw]; [done|]. cbn [truthy negb from_option id].
  rewrite Hurl, Hts.
  destruct url as [|u url]; [by apply extractYouTubeUrl_not_empty in Hurl|].
  destruct ts as [start end_]. cbn [startTime endTime] in *. rewrite Hge.
  rewrite bind_run. unfold store. rewrite bind_run. unfold bot. fold chatId.
  destruct (telegram env _ _); eexists; reflexivity.
Qed.

(** Whatever the message, the store is left as it is or gets one entry,
    for the chat of the message, that starts before it ends. *)
Lemma message_store :
  pendingRequests (on_message env msg w).2 = pendingRequests w \/
  exists request,
    lt (toSeconds (Pending.startTime request))
       (toSeconds (Pending.endTime request)) = true /\
    pendingRequests (on_message env msg w).2
      = <[chatId := request]> (pendingRequests w).
Proof.
  destruct (msg_text msg) as [[|c raw]|] eqn:Htext;
    try (left; unfold on_message; rewrite Htext; reflexivity).
  destruct (extractTimestamps (trim (c :: raw))) as [ts|] eqn:Hts.
  2:{ left. unfold on_message. rewrite Htext. cbn [truthy negb from_option id].
      rewrite Hts. destruct (extractYouTubeUrl _) as [[|u url]|];
        (apply keeps_bind; [apply keeps_bot | intros; apply keeps_ret]). }
  destruct (extractYouTubeUrl (trim (c :: raw))) as [url|] eqn:Hurl.
  2:{ left. unfold on_message. rewrite Htext. cbn [truthy negb from_option id].
      rewrite Hts, Hurl. destruct ts.
      apply keeps_bind; [apply keeps_bot | intros; apply keeps_ret]. }
  destruct (ge (toSeconds (startTime ts)) (toSeconds (endTime ts))) eqn:Hge.
  - left. destruct (message_refused (c :: raw) url ts) as [r ->]; done.
  - right. exists (Pending.Build_t url (startTime ts) (endTime ts)).
    split.
    + cbn [Pending.startTime Pending.endTime].
      rewrite (extracted_order _ _ Hts), Hge. done.
    + destruct (message_stored (c :: raw) url ts) as [r ->]; done.
Qed.

End Messages.

(** The store after one event: as before, one entry less, or one ordered
    entry more. *)
Lemma handle_ordered env ev w : ordered w -> ordered (handle env ev w).2.
Proof.
  intros Hw chatId request. destruct ev as [msg|query]; cbn [handle].
  - destruct (message_store env msg w) as [->|(request' & Hlt & ->)]; [apply Hw|].
    destruct (decide (msg_chat_id msg = chatId)) as [->|Hne].
    + rewrite lookup_insert_eq. by intros [= <-].
    + rewrite lookup_insert_ne by done. apply Hw.
  - destruct (callback_store env query w) as [->| ->]; [apply Hw|].
    intros [_ H]%lookup_delete_Some. by apply Hw in H.
Qed.

Lemma reachable_ordered w : reachable w -> ordered w.
Proof.
  induction 1 as [w [Hempty _]|env ev w r w' _ IH Hstep].
  - intros chatId request. by rewrite Hempty, lookup_empty.
  - replace w' with (handle env ev w).2 by (by rewrite Hstep).
    by apply handle_ordered.
Qed.

(** C2. For a text message from which a link and a pair of timestamps are
    extracted: when [toSeconds(startTime) >= toSeconds(endTime)] the only
    effect is the reply that shows the pair back, and the store is as
    before; otherwise [toSeconds(startTime) < toSeconds(endTime)] and the
    request is stored for the chat.  Hence every pending request of every
    world the bot can reach starts before it ends.  Two messages show the
    two cases. *)
Theorem start_before_end_stored :
  (forall env msg w raw url ts,
      msg_text msg = Some raw -> raw <> [] ->
      extractYouTubeUrl (trim raw) = Some url ->
      extractTimestamps (trim raw) = Some ts ->
      let start := startTime ts in
      let end_ := endTime ts in
      if ge (toSeconds start) (toSeconds end_) then
        exists r before after,
          on_message env msg w =
            (r, World (pendingRequests w) (tmp_dir w)
                  (calls w ++ [sendMessage (msg_chat_id msg)
                                 (before ++ start ++ lit " → " ++ end_ ++ after)
                                 no_options]))
      else
        lt (toSeconds start) (toSeconds end_) = true /\
        exists r,
          on_message env msg w =
            (r, World (<[msg_chat_id msg := Pending.Build_t url start end_]>
                         (pendingRequests w))
                  (tmp_dir w)
                  (calls w ++ [sendMessage (msg_chat_id msg)
                                 (reply_got_it url start end_)
                                 (inline_keyboard format_keyboard)])))
  /\ (forall w, reachable w -> ordered w)
  /\ on_message (obliging 500)
       {| msg_text := Some (lit "https://youtu.be/abc123 from 0:30 to 0:10");
          msg_chat_id := 5 |} empty_world
     = (Return tt,
        World ∅ ∅ [sendMessage 5 (reply_start_before_end (lit "00:00:30")
                                     (lit "00:00:10")) no_options])
  /\ on_message (obliging 500)
       {| msg_text := Some (lit "https://youtu.be/abc123 from 0:10 to 0:30");
          msg_chat_id := 5 |} empty_world
     = (Return tt,
        World {[ 5%Z := sample_request ]} ∅
              [sendMessage 5 (reply_got_it (lit "https://youtu.be/abc123")
                                (lit "00:00:10") (lit "00:00:30"))
                           (inline_keyboard format_keyboard)]).
Proof.
  split; [|split; [exact reachable_ordered|split; vm_compute; reflexivity]].
  intros env msg w raw url ts Htext Hne Hurl Hts start end_. subst start end_.
  destruct (ge (toSeconds (startTime ts)) (toSeconds (endTime ts))) eqn:Hge.
  - destruct (message_refused env msg w raw url ts) as [r ->]; auto.
    exists r,
      (lit "⚠️  The start time must be before the end time." ++ nl ++ nl ++
       lit "You sent: "),
      (nl ++ nl ++ lit "Please try again.").
    unfold record, reply_start_before_end. by rewrite <- !app_assoc.
  - split; [by rewrite (extracted_order _ _ Hts), Hge|].
    destruct (message_stored env msg w raw url ts) as [r ->]; auto.
    by exists r.
Qed.

Lemma format_choice_selected data mode_ :
  format_choice data mode_ -> selected_mode data = Some mode_.
Proof. by intros [[-> ->]|[-> ->]]. Qed.







(* ------------------------------------------------------------------ *)
(** ** 6. The pipeline *)
(* ------------------------------------------------------------------ *)

Lemma startsWith_app p s : startsWith (p ++ s) p = true.
Proof.
  induction p as [|c p IH]; simpl; [by destruct s|]. by rewrite N.eqb_refl.
Qed.

Lemma includes_prefix p s : includes (p ++ s) p = true.
Proof.
  assert (H : forall x, startsWith x p = true -> includes x p = true).
  { intros x Hx. destruct x; simpl in *; by rewrite Hx. }
  apply H, startsWith_app.
Qed.

(** Write the literals of the goal out as code units. *)
Ltac spell_literals :=
  repeat match goal with
         | |- context [lit ?s] =>
             let v := eval vm_compute in (lit s) in change (lit s) with v
         end.

(** [path.extname] and [path.basename] of the download path. *)
Lemma download_base uid mode_ :
  basename (downloadPath mode_ uid) (extname (downloadPath mode_ uid))
    = uid ++ lit "_raw".
Proof.
  unfold basename, strip_suffix, extname, downloadPath.
  destruct mode_; cbn [isAudio]; spell_literals;
    rewrite !rev_app_distr; cbn;
    rewrite rev_involutive, <- !app_assoc; cbn;
    by destruct uid.
Qed.

Section Pipeline.
Variable env : environment.
Variables (chatId : Z) (url startTime endTime : str) (mode_ : mode)
          (statusMsgId : Z).

Let status text := editMessageText text chatId statusMsgId.

Lemma updateStatus_run text w :
  updateStatus env chatId statusMsgId text w = (Return tt, record (status text) w).
Proof.
  unfold updateStatus, try_catch. rewrite bind_run. unfold bot.
  by destruct (telegram env _ _).
Qed.

(** *** Cleanup *)

Lemma cleanupFile_run file w :
  exists w',
    cleanupFile env file w = (Return tt, w') /\
    pendingRequests w' = pendingRequests w /\
    (forall g, g <> file -> tmp_dir w' !! g = tmp_dir w !! g) /\
    calls w' = calls w ++ match tmp_dir w !! file with Some _ => [unlinkSync file] | None => [] end.
Proof.
  unfold cleanupFile, try_catch. rewrite bind_run. unfold existsSync, fs_unlinkSync.
  destruct (tmp_dir w !! file) as [size|] eqn:Hf.
  - rewrite bool_decide_eq_true_2 by eauto. rewrite Hf.
    destruct (unlink_error env file w); eexists; (split; [reflexivity|]);
      cbn; repeat split; auto.
    intros g Hg. by rewrite lookup_delete_ne.
  - rewrite bool_decide_eq_false_2 by (by intros [? ?]).
    exists w. rewrite app_nil_r. auto.
Qed.

Lemma sweep_run prefix files : forall w,
  NoDup files ->
  exists w' deletions,
    for_of files (fun file =>
      if startsWith file prefix then cleanupFile env file else mret tt) w
      = (Return tt, w') /\
    pendingRequests w' = pendingRequests w /\
    calls w' = calls w ++ deletions /\
    forallb is_fs_call deletions = true /\
    (forall g, ~ In g files -> tmp_dir w' !! g = tmp_dir w !! g) /\
    (forall file, In file files -> startsWith file prefix = true ->
                  is_Some (tmp_dir w !! file) -> In (unlinkSync file) deletions).
Proof.
  induction files as [|a files IH]; intros w Hnd.
  - exists w, []. rewrite app_nil_r. repeat split; auto.
  - apply NoDup_cons in Hnd as [Ha Hnd]. rewrite list_elem_of_In in Ha.
    cbn [for_of]. rewrite bind_run.
    assert (Hstep : exists w1,
      (if startsWith a prefix then cleanupFile env a else mret tt) w = (Return tt, w1) /\
      pendingRequests w1 = pendingRequests w /\
      (forall g, g <> a -> tmp_dir w1 !! g = tmp_dir w !! g) /\
      calls w1 = calls w ++
        (if startsWith a prefix
         then match tmp_dir w !! a with Some _ => [unlinkSync a] | None => [] end
         else [])).
    { destruct (startsWith a prefix); [apply cleanupFile_run|].
      exists w. rewrite app_nil_r. auto. }
    destruct Hstep as (w1 & -> & Hp1 & Hd1 & Hc1).
    destruct (IH w1 Hnd) as (w' & ds & -> & Hp & Hc & Hfs & Hd & Hdel).
    exists w'. eexists. split; [reflexivity|]. split; [congruence|].
    split; [rewrite Hc, Hc1, <- app_assoc; reflexivity|].
    split; [|split].
    + rewrite forallb_app, Hfs, andb_true_r.
      destruct (startsWith a prefix); [|done]. by destruct (tmp_dir w !! a).
    + intros g Hg. rewrite Hd, Hd1; auto; intros ?; apply Hg; simpl; auto.
    + intros file [<-|Hin] Hpre [size Hsize]; apply in_or_app.
      * left. rewrite Hpre, Hsize. by left.
      * right. apply Hdel; auto. rewrite Hd1; [eauto|]. by intros ->.
Qed.

Lemma cleanupGlob_run pattern w :
  exists w' deletions,
    cleanupGlob env pattern w = (Return tt, w') /\
    pendingRequests w' = pendingRequests w /\
    calls w' = calls w ++ readdirSync :: deletions /\
    forallb is_fs_call deletions = true /\
    (readdir_error env w = None ->
     forall file, startsWith file (drop_dot_star pattern) = true ->
                  is_Some (tmp_dir w !! file) -> In (unlinkSync file) deletions).
Proof.
  unfold cleanupGlob, try_catch. rewrite bind_run. unfold fs_readdirSync.
  destruct (readdir_error env w) as [e|] eqn:Hdir.
  - exists (record readdirSync w), []. repeat split; auto. discriminate.
  - set (files := map fst (map_to_list (tmp_dir w))).
    assert (Hnd : NoDup files) by apply NoDup_fst_map_to_list.
    destruct (sweep_run (drop_dot_star pattern) files (record readdirSync w) Hnd)
      as (w' & ds & -> & Hp & Hc & Hfs & _ & Hdel).
    exists w', ds. split; [done|]. split; [done|].
    split; [rewrite Hc; cbn; by rewrite <- app_assoc|]. split; [done|].
    intros _ file Hpre [size Hsize]. apply Hdel; [|done|cbn; eauto].
    apply in_map_iff. exists (file, size). split; [done|].
    apply list_elem_of_In, elem_of_map_to_list. done.
Qed.

Lemma glob_prefix uid : drop_dot_star (uid ++ lit "_raw.*") = uid ++ lit "_raw".
Proof.
  unfold drop_dot_star, strip_suffix. spell_literals.
  rewrite !rev_app_distr. cbn. by rewrite rev_involutive, <- !app_assoc.
Qed.

Lemma download_not_output uid : downloadPath mode_ uid <> outputPath mode_ uid.
Proof.
  unfold downloadPath, outputPath. intros H%app_inv_head.
  revert H. spell_literals. discriminate.
Qed.

Lemma cleanup_run uid w :
  exists w' deletions,
    cleanup env mode_ uid w = (Return tt, w') /\
    pendingRequests w' = pendingRequests w /\
    calls w' = calls w ++ deletions /\
    forallb is_fs_call deletions = true /\
    In readdirSync deletions /\
    (is_Some (tmp_dir w !! outputPath mode_ uid) ->
     In (unlinkSync (outputPath mode_ uid)) deletions) /\
    (is_Some (tmp_dir w !! downloadPath mode_ uid) ->
     In (unlinkSync (downloadPath mode_ uid)) deletions) /\
    ((forall w0, readdir_error env w0 = None) ->
     forall e, is_Some (tmp_dir w !! (uid ++ lit "_raw." ++ e)) ->
               In (unlinkSync (uid ++ lit "_raw." ++ e)) deletions).
Proof.
  unfold cleanup. rewrite bind_run.
  destruct (cleanupFile_run (downloadPath mode_ uid) w) as (w1 & -> & Hp1 & Hd1 & Hc1).
  rewrite bind_run.
  destruct (cleanupFile_run (outputPath mode_ uid) w1) as (w2 & -> & Hp2 & Hd2 & Hc2).
  destruct (cleanupGlob_run (uid ++ lit "_raw.*") w2)
    as (w3 & d3 & -> & Hp3 & Hc3 & Hfs3 & Hdel3).
  set (d1 := match tmp_dir w !! downloadPath mode_ uid with
             | Some _ => [unlinkSync (downloadPath mode_ uid)] | None => [] end) in *.
  set (d2 := match tmp_dir w1 !! outputPath mode_ uid with
             | Some _ => [unlinkSync (outputPath mode_ uid)] | None => [] end) in *.
  exists w3, (d1 ++ d2 ++ readdirSync :: d3).
  split; [done|]. split; [congruence|].
  split; [rewrite Hc3, Hc2, Hc1, <- !app_assoc; reflexivity|].
  assert (Hdl : is_Some (tmp_dir w !! downloadPath mode_ uid) ->
                In (unlinkSync (downloadPath mode_ uid)) d1).
  { intros [size Hsize]. subst d1. rewrite Hsize. by left. }
  split; [|split; [|split; [|split]]].
  - rewrite !forallb_app. cbn. rewrite Hfs3. subst d1 d2.
    destruct (tmp_dir w !! _), (tmp_dir w1 !! _); done.
  - apply in_or_app. right. apply in_or_app. right. by left.
  - intros [size Hsize]. apply in_or_app. right. apply in_or_app. left.
    subst d2. rewrite Hd1, Hsize by (apply not_eq_sym, download_not_output).
    by left.
  - intros H. apply in_or_app. left. auto.
  - intros Hdir e Hex.
    destruct (decide (uid ++ lit "_raw." ++ e = downloadPath mode_ uid)) as [Heq|Hne].
    { apply in_or_app. left. rewrite Heq in *. auto. }
    apply in_or_app. right. apply in_or_app. right. right.
    apply Hdel3; [apply Hdir| |].
    + rewrite glob_prefix.
      replace (uid ++ lit "_raw." ++ e) with ((uid ++ lit "_raw") ++ lit "." ++ e)
        by (rewrite <- app_assoc; reflexivity).
      apply startsWith_app.
    + rewrite Hd2, Hd1; [done|done|].
      unfold outputPath. intros H%app_inv_head. revert H.
      spell_literals. discriminate.
Qed.

(** *** The attempt: what the [try] and [catch] blocks do *)

Lemma attempt_returns uid w :
  (attempt env chatId url startTime endTime mode_ statusMsgId uid w).1 = Return tt.
Proof.
  unfold attempt, try_catch.
  destruct ((download_and_cut env chatId url startTime endTime mode_
                statusMsgId uid ≫= _) w) as [[[]|e] w1]; [done|].
  by rewrite updateStatus_run.
Qed.

(** The calls on the disk oracle play no part in the attempt. *)
Lemma attempt_disk unlink_error' readdir_error' uid w :
  attempt (Environment (randomBytes6 env) (telegram env) (tool env)
                       unlink_error' readdir_error' (ENOENT env))
          chatId url startTime endTime mode_ statusMsgId uid w
  = attempt env chatId url startTime endTime mode_ statusMsgId uid w.
Proof. by destruct env. Qed.

Lemma processClip_run w :
  let uid := hex12 (randomBytes6 env w) in
  processClip env chatId url startTime endTime mode_ statusMsgId w =
    cleanup env mode_ uid
      (attempt env chatId url startTime endTime mode_ statusMsgId uid w).2.
Proof.
  intros uid. unfold processClip, try_finally. fold uid.
  pose proof (attempt_returns uid w) as Hr.
  destruct (attempt _ _ _ _ _ _ _ uid w) as [r w1]. cbn [fst snd] in *. subst r.
  destruct (cleanup_run uid w1) as (w' & ds & -> & _). done.
Qed.

(** The download tool fails. *)
Lemma attempt_download_failed uid w stderr error_message dir :
  tool env (lit "yt-dlp") (ytdlpArgs url mode_ uid) (record (status status_downloading) w)
    = (failed stderr error_message, dir) ->
  attempt env chatId url startTime endTime mode_ statusMsgId uid w =
    (Return tt,
     World (pendingRequests w) dir
           (calls w ++ [status status_downloading;
                        execFile (lit "yt-dlp") (ytdlpArgs url mode_ uid);
                        status (went_wrong ++ explain_download)])).
Proof.
  intros Htool. unfold attempt, try_catch, download_and_cut.
  rewrite !bind_run, updateStatus_run. rewrite bind_run.
  unfold runCommand at 1. rewrite Htool.
  rewrite updateStatus_run. unfold userMessage.
  rewrite includes_prefix.
  unfold record. cbn. by rewrite <- !app_assoc.
Qed.

(** The download tool exits well, and no file is found. *)
Lemma attempt_file_not_found uid w stdout dir :
  tool env (lit "yt-dlp") (ytdlpArgs url mode_ uid) (record (status status_downloading) w)
    = (exited_0 stdout, dir) ->
  dir !! downloadPath mode_ uid = None ->
  (forall ext, In ext variants -> dir !! (uid ++ lit "_raw" ++ ext) = None) ->
  attempt env chatId url startTime endTime mode_ statusMsgId uid w =
    (Return tt,
     World (pendingRequests w) dir
           (calls w ++ [status status_downloading;
                        execFile (lit "yt-dlp") (ytdlpArgs url mode_ uid);
                        status (went_wrong ++ lit "Error: " ++ error_not_found)])).
Proof.
  intros Htool Hdl Hvar. unfold attempt, try_catch, download_and_cut.
  rewrite !bind_run, updateStatus_run. rewrite bind_run.
  unfold runCommand at 1. rewrite Htool.
  rewrite bind_run.
  set (w1 := World _ dir _).
  assert (Hfind : findDownloadedFile (downloadPath mode_ uid) w1 = (Return None, w1)).
  { unfold findDownloadedFile. rewrite bind_run. unfold existsSync at 1.
    cbn [tmp_dir w1]. rewrite Hdl.
    rewrite bool_decide_eq_false_2 by (by intros [? ?]).
    rewrite download_base.
    assert (Hall : forall exts, (forall ext, In ext exts -> In ext variants) ->
              first_existing (map (fun ext => (uid ++ lit "_raw") ++ ext) exts) w1
              = (Return None, w1)).
    { induction exts as [|ext exts IH]; intros Hin; [done|].
      cbn [map first_existing]. rewrite bind_run. unfold existsSync at 1.
      cbn [tmp_dir w1]. rewrite <- app_assoc, Hvar by (apply Hin; by left).
      rewrite bool_decide_eq_false_2 by (by intros [? ?]).
      apply IH. intros; apply Hin; by right. }
    by apply Hall. }
  rewrite Hfind. unfold throw. rewrite updateStatus_run.
  replace (userMessage error_not_found)
    with (went_wrong ++ lit "Error: " ++ error_not_found) by (vm_compute; reflexivity).
  unfold record, w1. cbn. by rewrite <- !app_assoc.
Qed.

Lemma statuses_app cs1 cs2 : statuses (cs1 ++ cs2) = statuses cs1 ++ statuses cs2.
Proof. apply flat_map_app. Qed.

Lemma statuses_fs cs : forallb is_fs_call cs = true -> statuses cs = [].
Proof.
  induction cs as [|c cs IH]; [done|]. cbn [forallb].
  intros [Hc Hcs]%andb_true_iff.
  unfold statuses in *. cbn [flat_map]. rewrite (IH Hcs). by destruct c.
Qed.

(** C6, as the code has it.  When the download tool fails, the pipeline
    shows the download explanation (the link may be invalid, the video may
    not be public) and goes on to cleanup.  When the tool exits well and no
    file is found under the expected name or one of the known extensions,
    the pipeline fails as well, but what it shows is the text of the error
    itself behind [Error:], not the download explanation. *)
Theorem download_failure_reported w :
  let uid := hex12 (randomBytes6 env w) in
  let ran := execFile (lit "yt-dlp") (ytdlpArgs url mode_ uid) in
  match tool env (lit "yt-dlp") (ytdlpArgs url mode_ uid)
             (record (status status_downloading) w) with
  | (failed stderr error_message, dir) =>
      processClip env chatId url startTime endTime mode_ statusMsgId w =
        cleanup env mode_ uid
          (World (pendingRequests w) dir
                 (calls w ++ [status status_downloading; ran;
                              status (went_wrong ++ explain_download)]))
  | (exited_0 stdout, dir) =>
      dir !! downloadPath mode_ uid = None ->
      (forall ext, In ext variants -> dir !! (uid ++ lit "_raw" ++ ext) = None) ->
      processClip env chatId url startTime endTime mode_ statusMsgId w =
        cleanup env mode_ uid
          (World (pendingRequests w) dir
                 (calls w ++ [status status_downloading; ran;
                              status (went_wrong ++ lit "Error: " ++ error_not_found)]))
  end.
Proof.
  intros uid ran. rewrite processClip_run. fold uid.
  destruct (tool env _ _ _) as [[stdout|stderr error_message] dir] eqn:Htool.
  - intros Hdl Hvar. by rewrite (attempt_file_not_found uid w stdout dir).
  - by rewrite (attempt_download_failed uid w stderr error_message dir).
Qed.


(** C3. However the attempt ends (done, failed in any stage, or too
    large), [processClip] then runs the cleanup and returns normally.  The
    cleanup calls nothing but the disk, so the status texts are those of the
    attempt, whatever the deletions do: it tries to delete the output file
    and the expected download file when they exist, lists the directory, and
    (when the listing is given) tries to delete every file named after the
    download, whatever its extension.  The attempt itself, and with it every
    status text, is the same under any behaviour of the disk calls. *)
Theorem cleanup_on_every_exit w :
  let uid := hex12 (randomBytes6 env w) in
  let w1 := (attempt env chatId url startTime endTime mode_ statusMsgId uid w).2 in
  exists w2 deletions,
    processClip env chatId url startTime endTime mode_ statusMsgId w
      = (Return tt, w2)
    /\ pendingRequests w2 = pendingRequests w1
    /\ calls w2 = calls w1 ++ deletions
    /\ forallb is_fs_call deletions = true
    /\ statuses (calls w2) = statuses (calls w1)
    /\ In readdirSync deletions
    /\ (is_Some (tmp_dir w1 !! outputPath mode_ uid) ->
        In (unlinkSync (outputPath mode_ uid)) deletions)
    /\ (is_Some (tmp_dir w1 !! downloadPath mode_ uid) ->
        In (unlinkSync (downloadPath mode_ uid)) deletions)
    /\ ((forall w0, readdir_error env w0 = None) ->
        forall e, is_Some (tmp_dir w1 !! (uid ++ lit "_raw." ++ e)) ->
                  In (unlinkSync (uid ++ lit "_raw." ++ e)) deletions)
    /\ (forall unlink_error' readdir_error',
          attempt (Environment (randomBytes6 env) (telegram env) (tool env)
                               unlink_error' readdir_error' (ENOENT env))
                  chatId url startTime endTime mode_ statusMsgId uid w
          = attempt env chatId url startTime endTime mode_ statusMsgId uid w).
Proof.
  intros uid w1. rewrite processClip_run. fold uid. fold w1.
  destruct (cleanup_run uid w1)
    as (w2 & ds & -> & Hp & Hc & Hfs & Hdir & Hout & Hdl & Hvar).
  exists w2, ds. repeat (split; [done|]).
  split; [by rewrite Hc, statuses_app, (statuses_fs ds), app_nil_r|].
  repeat (split; [done|]). intros. apply attempt_disk.
Qed.

End Pipeline.


(** The same run with an output of 60 MiB ends on the too-large text. *)
Example too_large_run :
  statuses (calls (processClip (obliging (60 * 1024 * 1024)) 5
                     (lit "https://youtu.be/abc123")
                     (lit "00:00:10") (lit "00:00:30") audio 7 empty_world).2)
  = [status_downloading; status_cutting; status_too_large].
Proof. vm_compute. reflexivity. Qed.

(** With an output of 500 bytes it uploads, with a duration of 20 seconds. *)
Example upload_run :
  filter (fun c => negb (is_fs_call c))
    (calls (processClip (obliging 500) 5 (lit "https://youtu.be/abc123")
              (lit "00:00:10") (lit "00:00:30") audio 7 empty_world).2)
  = [editMessageText status_downloading 5 7;
     execFile (lit "yt-dlp")
       [lit "-f"; lit "bestaudio"; lit "-o"; lit "abcdef123745_raw.webm";
        lit "--no-playlist"; lit "--no-warnings"; lit "https://youtu.be/abc123"];
     editMessageText status_cutting 5 7;
     execFile (lit "ffmpeg")
       [lit "-y"; lit "-i"; lit "abcdef123745_raw.webm";
        lit "-ss"; lit "00:00:10"; lit "-to"; lit "00:00:30";
        lit "-vn"; lit "-acodec"; lit "libmp3lame"; lit "-ab"; lit "192k";
        lit "abcdef123745_clip.mp3"];
     editMessageText status_uploading 5 7;
     sendAudio 5 (lit "abcdef123745_clip.mp3")
       (lit "🎵 Audio clip (00:00:10 → 00:00:30)") (Some (of_Z 20));
     editMessageText status_done 5 7].
Proof. vm_compute. reflexivity. Qed.

(** The download tool fails: the download explanation. *)
Example download_failed_run :
  statuses (calls (processClip no_download 5 (lit "https://youtu.be/abc123")
                     (lit "00:00:10") (lit "00:00:30") audio 7 empty_world).2)
  = [status_downloading; went_wrong ++ explain_download].
Proof. vm_compute. reflexivity. Qed.

(** C6, as the claim has it, fails when the download tool exits well and
    leaves no file: the status shown is the text of the error, not the
    download explanation. *)
Lemma download_without_file :
  statuses (calls (processClip no_file 5 (lit "https://youtu.be/abc123")
                     (lit "00:00:10") (lit "00:00:30") audio 7 empty_world).2)
  = [status_downloading;
     went_wrong ++ lit "Error: Download completed but file not found on disk."]
  /\ went_wrong ++ lit "Error: Download completed but file not found on disk."
     <> went_wrong ++ explain_download
  /\ includes (went_wrong ++ lit "Error: Download completed but file not found on disk.")
              explain_download = false.
Proof.
  split; [vm_compute; reflexivity|]. split; [|vm_compute; reflexivity].
  intros H. vm_compute in H. discriminate.
Qed.

(* ------------------------------------------------------------------ *)
(** ** 3. The URL pattern denotes the known shapes *)
(* ------------------------------------------------------------------ *)

Lemma matches_letters cs s :
  matches (foldr (fun c k => Seq (chr_i c) k) Eps cs) s <->
  map canonicalize s = map canonicalize cs.
Proof.
  revert s. induction cs as [|c cs IH]; intros s; cbn [foldr matches map].
  - split; [by intros ->|]. by destruct s.
  - split.
    + intros (w1 & w2 & -> & (x & -> & Hx) & Hw2). apply IH in Hw2.
      apply N.eqb_eq in Hx. cbn. by rewrite Hx, Hw2.
    + destruct s as [|x s]; [discriminate|]. cbn. intros [= Hx Hs].
      exists [x], s. split; [done|]. split; [|by apply IH].
      exists x. split; [done|]. by apply N.eqb_eq.
Qed.

Lemma matches_word l s : matches (word chr_i l) s <-> same_letters s l.
Proof. apply matches_letters. Qed.

Lemma matches_Opt r s : matches (Opt r) s <-> s = [] \/ matches r s.
Proof.
  unfold Opt. cbn [matches]. split.
  - intros (ws & -> & Hall & _ & Hmax). specialize (Hmax _ eq_refl).
    destruct ws as [|w [|w' ws]]; simpl in *; [by left| |lia].
    right. rewrite app_nil_r. by apply Forall_cons in Hall as [? _].
  - intros [->|Hr].
    + exists []. repeat split; auto; simpl; try lia;
        try (intros n [= <-]; lia).
    + exists [s]. simpl. rewrite app_nil_r. repeat split; auto; simpl; try lia;
        try (intros n [= <-]; lia).
Qed.

Lemma matches_class_unbounded p min g :
  matches (Quant (Chars p) min None) g <->
  (min <= length g)%nat /\ forallb p g = true.
Proof.
  cbn [matches]. split.
  - intros (ws & -> & Hall & Hmin & _).
    assert (length (concat ws) = length ws /\ forallb p (concat ws) = true) as [Hl Hp].
    { clear Hmin. induction Hall as [|w ws (c & -> & Hc) _ [IHl IHp]]; [done|].
      simpl. rewrite Hc, IHl, IHp. done. }
    rewrite Hl. done.
  - intros [Hmin Hp]. exists (map (fun c => [c]) g).
    split; [|split; [|split]].
    + clear. induction g as [|c g IH]; simpl; congruence.
    + apply List.Forall_forall. intros w (c & <- & Hc)%in_map_iff.
      rewrite forallb_forall in Hp. eauto.
    + by rewrite length_map.
    + discriminate.
Qed.

Lemma matches_Star_class p s :
  matches (Star (Chars p)) s <-> forallb p s = true.
Proof.
  unfold Star. rewrite matches_class_unbounded. split; [by intros [_ ?]|].
  intros; split; [lia|done].
Qed.

Lemma matches_Plus_class p s :
  matches (Plus (Chars p)) s <-> video_id p s.
Proof.
  unfold Plus, video_id. rewrite matches_class_unbounded.
  destruct s; simpl; split; intros [? ?]; split; auto; try lia; done.
Qed.

Lemma same_letters_app s1 s2 l1 l2 l :
  lit l = lit l1 ++ lit l2 ->
  same_letters s1 l1 -> same_letters s2 l2 -> same_letters (s1 ++ s2) l.
Proof.
  unfold same_letters. intros -> H1 H2. by rewrite !map_app, H1, H2.
Qed.

(** [https?:\/\/] *)
Lemma matches_scheme s :
  matches (Seq (word chr_i "http") (Seq (Opt (chr_i 115)) (word chr_i "://"))) s <->
  same_letters s "http://" \/ same_letters s "https://".
Proof.
  cbn [matches]. split.
  - intros (w1 & w23 & -> & H1%matches_word & w2 & w3 & -> & H2%matches_Opt
              & H3%matches_word).
    destruct H2 as [->|(c & -> & Hc)].
    + left. by apply (same_letters_app _ _ "http" "://").
    + right. apply (same_letters_app _ _ "http" "s://"); [done|done|].
      apply (same_letters_app [c] _ "s" "://"); [done| |done].
      apply N.eqb_eq in Hc. unfold same_letters. cbn. by rewrite Hc.
  - intros [H|H]; unfold same_letters in H.
    + destruct s as [|c1 [|c2 [|c3 [|c4 [|c5 [|c6 [|c7 [|c8 s]]]]]]]];
        try discriminate H.
      vm_compute (map canonicalize (lit _)) in H. cbn [map] in H.
      injection H as H1 H2 H3 H4 H5 H6 H7.
      exists [c1; c2; c3; c4], [c5; c6; c7]. split; [done|].
      split; [apply matches_word; unfold same_letters; vm_compute (map canonicalize (lit _)); cbn [map]; congruence|].
      exists [], [c5; c6; c7]. split; [done|].
      split; [apply matches_Opt; by left|].
      apply matches_word; unfold same_letters; vm_compute (map canonicalize (lit _)); cbn [map]; congruence.
    + destruct s as [|c1 [|c2 [|c3 [|c4 [|c5 [|c6 [|c7 [|c8 [|c9 s]]]]]]]]];
        try discriminate H.
      vm_compute (map canonicalize (lit _)) in H. cbn [map] in H.
      injection H as H1 H2 H3 H4 H5 H6 H7 H8.
      exists [c1; c2; c3; c4], [c5; c6; c7; c8]. split; [done|].
      split; [apply matches_word; unfold same_letters; vm_compute (map canonicalize (lit _)); cbn [map]; congruence|].
      exists [c5], [c6; c7; c8]. split; [done|].
      split; [apply matches_Opt; right; exists c5; split; [done|];
              apply N.eqb_eq; vm_compute (canonicalize 115); congruence|].
      apply matches_word; unfold same_letters; vm_compute (map canonicalize (lit _)); cbn [map]; congruence.
Qed.

Lemma matches_youtube_regex u : matches youtube_regex u <-> youtube_url u.
Proof.
  unfold youtube_regex, youtube_url. cbn [matches].
  setoid_rewrite matches_Opt. setoid_rewrite matches_scheme.
  setoid_rewrite matches_word. setoid_rewrite matches_Star_class.
  setoid_rewrite matches_Plus_class.
  split.
  - intros (scheme & r1 & -> & Hs & www & r2 & -> & Hw & body & tail & -> & Hb & Ht).
    exists scheme, www, body, tail. split; [done|]. split; [tauto|].
    split; [done|]. split.
    + destruct Hb as [(host & r & -> & Hh & [(w1 & r3 & -> & Hw1 & q & r4 & -> & Hq
                         & v & x & -> & Hv & Hx)
                       |[(w1 & x & -> & Hw1 & Hx)|(w1 & x & -> & Hw1 & Hx)]])
                     |(host & x & -> & Hh & Hx)].
      * left. exists (host ++ w1), q, v, x. rewrite <- !app_assoc.
        split; [done|]. split; [|done].
        by apply (same_letters_app _ _ "youtube.com/" "watch?").
      * right; left. exists (host ++ w1), x. rewrite <- !app_assoc.
        split; [done|]. split; [|done].
        by apply (same_letters_app _ _ "youtube.com/" "shorts/").
      * right; right; left. exists (host ++ w1), x. rewrite <- !app_assoc.
        split; [done|]. split; [|done].
        by apply (same_letters_app _ _ "youtube.com/" "live/").
      * right; right; right. exists host, x. done.
    + destruct Ht as [->|Ht]; done.
  - intros (scheme & www & body & tail & -> & Hs & Hw & Hb & Ht).
    exists scheme, (www ++ body ++ tail). split; [done|]. split; [tauto|].
    exists www, (body ++ tail). split; [done|]. split; [done|].
    exists body, tail. split; [done|]. split; [|by right].
    assert (Hsplit : forall host (l l1 l2 : string) (n : nat),
              lit l = lit l1 ++ lit l2 -> length (lit l1) = n ->
              same_letters host l ->
              same_letters (take n host) l1 /\ same_letters (drop n host) l2).
    { unfold same_letters. intros host l l1 l2 n -> <- H.
      rewrite map_app in H. rewrite <- (take_drop (length (lit l1)) host) in H.
      rewrite map_app in H. apply app_inj_1 in H; [done|].
      rewrite !length_map, length_take.
      apply (f_equal length) in H. rewrite !length_app, !length_map in H.
      rewrite length_take, length_drop in H. lia. }
    destruct Hb as [(host & q & v & x & -> & Hh & Hq & Hv & Hx)
                   |[(host & x & -> & Hh & Hx)
                   |[(host & x & -> & Hh & Hx)|(host & x & -> & Hh & Hx)]]].
    + left. destruct (Hsplit host "youtube.com/watch?"%string "youtube.com/"%string "watch?"%string 12%nat eq_refl eq_refl Hh).
      exists (take 12 host), (drop 12 host ++ q ++ v ++ x).
      split; [rewrite <- (take_drop 12 host) at 1; by rewrite <- app_assoc|].
      split; [done|].
      left. exists (drop 12 host), (q ++ v ++ x). split; [done|]. split; [done|].
      exists q, (v ++ x). split; [done|]. split; [done|]. by exists v, x.
    + left. destruct (Hsplit host "youtube.com/shorts/"%string "youtube.com/"%string "shorts/"%string 12%nat eq_refl eq_refl Hh).
      exists (take 12 host), (drop 12 host ++ x).
      split; [rewrite <- (take_drop 12 host) at 1; by rewrite <- app_assoc|].
      split; [done|].
      right; left. by exists (drop 12 host), x.
    + left. destruct (Hsplit host "youtube.com/live/"%string "youtube.com/"%string "live/"%string 12%nat eq_refl eq_refl Hh).
      exists (take 12 host), (drop 12 host ++ x).
      split; [rewrite <- (take_drop 12 host) at 1; by rewrite <- app_assoc|].
      split; [done|].
      right; right. by exists (drop 12 host), x.
    + right. by exists host, x.
Qed.

(** ** The match runs up to the next white space *)

Lemma compile_Star_class p : forall t fuel c,
  (length t < fuel)%nat ->
  RepeatMatcher fuel (compile (Chars p)) 0 None t c = star_class p t c.
Proof.
  induction t as [|ch t IH]; intros fuel c Hfuel;
    (destruct fuel as [|f]; [lia|]); cbn [RepeatMatcher star_class].
  - done.
  - rewrite bool_decide_eq_false_2 by done. cbn.
    destruct (p ch); [|done].
    rewrite (proj2 (Nat.eqb_neq (length t) (S (length t)))) by lia.
    rewrite IH by (simpl in Hfuel; lia). done.
Qed.

Lemma span_snd_cons p ch t :
  (span p (ch :: t)).2 = if p ch then (span p t).2 else ch :: t.
Proof. cbn [span]. destruct (p ch); [|done]. by destruct (span p t). Qed.

Lemma star_class_longest p (d : cont) bound : forall t,
  (forall y, (length y < bound)%nat -> d y = Some y) ->
  (length t <= bound)%nat ->
  star_class p t d =
    match t with
    | ch :: _ => if p ch then Some (span p t).2 else d t
    | [] => d t
    end.
Proof.
  induction t as [|ch t IH]; intros Hd Hl; cbn [star_class]; [done|].
  destruct (p ch) eqn:Hp; [|done].
  rewrite IH by (auto; simpl in Hl; lia).
  rewrite span_snd_cons, Hp.
  destruct t as [|ch' t].
  - rewrite Hd by (simpl in *; lia). done.
  - rewrite span_snd_cons. destruct (p ch'); [done|].
    rewrite Hd by (simpl in *; lia). done.
Qed.

(** The optional greedy star on a class, at the end of a pattern, takes
    the whole run. *)
Lemma compile_tail p t :
  compile (Opt (Star (Chars p))) t Some = Some (span p t).2.
Proof.
  change (compile (Opt (Star (Chars p))) t Some) with
    (match compile (Star (Chars p)) t
             (fun y => if Nat.eqb (length y) (length t) then None
                       else RepeatMatcher (length t) (compile (Star (Chars p)))
                                          0 (Some 0%nat) y Some) with
     | Some z => Some z
     | None => Some t
     end).
  change (compile (Star (Chars p)) t) with
    (RepeatMatcher (S (length t)) (compile (Chars p)) 0 None t).
  rewrite compile_Star_class by lia.
  rewrite (star_class_longest p _ (length t)); [| |done].
  - destruct t as [|ch t]; [done|]. rewrite span_snd_cons.
    destruct (p ch); [done|]. by rewrite Nat.eqb_refl.
  - intros y Hy. rewrite (proj2 (Nat.eqb_neq (length y) (length t))) by lia.
    destruct (length t) as [|n]; [lia|]. done.
Qed.

Lemma span_rest p t :
  (span p t).2 = [] \/ exists c r, (span p t).2 = c :: r /\ p c = false.
Proof.
  induction t as [|ch t IH]; cbn [span]; [by left|].
  destruct (p ch) eqn:Hp.
  - by destruct (span p t).
  - right. by exists ch, t.
Qed.

Lemma compile_Seq_rest r1 r2 x c z :
  well_formed r1 = true ->
  compile (Seq r1 r2) x c = Some z -> exists y, compile r2 y c = Some z.
Proof.
  intros Hwf H.
  change (compile (Seq r1 r2) x c) with (compile r1 x (fun y => compile r2 y c)) in H.
  apply compile_sound in H as (_ & y & _ & _ & H); eauto.
Qed.

Lemma youtube_match_ends x rest :
  compile youtube_regex x Some = Some rest ->
  rest = [] \/ exists c r, rest = c :: r /\ is_space c = true.
Proof.
  unfold youtube_regex. intros H.
  apply compile_Seq_rest in H as [y1 H]; [|done].
  apply compile_Seq_rest in H as [y2 H]; [|done].
  apply compile_Seq_rest in H as [y3 H]; [|done].
  rewrite compile_tail in H. injection H as <-.
  destruct (span_rest not_space y3) as [->|(c & r & -> & Hc)]; [by left|].
  right. exists c, r. split; [done|]. by apply negb_false_iff in Hc.
Qed.

Lemma youtube_url_no_space u : youtube_url u -> forallb not_space u = true.
Proof.
  assert (Hletters : forall s l,
    forallb not_space (map canonicalize (lit l)) = true ->
    same_letters s l -> forallb not_space s = true).
  { unfold same_letters. intros s l Hl Hs. rewrite <- Hs in Hl.
    rewrite forallb_forall in *. intros c Hc.
    specialize (Hl (canonicalize c) (in_map _ _ _ Hc)).
    unfold not_space, canonicalize, is_space in *.
    destruct ((97 <=? c) && (c <=? 122)) eqn:Hrange; [|done].
    apply andb_true_iff in Hrange as [H1%N.leb_le H2%N.leb_le].
    decide_tests; done. }
  assert (Hweaker : forall p x, (forall c, p c = true -> not_space c = true) ->
            forallb p x = true -> forallb not_space x = true).
  { intros p x Hp Hx. rewrite forallb_forall in *. auto. }
  assert (Hamp : forall c, not_space_amp c = true -> not_space c = true).
  { unfold not_space_amp, not_space. intros c. by destruct (is_space c). }
  assert (Hqm : forall c, not_space_qm c = true -> not_space c = true).
  { unfold not_space_qm, not_space. intros c. by destruct (is_space c). }
  assert (Hsame : forall s l,
    same_letters s l ->
    forallb not_space (map canonicalize (lit l)) = true ->
    forallb not_space s = true) by eauto.
  intros (scheme & www & body & tail & -> & Hs & Hw & Hb & Ht).
  rewrite !forallb_app, Ht, andb_true_r.
  apply andb_true_iff; split; [|apply andb_true_iff; split].
  - destruct Hs as [->|[H|H]]; [done| |];
      apply (Hsame _ _ H); vm_compute; reflexivity.
  - destruct Hw as [->|H]; [done|].
    apply (Hsame _ _ H); vm_compute; reflexivity.
  - destruct Hb as [(host & q & v & x & -> & Hh & Hq & Hv & _ & Hx)
                   |[(host & x & -> & Hh & _ & Hx)
                   |[(host & x & -> & Hh & _ & Hx)|(host & x & -> & Hh & _ & Hx)]]];
      rewrite !forallb_app.
    + rewrite Hq, (Hweaker _ _ Hamp Hx), !andb_true_r.
      apply andb_true_iff; split.
      * apply (Hsame _ _ Hh); vm_compute; reflexivity.
      * apply (Hsame _ _ Hv); vm_compute; reflexivity.
    + rewrite (Hweaker _ _ Hqm Hx), andb_true_r.
      apply (Hsame _ _ Hh); vm_compute; reflexivity.
    + rewrite (Hweaker _ _ Hqm Hx), andb_true_r.
      apply (Hsame _ _ Hh); vm_compute; reflexivity.
    + rewrite (Hweaker _ _ Hqm Hx), andb_true_r.
      apply (Hsame _ _ Hh); vm_compute; reflexivity.
Qed.

(** C8, as the code has it.  [extractYouTubeUrl] is a function of the text
    alone.  What it returns is a piece of the text as it stands there, of
    one of the shapes of the pattern, its letters in either case: an
    optional [http://] or [https://], an optional [www.], then
    [youtube.com/watch?], any code units that are no white space, [v=] and
    at least one code unit that is neither white space nor [&]; or
    [youtube.com/shorts/], [youtube.com/live/] or [youtu.be/] and at least
    one code unit that is neither white space nor [?]; then whatever follows
    up to the next white space.  The piece starts at the first place where
    a piece of such a shape starts, holds no white space and ends at white
    space or at the end of the text.  The answer is [null] exactly when no
    piece of the text has one of the shapes.  A link of each shape is found
    as it stands, and a text without a link gives [null]. *)
Theorem extractYouTubeUrl_spec :
  (forall text url,
      extractYouTubeUrl text = Some url ->
      exists pre post,
        text = pre ++ url ++ post /\ youtube_url url /\
        (forall pre' url' post',
            text = pre' ++ url' ++ post' -> youtube_url url' ->
            (length pre <= length pre')%nat) /\
        forallb not_space url = true /\
        (post = [] \/ exists c post', post = c :: post' /\ is_space c = true))
  /\ (forall text,
         extractYouTubeUrl text = None <->
         forall pre url post, text = pre ++ url ++ post -> ~ youtube_url url)
  /\ extractYouTubeUrl (lit "cut youtube.com/watch?v=abc 1:20 to 2:45")
       = Some (lit "youtube.com/watch?v=abc")
  /\ extractYouTubeUrl (lit "https://www.youtube.com/watch?list=x&v=abc&t=3 now")
       = Some (lit "https://www.youtube.com/watch?list=x&v=abc&t=3")
  /\ extractYouTubeUrl (lit "HTTP://YouTu.be/abc") = Some (lit "HTTP://YouTu.be/abc")
  /\ extractYouTubeUrl (lit "www.youtube.com/shorts/abc?x=1")
       = Some (lit "www.youtube.com/shorts/abc?x=1")
  /\ extractYouTubeUrl (lit "http://youtube.com/live/abc") = Some (lit "http://youtube.com/live/abc")
  /\ extractYouTubeUrl (lit "no link here, from 1:20 to 2:45") = None.
Proof.
  split; [|split; [|repeat split; vm_compute; reflexivity]].
  - intros text url H. unfold extractYouTubeUrl, match0 in H.
    destruct (exec youtube_regex text) as [[m rest]|] eqn:He; [|discriminate].
    injection H as ->.
    apply exec_Some in He as (pre & -> & Hm & Hhere & Hfirst); [|done].
    apply matches_youtube_regex in Hm.
    exists pre, rest. split; [done|]. split; [done|]. split; [|split].
    + intros pre' url' post' Heq Hurl'.
      destruct (Nat.le_gt_cases (length pre) (length pre')) as [|Hlt]; [done|].
      exfalso. apply (Hfirst (length pre') Hlt).
      exists url', post'. rewrite Heq, drop_app_length.
      split; [done|]. by apply matches_youtube_regex.
    + by apply youtube_url_no_space.
    + unfold match_here in Hhere.
      destruct (compile youtube_regex (url ++ rest) Some) as [rest'|] eqn:Hc;
        [|discriminate].
      injection Hhere as _ ->. by apply youtube_match_ends in Hc.
  - intros text. unfold extractYouTubeUrl, match0. split.
    + intros H pre url post -> Hurl.
      destruct (exec youtube_regex _) as [res|] eqn:He; [discriminate|].
      apply (exec_None _ _ well_formed_youtube_regex He (length pre)).
      exists url, post. rewrite drop_app_length.
      split; [done|]. by apply matches_youtube_regex.
    + intros H. destruct (exec youtube_regex text) as [[m rest]|] eqn:He; [|done].
      apply exec_Some in He as (pre & -> & Hm & _); [|done].
      exfalso. apply (H pre m rest eq_refl). by apply matches_youtube_regex.
Qed.

Lemma includes_app a p b : includes (a ++ p ++ b) p = true.
Proof.
  induction a as [|c a IH]; cbn [app]; [apply includes_prefix|].
  cbn [includes]. by rewrite IH, orb_true_r.
Qed.

(** C8, as the claim has it, fails on a watch link whose query has no
    parameter [v]: the pattern takes [v=] wherever it stands behind
    [watch?], here at the end of the name [xv].  The text holds none of the
    listed shapes, and still a link is returned. *)
Lemma extractYouTubeUrl_watch_query :
  extractYouTubeUrl (lit "youtube.com/watch?xv=1")
    = Some (lit "youtube.com/watch?xv=1")
  /\ forall pre u post,
       lit "youtube.com/watch?xv=1" = pre ++ u ++ post -> ~ listed_shape u.
Proof.
  split; [vm_compute; reflexivity|].
  intros pre u post Htext (scheme & www & path & x & -> & _ & _ & Hpath & _).
  assert (Hin : includes (map canonicalize (lit "youtube.com/watch?xv=1"))
                         (map canonicalize path) = true).
  { rewrite Htext, <- !app_assoc, !map_app.
    rewrite (app_assoc (map canonicalize pre)), (app_assoc _ (map canonicalize www)).
    apply includes_app. }
  unfold same_letters in Hpath.
  destruct Hpath as [H|[H|[H|H]]]; rewrite H in Hin; vm_compute in Hin;
    discriminate Hin.
Qed.


(* ================================================================== *)
(** * Part III: further properties of the code *)
(* ================================================================== *)

(* ------------------------------------------------------------------ *)
(** ** 4. Timestamps: seconds, shapes, separators *)
(* ------------------------------------------------------------------ *)

Lemma add_NaN a : add a NaN = NaN.
Proof. by destruct a. Qed.

Lemma split_length sep x :
  length (split sep x) = S (length (List.filter sep x)).
Proof.
  induction x as [|c x IH]; [done|]. cbn [split List.filter].
  destruct (sep c); cbn [length]; [by rewrite IH|].
  destruct (split sep x) as [|p ps]; [done|]. exact IH.
Qed.

Lemma toSeconds_fields h m s :
  forallb is_digit h = true -> forallb is_digit m = true ->
  toSeconds (h ++ lit ":" ++ m ++ lit ":" ++ s)
    = add (add (mul (Number h) (of_Z 3600)) (mul (Number m) (of_Z 60)))
          (nth 0 (map Number (split (fun c => c =? 58) s)) NaN).
Proof.
  intros Hh Hm. unfold toSeconds. change (lit ":") with [58]. cbn [app].
  rewrite (split_app _ h 58) by (done || by apply digits_no_colon).
  rewrite (split_app _ m 58) by (done || by apply digits_no_colon).
  done.
Qed.

(** X1. [toSeconds] of hours, minutes and seconds written in decimal
    digits and joined by colons is [3600 h + 60 m + s] (as long as that is
    below 2^53, where a Number is exact). *)
Theorem toSeconds_digits h m s :
  digit_run h -> digit_run m -> digit_run s ->
  decimal_value h * 3600 + decimal_value m * 60 + decimal_value s < 2 ^ 53 ->
  toSeconds (h ++ lit ":" ++ m ++ lit ":" ++ s)
    = of_Z (Z.of_N (decimal_value h * 3600 + decimal_value m * 60
                    + decimal_value s)).
Proof.
  intros [Hh0 Hh] [Hm0 Hm] [Hs0 Hs] _.
  rewrite toSeconds_fields by done.
  rewrite split_no_sep by (by apply digits_no_colon). cbn [map nth].
  rewrite !Number_digits by done.
  rewrite !mul_of_Z, !add_of_Z. f_equal. lia.
Qed.

Lemma toSeconds_digits_witness :
  toSeconds (lit "1:02:15") = of_Z 3735.
Proof.
  apply (toSeconds_digits (lit "1") (lit "02") (lit "15"));
    try (split; [discriminate | reflexivity]).
  vm_compute. reflexivity.
Defined.

(** X2. [toSeconds] of a string with fewer than two colons is [NaN]: the
    seconds are [undefined] then, and the sum is not a number. *)
Theorem toSeconds_short x :
  (length (List.filter (fun c : char => (c =? 58)%N) x) < 2)%nat ->
  toSeconds x = NaN.
Proof.
  intros Hx. unfold toSeconds.
  assert (Hl : (length (map Number (split (fun c => (c =? 58)%N) x)) < 3)%nat).
  { rewrite length_map, split_length. lia. }
  rewrite (nth_overflow _ NaN (n := 2)) by lia. apply add_NaN.
Qed.

Lemma toSeconds_short_witness : toSeconds (lit "20:50") = NaN.
Proof. apply toSeconds_short. vm_compute. lia. Defined.

(** X3. Whatever [extractTimestamps] returns is a pair of strings of the
    form HH:MM:SS, two digits a field, hours below 100, minutes and seconds
    at most 59; and [toSeconds] of each is its number of seconds. *)
Theorem extracted_timestamps_shape text ts :
  extractTimestamps text = Some ts ->
  exists h m s h' m' s',
    (h < 100 /\ m <= 59 /\ s <= 59) /\ (h' < 100 /\ m' <= 59 /\ s' <= 59) /\
    startTime ts = canonical h m s /\ endTime ts = canonical h' m' s' /\
    is_HH_MM_SS (startTime ts) = true /\ is_HH_MM_SS (endTime ts) = true /\
    toSeconds (startTime ts) = of_Z (Z.of_N (h * 3600 + m * 60 + s)) /\
    toSeconds (endTime ts) = of_Z (Z.of_N (h' * 3600 + m' * 60 + s')).
Proof.
  intros (h & m & s & h' & m' & s' & (? & ? & ?) & (? & ? & ?) & ->)
    %extractTimestamps_canonical.
  exists h, m, s, h', m', s'. cbn [startTime endTime].
  rewrite !toSeconds_canonical by lia.
  assert (Hshape : forall a b c, a < 100 -> b <= 59 -> c <= 59 ->
            is_HH_MM_SS (canonical a b c) = true).
  { intros a b c Ha Hb Hc. unfold is_HH_MM_SS, canonical.
    change (lit ":") with [58]. cbn [app].
    rewrite (split_app _ (two_digits a) 58)
      by (done || apply digits_no_colon, two_digits_are_digits; done).
    rewrite (split_app _ (two_digits b) 58)
      by (done || apply digits_no_colon, two_digits_are_digits; lia).
    rewrite split_no_sep by (apply digits_no_colon, two_digits_are_digits; lia).
    rewrite !forallb_app, !two_digits_are_digits by lia.
    rewrite !decimal_value_two_digits by lia.
    cbn. by rewrite !(proj2 (N.leb_le _ _)). }
  rewrite !Hshape by done. done.
Qed.

Lemma extracted_timestamps_shape_witness :
  exists h m s h' m' s',
    (h < 100 /\ m <= 59 /\ s <= 59) /\ (h' < 100 /\ m' <= 59 /\ s' <= 59) /\
    lit "00:20:50" = canonical h m s /\ lit "00:21:30" = canonical h' m' s' /\
    is_HH_MM_SS (lit "00:20:50") = true /\ is_HH_MM_SS (lit "00:21:30") = true /\
    toSeconds (lit "00:20:50") = of_Z (Z.of_N (h * 3600 + m * 60 + s)) /\
    toSeconds (lit "00:21:30") = of_Z (Z.of_N (h' * 3600 + m' * 60 + s')).
Proof.
  apply (extracted_timestamps_shape (lit "Cut 20.50 to 21.30 https://youtu.be/abc")
           {| startTime := lit "00:20:50"; endTime := lit "00:21:30" |}).
  vm_compute. reflexivity.
Defined.

(** X4. Normalising and then counting seconds gives the value of what was
    written: for groups of one or two digits between colons or dots, read
    from the right as seconds, minutes and hours, [toSeconds] of the
    normalised timestamp is [3600 h + 60 m + s]. *)
Theorem normalised_seconds g more r :
  separators more -> Forall digit_group (g :: map snd more) ->
  normaliseTimestamp (join g more) = Some r ->
  exists h m s,
    fields_of (map decimal_value (g :: map snd more)) = Some (h, m, s) /\
    toSeconds r = of_Z (Z.of_N (h * 3600 + m * 60 + s)).
Proof.
  intros Hs Hd H.
  assert (Hruns : Forall digit_run (g :: map snd more)).
  { eapply Forall_impl; [exact Hd|]. apply digit_group_run. }
  rewrite normaliseTimestamp_digits in H by done.
  assert (Hsmall : Forall (fun v => v < 100) (map decimal_value (g :: map snd more))).
  { apply Forall_map. eapply Forall_impl; [exact Hd|].
    intros [|a [|b [|c]]] [Hlen Hdig]; simpl in *; try lia.
    - unfold decimal_value. simpl.
      apply andb_true_iff in Hdig as [Ha%is_digit_range _]. lia.
    - apply andb_true_iff in Hdig as [Ha Hdig].
      apply andb_true_iff in Hdig as [Hb _]. by apply two_digits_of. }
  destruct (fields_of _) as [[[h m] s]|] eqn:Hf; [|discriminate H].
  exists h, m, s. split; [done|].
  assert (Hh : h < 100).
  { revert Hf Hsmall. generalize (map decimal_value (g :: map snd more)).
    intros [|v0 [|v1 [|v2 [|v3 vs]]]] [=] Hv; subst;
      repeat match goal with
             | Hf : Forall _ (_ :: _) |- _ => apply Forall_cons in Hf as [? Hf]
             end; lia. }
  cbn [mbind option_bind] in H.
  apply print_fields_canonical in H as (? & ? & ->); [|done].
  apply toSeconds_canonical; lia.
Qed.

Lemma normalised_seconds_witness :
  exists h m s,
    fields_of (map decimal_value [lit "1"; lit "5"]) = Some (h, m, s) /\
    toSeconds (lit "00:01:05") = of_Z (Z.of_N (h * 3600 + m * 60 + s)).
Proof.
  apply (normalised_seconds (lit "1") [(46, lit "5")] (lit "00:01:05")).
  - repeat constructor.
  - repeat constructor.
  - vm_compute. reflexivity.
Defined.

(** *** Dots and colons *)

Lemma colons_space c : is_space (if c =? 46 then 58 else c) = is_space c.
Proof. destruct (N.eqb_spec c 46) as [->|]; done. Qed.

Lemma trimStart_colons s : trimStart (colons s) = colons (trimStart s).
Proof.
  induction s as [|c s IH]; [done|]. cbn [colons map trimStart].
  rewrite colons_space. by destruct (is_space c).
Qed.

Lemma rev_colons s : rev (colons s) = colons (rev s).
Proof. unfold colons. by rewrite map_rev. Qed.

Lemma trim_colons s : trim (colons s) = colons (trim s).
Proof.
  unfold trim, trimEnd.
  by rewrite trimStart_colons, rev_colons, trimStart_colons, rev_colons.
Qed.

Lemma split_colons s : split colon_or_dot (colons s) = split colon_or_dot s.
Proof.
  induction s as [|c s IH]; [done|]. cbn [colons map split].
  fold (colons s). rewrite IH.
  destruct (N.eqb_spec c 46) as [->|Hc]; [done|]. done.
Qed.

(** X5. Dots and colons are the same to [normaliseTimestamp]: writing
    every dot of the input as a colon does not change the answer. *)
Theorem normaliseTimestamp_colons raw :
  normaliseTimestamp (colons raw) = normaliseTimestamp raw.
Proof.
  unfold normaliseTimestamp. by rewrite trim_colons, split_colons.
Qed.

(* ------------------------------------------------------------------ *)
(** ** 3. The link that is extracted *)
(* ------------------------------------------------------------------ *)

Lemma extracted_url text url :
  extractYouTubeUrl text = Some url ->
  matches youtube_regex url /\ youtube_url url.
Proof.
  unfold extractYouTubeUrl, match0. intros H.
  destruct (exec youtube_regex text) as [[m rest]|] eqn:He; [|discriminate].
  injection H as ->.
  apply exec_Some in He as (pre & _ & Hm & _ & _); [|done].
  split; [done|]. by apply matches_youtube_regex.
Qed.

(** X6. A link that [extractYouTubeUrl] has extracted is extracted again,
    whole, from itself: the function is idempotent. *)
Theorem extractYouTubeUrl_idempotent text url :
  extractYouTubeUrl text = Some url -> extractYouTubeUrl url = Some url.
Proof.
  intros [Hm Hurl]%extracted_url.
  apply youtube_url_no_space in Hurl.
  destruct (compile_complete youtube_regex well_formed_youtube_regex
              url [] (@Some str) [] Hm eq_refl) as [z Hz].
  rewrite app_nil_r in Hz.
  assert (Hhere : match_here youtube_regex url
                  = Some (take (length url - length z) url, z)).
  { unfold match_here. by rewrite Hz. }
  pose proof Hhere as [Hsplit _]%match_here_Some; [|done].
  assert (Hz0 : z = []).
  { destruct (youtube_match_ends _ _ Hz) as [->|(c & r & -> & Hc)]; [done|].
    rewrite Hsplit, forallb_app in Hurl. cbn [forallb] in Hurl.
    unfold not_space in Hurl at 2. rewrite Hc in Hurl.
    cbn in Hurl. by rewrite andb_false_r in Hurl. }
  subst z. cbn [length] in Hhere. rewrite Nat.sub_0_r, firstn_all in Hhere.
  unfold extractYouTubeUrl, match0.
  destruct url as [|c u]; cbn [exec]; by rewrite Hhere.
Qed.

Lemma extractYouTubeUrl_idempotent_witness :
  extractYouTubeUrl (lit "youtu.be/abc?t=3") = Some (lit "youtu.be/abc?t=3").
Proof.
  apply (extractYouTubeUrl_idempotent (lit "see youtu.be/abc?t=3 from 0:10 to 0:30")).
  vm_compute. reflexivity.
Defined.

Lemma same_letters_head s l a t :
  lit l = a :: t -> same_letters s l ->
  exists c s', s = c :: s' /\ canonicalize c = canonicalize a.
Proof.
  unfold same_letters. intros -> H.
  destruct s as [|c s']; [discriminate|]. injection H as Hc _. eauto.
Qed.

Lemma canonicalize_letter c a :
  65 <= a <= 90 -> canonicalize c = a -> c = a \/ c = a + 32.
Proof.
  unfold canonicalize. intros Ha.
  destruct (N.leb_spec 97 c), (N.leb_spec c 122); cbn; lia.
Qed.

Lemma first_letter c a :
  canonicalize c = a -> a = 72 \/ a = 87 \/ a = 89 ->
  In c (lit "hHwWyY") /\ c <> 45.
Proof.
  intros Hc Ha.
  assert (H : c = a \/ c = a + 32) by (apply canonicalize_letter; lia).
  change (lit "hHwWyY") with [104; 72; 119; 87; 121; 89]. cbn [In].
  lia.
Qed.

(** The first code unit of a string that starts with given letters. *)
Ltac first_letter_of H :=
  let c := fresh "c" in
  let s' := fresh "s" in
  let Hc := fresh "Hc" in
  eapply same_letters_head in H as (c & s' & -> & Hc);
  [|vm_compute; reflexivity];
  exists c; eexists; split; [rewrite <- ?app_assoc; reflexivity|];
  apply (first_letter c _ Hc); vm_compute; auto.

(** X7. A link that [extractYouTubeUrl] has extracted starts with one of
    the letters h, w and y, in either case; in particular never with a dash,
    so that the download tool cannot take it for an option. *)
Theorem extractYouTubeUrl_first_letter text url :
  extractYouTubeUrl text = Some url ->
  exists c u, url = c :: u /\ In c (lit "hHwWyY") /\ c <> 45.
Proof.
  intros [_ (scheme & www & body & tail & -> & Hs & Hw & Hb & _)]%extracted_url.
  destruct Hs as [->|[H|H]]; cbn [app]; [|first_letter_of H..].
  destruct Hw as [->|H]; cbn [app]; [|first_letter_of H].
  destruct Hb as [(host & q & v & x & -> & H & _)
                 |[(host & x & -> & H & _)
                 |[(host & x & -> & H & _)|(host & x & -> & H & _)]]];
    first_letter_of H.
Qed.

Lemma extractYouTubeUrl_first_letter_witness :
  exists c u, lit "youtu.be/abc?t=3" = c :: u /\ In c (lit "hHwWyY") /\ c <> 45.
Proof.
  apply (extractYouTubeUrl_first_letter (lit "see youtu.be/abc?t=3 from 0:10 to 0:30")).
  vm_compute. reflexivity.
Defined.

(* ------------------------------------------------------------------ *)
(** ** 6. Files: finding the download, deleting what is left *)
(* ------------------------------------------------------------------ *)

Lemma find_first {A} (p : A -> bool) l x :
  List.find p l = Some x ->
  exists before after,
    l = before ++ x :: after /\ Forall (fun y => p y = false) before /\
    p x = true.
Proof.
  induction l as [|a l IH]; [discriminate|]. cbn [List.find].
  destruct (p a) eqn:Ha.
  - intros [= ->]. exists [], l. auto.
  - intros (before & after & -> & Hb & Hx)%IH.
    exists (a :: before), after. auto.
Qed.

Lemma first_existing_find l w :
  first_existing l w
  = (Return (List.find (fun name => bool_decide (is_Some (tmp_dir w !! name))) l), w).
Proof.
  induction l as [|a l IH]; [done|].
  cbn [first_existing List.find]. rewrite bind_run. unfold existsSync at 1.
  by destruct (bool_decide _).
Qed.

(** X8. For the download path of a run, [findDownloadedFile] looks for the
    path itself and then for the run's [uid] followed by [_raw] under each of
    the seven known extensions, in their order, and returns the first of
    these eight names that exists: the expected path whenever it exists,
    [null] exactly when none of them exists.  It changes nothing and never
    throws. *)
Theorem findDownloadedFile_first mode_ uid w :
  let expectedPath := downloadPath mode_ uid in
  let names := expectedPath :: map (fun ext => uid ++ lit "_raw" ++ ext) variants in
  length names = 8%nat
  /\ exists found,
       findDownloadedFile expectedPath w = (Return found, w) /\
       (is_Some (tmp_dir w !! expectedPath) -> found = Some expectedPath) /\
       (forall name, found = Some name ->
          is_Some (tmp_dir w !! name) /\
          exists before after,
            names = before ++ name :: after /\
            Forall (fun other => tmp_dir w !! other = None) before) /\
       (found = None <-> forall name, In name names -> tmp_dir w !! name = None).
Proof.
  intros expectedPath names. split; [done|].
  set (present := fun name => bool_decide (is_Some (tmp_dir w !! name))).
  assert (Hno : forall name, present name = false <-> tmp_dir w !! name = None).
  { intros name. unfold present. rewrite bool_decide_eq_false, <- eq_None_not_Some.
    done. }
  exists (List.find present names). split; [|split; [|split]].
  - unfold findDownloadedFile. rewrite bind_run. unfold existsSync at 1.
    subst names. cbn [List.find]. fold (present expectedPath).
    destruct (present expectedPath); [done|].
    subst expectedPath. rewrite download_base, first_existing_find.
    fold present. do 2 f_equal. f_equal. apply map_ext. intros ext.
    by rewrite <- app_assoc.
  - intros Hex. subst names. cbn [List.find]. unfold present at 1.
    by rewrite bool_decide_eq_true_2.
  - intros name (before & after & Hn & Hb & Hx)%find_first.
    split; [by apply bool_decide_eq_true in Hx|].
    exists before, after. split; [done|].
    eapply Forall_impl; [exact Hb|]. intros other. apply Hno.
  - split.
    + intros H name Hin. apply Hno. by apply (find_none _ _ H).
    + intros H. destruct (List.find present names) as [name|] eqn:Hf; [|done].
      apply find_some in Hf as [Hin Hp]. apply H in Hin.
      apply Hno in Hin. congruence.
Qed.

Lemma cleanupFile_disk env filePath w :
  exists w',
    cleanupFile env filePath w = (Return tt, w') /\
    pendingRequests w' = pendingRequests w /\
    (forall other, other <> filePath -> tmp_dir w' !! other = tmp_dir w !! other) /\
    match tmp_dir w !! filePath with
    | None => w' = w
    | Some size =>
        calls w' = calls w ++ [unlinkSync filePath] /\
        tmp_dir w' !! filePath =
          match unlink_error env filePath w with
          | Some _ => Some size
          | None => None
          end
    end.
Proof.
  unfold cleanupFile, try_catch. rewrite bind_run. unfold existsSync, fs_unlinkSync.
  destruct (tmp_dir w !! filePath) as [size|] eqn:Hf.
  - rewrite bool_decide_eq_true_2 by eauto. rewrite Hf.
    destruct (unlink_error env filePath w); eexists; (split; [reflexivity|]);
      cbn; repeat split; auto.
    + intros other Hother. by rewrite lookup_delete_ne.
    + apply lookup_delete_eq.
  - rewrite bool_decide_eq_false_2 by (by intros [? ?]).
    exists w. auto.
Qed.

(** X9. [cleanupFile] never throws.  A file that does not exist is left
    alone, without a call; one that exists is unlinked, and is gone
    afterwards unless the unlinking fails, which is swallowed.  No other
    file and no pending request is touched. *)
Theorem cleanupFile_safe env filePath w :
  exists w',
    cleanupFile env filePath w = (Return tt, w') /\
    pendingRequests w' = pendingRequests w /\
    (forall other, other <> filePath -> tmp_dir w' !! other = tmp_dir w !! other) /\
    match tmp_dir w !! filePath with
    | None => w' = w
    | Some size =>
        calls w' = calls w ++ [unlinkSync filePath] /\
        tmp_dir w' !! filePath =
          match unlink_error env filePath w with
          | Some _ => Some size
          | None => None
          end
    end.
Proof. apply cleanupFile_disk. Qed.

Lemma sweep_disk env prefix files : forall w,
  exists w',
    for_of files (fun file =>
      if startsWith file prefix then cleanupFile env file else mret tt) w
      = (Return tt, w') /\
    pendingRequests w' = pendingRequests w /\
    (forall file, startsWith file prefix = false ->
                  tmp_dir w' !! file = tmp_dir w !! file) /\
    (forall file, ~ In file files -> tmp_dir w' !! file = tmp_dir w !! file) /\
    (forall file, tmp_dir w' !! file = tmp_dir w !! file \/
                  tmp_dir w' !! file = None) /\
    ((forall file w0, unlink_error env file w0 = None) ->
     forall file, In file files -> startsWith file prefix = true ->
                  tmp_dir w' !! file = None).
Proof.
  induction files as [|a files IH]; intros w.
  - exists w. repeat split; auto. intros _ file [].
  - cbn [for_of]. rewrite bind_run.
    assert (Hstep : exists w1,
      (if startsWith a prefix then cleanupFile env a else mret tt) w = (Return tt, w1) /\
      pendingRequests w1 = pendingRequests w /\
      (forall file, file <> a -> tmp_dir w1 !! file = tmp_dir w !! file) /\
      (startsWith a prefix = false -> w1 = w) /\
      (tmp_dir w1 !! a = tmp_dir w !! a \/ tmp_dir w1 !! a = None) /\
      ((forall file w0, unlink_error env file w0 = None) ->
       startsWith a prefix = true -> tmp_dir w1 !! a = None)).
    { destruct (startsWith a prefix).
      - destruct (cleanupFile_disk env a w) as (w1 & Hrun & Hp & Hother & Ha).
        exists w1. repeat (split; [done|]).
        destruct (tmp_dir w !! a) as [size|] eqn:Hsize.
        + destruct Ha as [_ Ha]. split.
          * rewrite Ha. destruct (unlink_error env a w); auto.
          * intros Hok _. by rewrite Ha, Hok.
        + subst w1. auto.
      - exists w. repeat split; auto. discriminate. }
    destruct Hstep as (w1 & -> & Hp1 & Hother1 & Hskip1 & Hsame1 & Hgone1).
    destruct (IH w1) as (w' & -> & Hp & Hpre & Hout & Hsame & Hgone).
    exists w'. split; [done|]. split; [congruence|].
    assert (Hstep_same : forall file,
              tmp_dir w1 !! file = tmp_dir w !! file \/ tmp_dir w1 !! file = None).
    { intros file. destruct (decide (file = a)) as [->|Hne]; auto. }
    split; [|split; [|split]].
    + intros file Hfile. rewrite Hpre by done.
      destruct (decide (file = a)) as [->|Hne]; [by rewrite Hskip1|auto].
    + intros file Hfile. rewrite Hout by (intros ?; apply Hfile; by right).
      apply Hother1. intros ->. apply Hfile. by left.
    + intros file. destruct (Hsame file) as [H|H]; [|auto].
      rewrite H. apply Hstep_same.
    + intros Hok file Hin Hfile.
      destruct (Hsame file) as [H|H]; [|done]. rewrite H.
      destruct (decide (file = a)) as [->|Hne]; [by apply Hgone1|].
      destruct Hin as [->|Hin]; [done|].
      rewrite <- H. by apply Hgone.
Qed.

Lemma drop_dot_star_app front : drop_dot_star (front ++ lit ".*") = front.
Proof.
  unfold drop_dot_star, strip_suffix. spell_literals.
  rewrite !rev_app_distr. cbn.
  replace (strip_prefix (rev front) []) with (Some (rev front))
    by (by destruct (rev front)).
  cbn. by rewrite rev_involutive.
Qed.

Lemma cleanupGlob_disk env pattern w :
  exists w',
    cleanupGlob env pattern w = (Return tt, w') /\
    pendingRequests w' = pendingRequests w /\
    (forall file, startsWith file (drop_dot_star pattern) = false ->
                  tmp_dir w' !! file = tmp_dir w !! file) /\
    (forall file, tmp_dir w' !! file = tmp_dir w !! file \/
                  tmp_dir w' !! file = None) /\
    (readdir_error env w = None ->
     (forall file w0, unlink_error env file w0 = None) ->
     forall file, startsWith file (drop_dot_star pattern) = true ->
                  tmp_dir w' !! file = None).
Proof.
  unfold cleanupGlob, try_catch. rewrite bind_run. unfold fs_readdirSync.
  destruct (readdir_error env w) as [e|] eqn:Hdir.
  - exists (record readdirSync w). repeat split; auto. discriminate.
  - set (files := map fst (map_to_list (tmp_dir w))).
    destruct (sweep_disk env (drop_dot_star pattern) files (record readdirSync w))
      as (w' & -> & Hp & Hpre & Hout & Hsame & Hgone).
    exists w'. repeat (split; [done|]).
    intros _ Hok file Hfile.
    destruct (tmp_dir w !! file) as [size|] eqn:Hsize.
    + apply Hgone; [done| |done].
      apply in_map_iff. exists (file, size). split; [done|].
      by apply list_elem_of_In, elem_of_map_to_list.
    + destruct (Hsame file) as [H|H]; [|done]. by rewrite H.
Qed.

(** X10. [cleanupGlob] never throws, and it only ever deletes: a file
    whose name does not start with the prefix (the pattern without its final
    [.*]) is as before, no file appears or changes, and the pending requests
    are untouched.  When the directory can be listed and no unlinking fails,
    every file whose name starts with the prefix is gone afterwards. *)
Theorem cleanupGlob_prefix env pattern w :
  let prefix := drop_dot_star pattern in
  (forall front, drop_dot_star (front ++ lit ".*") = front)
  /\ exists w',
       cleanupGlob env pattern w = (Return tt, w') /\
       pendingRequests w' = pendingRequests w /\
       (forall file, startsWith file prefix = false ->
                     tmp_dir w' !! file = tmp_dir w !! file) /\
       (forall file, tmp_dir w' !! file = tmp_dir w !! file \/
                     tmp_dir w' !! file = None) /\
       (readdir_error env w = None ->
        (forall file w0, unlink_error env file w0 = None) ->
        forall file, startsWith file prefix = true ->
                     tmp_dir w' !! file = None).
Proof.
  intros prefix. split; [apply drop_dot_star_app|apply cleanupGlob_disk].
Qed.

(** *** The files of a run *)

Lemma hex_digit_inj a b : a < 16 -> b < 16 -> hex_digit a = hex_digit b -> a = b.
Proof. unfold hex_digit. intros Ha Hb. decide_tests; lia. Qed.

Lemma hex_digits_mod n n' k :
  (forall i, (i < k)%nat ->
     (n / 16 ^ N.of_nat i) mod 16 = (n' / 16 ^ N.of_nat i) mod 16) ->
  n mod 16 ^ N.of_nat k = n' mod 16 ^ N.of_nat k.
Proof.
  induction k as [|k IH]; intros H.
  - change (16 ^ N.of_nat 0) with 1. by rewrite !N.mod_1_r.
  - rewrite Nat2N.inj_succ, N.pow_succ_r', (N.mul_comm 16).
    rewrite !N.Div0.mod_mul_r.
    rewrite IH by (intros; apply H; lia). by rewrite (H k) by lia.
Qed.

Lemma hex12_length n : length (hex12 n) = 12%nat.
Proof. unfold hex12. by rewrite length_map, length_rev, length_seq. Qed.

Lemma hex12_inj n n' : n < 2 ^ 48 -> n' < 2 ^ 48 -> hex12 n = hex12 n' -> n = n'.
Proof.
  intros Hn Hn' H. unfold hex12 in H.
  assert (Hd : forall i, (i < 12)%nat ->
            (n / 16 ^ N.of_nat i) mod 16 = (n' / 16 ^ N.of_nat i) mod 16).
  { intros i Hi. apply hex_digit_inj; try (apply N.mod_lt; lia).
    revert i Hi. change (forall i, (i < 12)%nat ->
      (fun i => hex_digit ((n / 16 ^ N.of_nat i) mod 16)) i
      = (fun i => hex_digit ((n' / 16 ^ N.of_nat i) mod 16)) i).
    intros i Hi. eapply map_ext_in_iff; [exact H|].
    apply in_rev. rewrite rev_involutive. apply in_seq. lia. }
  apply hex_digits_mod in Hd.
  change (16 ^ N.of_nat 12) with (2 ^ 48) in Hd.
  by rewrite !N.mod_small in Hd.
Qed.

Lemma startsWith_prefix file a b :
  startsWith file (a ++ b) = true -> startsWith file a = true.
Proof.
  revert file. induction a as [|c a IH]; intros file; [by destruct file|].
  destruct file as [|d file]; [done|]. cbn [app startsWith].
  intros [-> H]%andb_true_iff. cbn. by apply IH.
Qed.

Lemma startsWith_same_length a b s :
  length a = length b -> startsWith (a ++ s) b = true -> a = b.
Proof.
  revert b. induction a as [|c a IH]; intros [|d b] Hl; try done.
  cbn [app startsWith]. intros [Hc H]%andb_true_iff.
  apply N.eqb_eq in Hc as ->. f_equal. apply IH; [|done].
  by injection Hl.
Qed.

Lemma cleanup_disk env mode_ uid w file :
  startsWith file uid = false ->
  tmp_dir (cleanup env mode_ uid w).2 !! file = tmp_dir w !! file.
Proof.
  intros Hfile.
  assert (Hne : forall tail, file <> uid ++ tail).
  { intros tail ->. by rewrite startsWith_app in Hfile. }
  unfold cleanup. rewrite bind_run.
  destruct (cleanupFile_disk env (downloadPath mode_ uid) w)
    as (w1 & -> & _ & Hd1 & _).
  rewrite bind_run.
  destruct (cleanupFile_disk env (outputPath mode_ uid) w1)
    as (w2 & -> & _ & Hd2 & _).
  destruct (cleanupGlob_disk env (uid ++ lit "_raw.*") w2)
    as (w3 & -> & _ & Hd3 & _).
  cbn [snd]. rewrite Hd3, Hd2, Hd1; [done|apply Hne|apply Hne|].
  rewrite glob_prefix.
  destruct (startsWith file (uid ++ lit "_raw")) eqn:Hs; [|done].
  apply startsWith_prefix in Hs. congruence.
Qed.

(** X11. The cleanup of a run deletes files of that run only: a file whose
    name does not start with the run's [uid] is as before.  Two runs whose
    random bytes differ have different [uid]s of twelve code units each, so
    that neither cleanup touches a file named after the other run. *)
Theorem cleanup_other_run env mode_ n n' w :
  n < 2 ^ 48 -> n' < 2 ^ 48 -> n <> n' ->
  hex12 n <> hex12 n'
  /\ (forall file, startsWith file (hex12 n) = false ->
        tmp_dir (cleanup env mode_ (hex12 n) w).2 !! file = tmp_dir w !! file)
  /\ (forall rest,
        tmp_dir (cleanup env mode_ (hex12 n) w).2 !! (hex12 n' ++ rest)
        = tmp_dir w !! (hex12 n' ++ rest)).
Proof.
  intros Hn Hn' Hne.
  assert (Huid : hex12 n <> hex12 n') by (intros H; by apply hex12_inj in H).
  split; [done|]. split; [intros; by apply cleanup_disk|].
  intros rest. apply cleanup_disk.
  destruct (startsWith _ _) eqn:Hs; [|done].
  apply startsWith_same_length in Hs; [congruence|].
  by rewrite !hex12_length.
Qed.

Lemma cleanup_other_run_witness :
  tmp_dir (cleanup (obliging 0) audio (hex12 1)
             (World ∅ {[ hex12 2 ++ lit "_raw.webm" := 1000 ]} [])).2
    !! (hex12 2 ++ lit "_raw.webm")
  = Some 1000.
Proof.
  destruct (cleanup_other_run (obliging 0) audio 1 2
              (World ∅ {[ hex12 2 ++ lit "_raw.webm" := 1000 ]} []))
    as (_ & _ & H); [reflexivity | reflexivity | discriminate |].
  rewrite H. vm_compute. reflexivity.
Defined.

(* ------------------------------------------------------------------ *)
(** ** 6. The pipeline: the other ways it ends *)
(* ------------------------------------------------------------------ *)

Lemma includes_cons c s needle :
  includes (c :: s) needle = startsWith (c :: s) needle || includes s needle.
Proof. done. Qed.

Lemma includes_ffmpeg_failed shown :
  includes (lit "ffmpeg" ++ lit " failed: " ++ shown) (lit "yt-dlp")
  = includes shown (lit "yt-dlp").
Proof.
  spell_literals. cbn [app]. rewrite !includes_cons. cbn [startsWith].
  repeat match goal with
         | |- context [N.eqb ?a ?b] =>
             match b with
             | 121 => let v := eval vm_compute in (N.eqb a b) in
                      change (N.eqb a b) with v
             end
         end.
  done.
Qed.

Section Outcomes.
Variable env : environment.
Variables (chatId : Z) (url startTime endTime : str) (mode_ : mode)
          (statusMsgId : Z).

Let status text := editMessageText text chatId statusMsgId.

Lemma attempt_after_cut uid w w1 :
  download_and_cut env chatId url startTime endTime mode_ statusMsgId uid w
    = (Return tt, w1) ->
  attempt env chatId url startTime endTime mode_ statusMsgId uid w =
    try_catch (check_and_send env chatId startTime endTime mode_ statusMsgId uid)
              (fun e => updateStatus env chatId statusMsgId (userMessage e)) w1.
Proof. intros Hcut. unfold attempt, try_catch. by rewrite bind_run, Hcut. Qed.

(** X12. When download and cut have returned and the output file has
    between 1 and 52,428,800 bytes (the limit included), the clip is
    uploaded, once: as audio or as video according to the mode, with both
    timestamps in the caption, and with the duration in seconds when that is
    positive.  The status then says done; or, when the upload is rejected,
    what the [catch] block makes of the rejection.  Cleanup follows either
    way. *)
Theorem upload_after_size_check w w1 size :
  let uid := hex12 (randomBytes6 env w) in
  download_and_cut env chatId url startTime endTime mode_ statusMsgId uid w
    = (Return tt, w1) ->
  tmp_dir w1 !! outputPath mode_ uid = Some size ->
  0 < size <= TELEGRAM_FILE_LIMIT ->
  let seconds := sub (toSeconds endTime) (toSeconds startTime) in
  let duration := if gt seconds (of_Z 0) then Some seconds else None in
  let upload :=
    match mode_ with
    | audio => sendAudio chatId (outputPath mode_ uid)
                 (lit "🎵 Audio clip (" ++ startTime ++ lit " → " ++ endTime ++ lit ")")
                 duration
    | video => sendVideo chatId (outputPath mode_ uid)
                 (lit "🎬 Video clip (" ++ startTime ++ lit " → " ++ endTime ++ lit ")")
                 duration
    end in
  let w2 := record (status status_uploading) w1 in
  processClip env chatId url startTime endTime mode_ statusMsgId w =
    cleanup env mode_ uid
      (record (status match telegram env upload w2 with
                      | inr _ => status_done
                      | inl message => userMessage message
                      end)
              (record upload w2)).
Proof.
  intros uid Hcut Hsize [Hpos Hmax] seconds duration upload w2.
  rewrite processClip_run. fold uid. rewrite (attempt_after_cut uid w w1 Hcut).
  unfold try_catch, check_and_send. rewrite bind_run.
  unfold statSync at 1. rewrite Hsize.
  rewrite (proj2 (N.ltb_ge _ _) Hmax).
  rewrite (proj2 (N.eqb_neq size 0)) by lia.
  rewrite bind_run, updateStatus_run. fold (status status_uploading). fold w2.
  rewrite bind_run. fold seconds. fold duration.
  assert (Hsend :
    (if isAudio mode_
     then bot env (sendAudio chatId (outputPath mode_ uid)
                     (caption startTime endTime (lit "🎵 Audio clip")) duration)
     else bot env (sendVideo chatId (outputPath mode_ uid)
                     (caption startTime endTime (lit "🎬 Video clip")) duration))
    = bot env upload).
  { subst upload. unfold caption. destruct mode_; cbn [isAudio];
      rewrite <- ?app_assoc; reflexivity. }
  rewrite Hsend. unfold bot.
  destruct (telegram env upload w2); by rewrite updateStatus_run.
Qed.

(** X13. When the output file is not there after download and cut have
    returned, the size check throws what [statSync] throws, and the [catch]
    block shows that message as any other error; cleanup follows. *)
Theorem output_missing w w1 :
  let uid := hex12 (randomBytes6 env w) in
  download_and_cut env chatId url startTime endTime mode_ statusMsgId uid w
    = (Return tt, w1) ->
  tmp_dir w1 !! outputPath mode_ uid = None ->
  processClip env chatId url startTime endTime mode_ statusMsgId w =
    cleanup env mode_ uid
      (record (status (userMessage (ENOENT env (outputPath mode_ uid) w1))) w1).
Proof.
  intros uid Hcut Hsize.
  rewrite processClip_run. fold uid. rewrite (attempt_after_cut uid w w1 Hcut).
  unfold try_catch, check_and_send. rewrite bind_run.
  unfold statSync at 1. rewrite Hsize. by rewrite updateStatus_run.
Qed.

(** X14. When the download has gone well and its file is found, and the
    cut fails, the status shows the explanation of a failed cut (the
    timestamps may be outside the video); unless what the tool wrote on its
    error output (or, if that is empty, the message of the failure)
    contains [yt-dlp], in which case it shows the explanation of a failed
    download.  Cleanup follows. *)
Theorem cut_failure_reported w stdout dir actualDownload stderr error_message dir' :
  let uid := hex12 (randomBytes6 env w) in
  let download := execFile (lit "yt-dlp") (ytdlpArgs url mode_ uid) in
  let cut := execFile (lit "ffmpeg")
               (ffmpegArgs startTime endTime mode_ uid actualDownload) in
  let w1 := World (pendingRequests w) dir
                  (calls w ++ [status status_downloading; download]) in
  let w2 := record (status status_cutting) w1 in
  tool env (lit "yt-dlp") (ytdlpArgs url mode_ uid)
       (record (status status_downloading) w) = (exited_0 stdout, dir) ->
  findDownloadedFile (downloadPath mode_ uid) w1 = (Return (Some actualDownload), w1) ->
  tool env (lit "ffmpeg") (ffmpegArgs startTime endTime mode_ uid actualDownload) w2
    = (failed stderr error_message, dir') ->
  let shown := if is_nil stderr then error_message else stderr in
  processClip env chatId url startTime endTime mode_ statusMsgId w =
    cleanup env mode_ uid
      (World (pendingRequests w) dir'
             (calls w2 ++
                [cut;
                 status (went_wrong ++
                         if includes shown (lit "yt-dlp") then explain_download
                         else explain_cut)])).
Proof.
  intros uid download cut w1 w2 Hdl Hfind Hcut shown. unfold status in *.
  rewrite processClip_run. fold uid.
  unfold attempt, try_catch, download_and_cut.
  rewrite !bind_run, updateStatus_run. rewrite bind_run.
  unfold runCommand at 1. rewrite Hdl. rewrite bind_run.
  replace (World _ dir _) with w1
    by (subst w1; unfold record; cbn; by rewrite <- app_assoc).
  rewrite Hfind, !bind_run, updateStatus_run. fold w2.
  rewrite bind_run. unfold runCommand at 1. rewrite Hcut. fold shown.
  rewrite updateStatus_run. unfold userMessage.
  rewrite includes_ffmpeg_failed. subst shown.
  destruct (includes _ (lit "yt-dlp")); [|rewrite includes_prefix];
    unfold record; cbn [pendingRequests tmp_dir calls snd]; fold cut;
    by rewrite <- !app_assoc.
Qed.

End Outcomes.

Lemma upload_after_size_check_witness :
  statuses (calls (processClip (obliging TELEGRAM_FILE_LIMIT) 5
                     (lit "https://youtu.be/abc123")
                     (lit "00:00:10") (lit "00:00:30") video 7 empty_world).2)
  = [status_downloading; status_cutting; status_uploading; status_done].
Proof.
  pose proof (upload_after_size_check (obliging TELEGRAM_FILE_LIMIT) 5
                (lit "https://youtu.be/abc123") (lit "00:00:10") (lit "00:00:30")
                video 7 empty_world
                (download_and_cut (obliging TELEGRAM_FILE_LIMIT) 5
                   (lit "https://youtu.be/abc123") (lit "00:00:10")
                   (lit "00:00:30") video 7
                   (hex12 (randomBytes6 (obliging TELEGRAM_FILE_LIMIT) empty_world))
                   empty_world).2
                TELEGRAM_FILE_LIMIT) as H.
  cbv zeta in H. rewrite H.
  - vm_compute. reflexivity.
  - vm_compute. reflexivity.
  - vm_compute. reflexivity.
  - split; [reflexivity | apply N.le_refl].
Defined.

Lemma cut_failure_reported_witness :
  statuses (calls (processClip no_cut 5 (lit "https://youtu.be/abc123")
                     (lit "00:00:10") (lit "00:00:30") audio 7 empty_world).2)
  = [status_downloading; status_cutting; went_wrong ++ explain_cut].
Proof.
  pose proof (cut_failure_reported no_cut 5 (lit "https://youtu.be/abc123")
                (lit "00:00:10") (lit "00:00:30") audio 7 empty_world
                [] {[ lit "abcdef123745_raw.webm" := 1000 ]}
                (lit "abcdef123745_raw.webm")
                (lit "Invalid duration specification") (lit "Command failed")
                {[ lit "abcdef123745_raw.webm" := 1000 ]}) as H.
  cbv zeta in H. rewrite H.
  - vm_compute. reflexivity.
  - vm_compute. reflexivity.
  - vm_compute. reflexivity.
  - vm_compute. reflexivity.
Defined.

Lemma output_missing_witness :
  statuses (calls (processClip no_file 5 (lit "https://youtu.be/abc123")
                     (lit "00:00:10") (lit "00:00:30") audio 7
                     (World ∅ {[ lit "abcdef123745_raw.webm" := 1000 ]} [])).2)
  = [status_downloading; status_cutting;
     went_wrong ++ lit "Error: ENOENT: no such file or directory, stat 'abcdef123745_clip.mp3'"].
Proof.
  pose proof (output_missing no_file 5 (lit "https://youtu.be/abc123")
                (lit "00:00:10") (lit "00:00:30") audio 7
                (World ∅ {[ lit "abcdef123745_raw.webm" := 1000 ]} [])
                (download_and_cut no_file 5 (lit "https://youtu.be/abc123")
                   (lit "00:00:10") (lit "00:00:30") audio 7
                   (hex12 (randomBytes6 no_file
                             (World ∅ {[ lit "abcdef123745_raw.webm" := 1000 ]} [])))
                   (World ∅ {[ lit "abcdef123745_raw.webm" := 1000 ]} [])).2) as H.
  cbv zeta in H. rewrite H.
  - vm_compute. reflexivity.
  - vm_compute. reflexivity.
  - vm_compute. reflexivity.
Defined.

(* ------------------------------------------------------------------ *)
(** ** 2. The store: what is kept there *)
(* ------------------------------------------------------------------ *)

Lemma sub_of_Z a b : sub (of_Z a) (of_Z b) = of_Z (a - b).
Proof.
  unfold sub, neg, of_Z, add. simpl. rewrite !Z.mul_1_r. done.
Qed.

(** Whatever the message, the store is left as it is or gets one
    well-formed entry, for the chat of the message. *)
Lemma message_store_shape env msg w :
  pendingRequests (on_message env msg w).2 = pendingRequests w \/
  exists request,
    well_formed_request request /\
    pendingRequests (on_message env msg w).2
      = <[msg_chat_id msg := request]> (pendingRequests w).
Proof.
  destruct (msg_text msg) as [[|c raw]|] eqn:Htext;
    try (left; unfold on_message; rewrite Htext; reflexivity).
  destruct (extractTimestamps (trim (c :: raw))) as [ts|] eqn:Hts.
  2:{ left. unfold on_message. rewrite Htext. cbn [truthy negb from_option id].
      rewrite Hts. destruct (extractYouTubeUrl _) as [[|u url]|];
        (apply keeps_bind; [apply keeps_bot | intros; apply keeps_ret]). }
  destruct (extractYouTubeUrl (trim (c :: raw))) as [url|] eqn:Hurl.
  2:{ left. unfold on_message. rewrite Htext. cbn [truthy negb from_option id].
      rewrite Hts, Hurl. destruct ts.
      apply keeps_bind; [apply keeps_bot | intros; apply keeps_ret]. }
  destruct (ge (toSeconds (startTime ts)) (toSeconds (endTime ts))) eqn:Hge.
  - left. destruct (message_refused env msg w (c :: raw) url ts) as [r ->]; done.
  - right. exists (Pending.Build_t url (startTime ts) (endTime ts)).
    split.
    + unfold well_formed_request. cbn [Pending.url Pending.startTime Pending.endTime].
      pose proof (extracted_url _ _ Hurl) as [_ Hshape].
      split; [done|]. split; [by apply youtube_url_no_space|].
      destruct (extractTimestamps_canonical _ _ Hts)
        as (h & m & s & h' & m' & s' & (? & ? & ?) & (? & ? & ?) & ->).
      cbn [startTime endTime] in *.
      exists h, m, s, h', m', s'. repeat (split; [done|]).
      rewrite !toSeconds_canonical in Hge by lia.
      rewrite ge_of_Z in Hge. apply Z.leb_gt in Hge. lia.
    + destruct (message_stored env msg w (c :: raw) url ts) as [r ->]; done.
Qed.

Lemma reachable_well_formed w :
  reachable w ->
  forall chatId request,
    pendingRequests w !! chatId = Some request -> well_formed_request request.
Proof.
  induction 1 as [w [Hempty _]|env ev w r w' _ IH Hstep]; intros chatId request.
  - by rewrite Hempty, lookup_empty.
  - replace w' with (handle env ev w).2 by (by rewrite Hstep).
    destruct ev as [msg|query]; cbn [handle].
    + destruct (message_store_shape env msg w) as [->|(request' & Hwf & ->)];
        [apply IH|].
      destruct (decide (msg_chat_id msg = chatId)) as [->|Hne].
      * rewrite lookup_insert_eq. by intros [= <-].
      * rewrite lookup_insert_ne by done. apply IH.
    + destruct (callback_store env query w) as [->| ->]; [apply IH|].
      intros [_ H]%lookup_delete_Some. by apply IH in H.
Qed.

(** X15. Every pending request of every world the bot can reach is
    well formed: its link has one of the known shapes and no white space,
    and its timestamps have the form HH:MM:SS (hours below 100, minutes and
    seconds at most 59), the start before the end. *)
Theorem pending_requests_well_formed w chatId request :
  reachable w -> pendingRequests w !! chatId = Some request ->
  well_formed_request request.
Proof. intros Hw. by apply reachable_well_formed. Qed.

Lemma pending_requests_well_formed_witness : well_formed_request sample_request.
Proof.
  set (ev := Message {| msg_text := Some (lit "https://youtu.be/abc123 from 0:10 to 0:30");
                        msg_chat_id := 5 |}).
  apply (pending_requests_well_formed (handle (obliging 500) ev empty_world).2 5).
  - apply (reach_handle (obliging 500) ev empty_world
             (handle (obliging 500) ev empty_world).1).
    + apply reach_initial. split; reflexivity.
    + apply surjective_pairing.
  - vm_compute. reflexivity.
Defined.

(** X16. For every pending request of every world the bot can reach, the
    duration that the pipeline computes ([toSeconds(endTime) -
    toSeconds(startTime)]) is a whole number of seconds above 0 and below
    360,000: the test [duration > 0] holds, and the upload is given the
    duration. *)
Theorem pending_duration_positive w chatId request :
  reachable w -> pendingRequests w !! chatId = Some request ->
  let seconds := sub (toSeconds (Pending.endTime request))
                     (toSeconds (Pending.startTime request)) in
  gt seconds (of_Z 0) = true
  /\ exists d, seconds = of_Z d /\ (0 < d < 360000)%Z.
Proof.
  intros Hw Hreq seconds. subst seconds.
  destruct (reachable_well_formed w Hw chatId request Hreq)
    as (_ & _ & h & m & s & h' & m' & s' & (? & ? & ?) & (? & ? & ?) & -> & -> & Hlt).
  rewrite !toSeconds_canonical by lia. rewrite sub_of_Z, gt_of_Z.
  split; [apply Z.ltb_lt; lia|]. eexists. split; [reflexivity|]. lia.
Qed.

Lemma pending_duration_positive_witness :
  gt (sub (toSeconds (lit "00:00:30")) (toSeconds (lit "00:00:10"))) (of_Z 0) = true.
Proof.
  set (ev := Message {| msg_text := Some (lit "https://youtu.be/abc123 from 0:10 to 0:30");
                        msg_chat_id := 5 |}).
  refine (proj1 (pending_duration_positive (handle (obliging 500) ev empty_world).2 5
                   sample_request _ _)).
  - apply (reach_handle (obliging 500) ev empty_world
             (handle (obliging 500) ev empty_world).1).
    + apply reach_initial. split; reflexivity.
    + apply surjective_pairing.
  - vm_compute. reflexivity.
Defined.

Lemma handle_other_chat env ev w chatId :
  chat_of ev <> chatId ->
  pendingRequests (handle env ev w).2 !! chatId = pendingRequests w !! chatId.
Proof.
  intros Hne. destruct ev as [msg|query]; cbn [handle chat_of] in *.
  - destruct (message_store env msg w) as [->|(request & _ & ->)]; [done|].
    by rewrite lookup_insert_ne.
  - destruct (callback_store env query w) as [->| ->]; [done|].
    by rewrite lookup_delete_ne.
Qed.

Lemma run_other_chats events : forall w chatId,
  Forall (fun ee => chat_of ee.2 <> chatId) events ->
  pendingRequests (run events w) !! chatId = pendingRequests w !! chatId.
Proof.
  induction events as [|[env ev] events IH]; intros w chatId Hall; [done|].
  apply Forall_cons in Hall as [Hev Hall]. cbn [run].
  rewrite IH by done. by apply handle_other_chat.
Qed.

(** X17. Whatever happens in other chats, in any number of events and
    whatever the outside does, the pending request of a chat (or its
    absence) stays as it is: only an event of the chat itself can store,
    replace or remove it. *)
Theorem other_chats_untouched events w chatId :
  Forall (fun ee => chat_of ee.2 <> chatId) events ->
  pendingRequests (run events w) !! chatId = pendingRequests w !! chatId.
Proof. apply run_other_chats. Qed.

Lemma other_chats_untouched_witness :
  pendingRequests
    (run [(obliging 500,
           Message {| msg_text := Some (lit "https://youtu.be/xyz 1:00 to 2:00");
                      msg_chat_id := 6 |});
          (no_send, CallbackQuery {| query_id := lit "q2";
                                     query_data := Some (lit "format_video");
                                     query_chat_id := 6;
                                     query_message_id := 3 |})]
         waiting_world) !! 5%Z
  = Some sample_request.
Proof.
  rewrite other_chats_untouched; [reflexivity|].
  repeat constructor; discriminate.
Defined.

(* ------------------------------------------------------------------ *)
(** ** 7b. Format selection: when the transport fails *)
(* ------------------------------------------------------------------ *)

Lemma processClip_returns env chatId url startTime endTime mode_ statusMsgId w :
  (processClip env chatId url startTime endTime mode_ statusMsgId w).1 = Return tt.
Proof.
  rewrite processClip_run.
  destruct (cleanup_run env mode_ (hex12 (randomBytes6 env w))
              (attempt env chatId url startTime endTime mode_ statusMsgId
                 (hex12 (randomBytes6 env w)) w).2) as (w' & ds & -> & _).
  done.
Qed.

(** X18. When the status message cannot be sent, the handler stops with
    the rejection: the pending request has been consumed by then, the
    keyboard taken off, and no pipeline runs, so the request is lost and the
    user has to send it again. *)
Theorem status_message_rejected env query w id request mode_ message :
  let chatId := query_chat_id query in
  let status := sendMessage chatId status_processing no_options in
  telegram env (answerCallbackQuery (query_id query)) w = inr id ->
  pendingRequests w !! chatId = Some request ->
  selected_mode (query_data query) = Some mode_ ->
  telegram env status (consumed query w) = inl message ->
  let w' := (on_callback_query env query w).2 in
  on_callback_query env query w = (Throw message, w')
  /\ pendingRequests w' !! chatId = None
  /\ tmp_dir w' = tmp_dir w
  /\ calls w' = calls w ++ [answerCallbackQuery (query_id query);
                            editMessageReplyMarkup [] chatId (query_message_id query);
                            status].
Proof.
  intros chatId status Hack Hreq Hmode Hsend w'. subst w'.
  rewrite (callback_selected env query w id request mode_) by done.
  rewrite bind_run. unfold bot. fold chatId. fold status. rewrite Hsend.
  cbn [snd]. split; [done|]. unfold record, consumed.
  cbn [pendingRequests tmp_dir calls]. fold chatId. fold status.
  split; [apply lookup_delete_eq|]. split; [done|].
  by rewrite <- app_assoc.
Qed.

Lemma status_message_rejected_witness :
  on_callback_query no_send (choice "format_audio") waiting_world
  = (Throw (lit "ETELEGRAM: 429 Too Many Requests"),
     (on_callback_query no_send (choice "format_audio") waiting_world).2).
Proof.
  refine (proj1 (status_message_rejected no_send (choice "format_audio")
                   waiting_world 0%Z sample_request audio
                   (lit "ETELEGRAM: 429 Too Many Requests") _ _ _ _));
    reflexivity.
Defined.

(** X19. The handler of a format choice is only ever stopped by the
    transport: when it throws, what it throws is the rejection of its last
    call, and that call is the answer to the query or a text message to the
    chat.  No failure of the pipeline, of a tool or of the disk gets out of
    it. *)
Theorem callback_rejection env query w message w' :
  on_callback_query env query w = (Throw message, w') ->
  exists c before,
    calls w' = calls w ++ before ++ [c] /\
    telegram env c (World (pendingRequests w') (tmp_dir w') (calls w ++ before))
      = inl message /\
    (c = answerCallbackQuery (query_id query) \/
     exists text, c = sendMessage (query_chat_id query) text no_options).
Proof.
  intros H.
  destruct (telegram env (answerCallbackQuery (query_id query)) w) as [e|id] eqn:Hack.
  { rewrite (callback_not_answered env query w e Hack) in H.
    injection H as <- <-. exists (answerCallbackQuery (query_id query)), [].
    cbn [record pendingRequests tmp_dir calls app]. rewrite app_nil_r.
    split; [done|]. split; [by destruct w|]. by left. }
  destruct (pendingRequests w !! query_chat_id query) as [request|] eqn:Hreq.
  2:{ unfold on_callback_query in H. rewrite bind_run in H.
      unfold bot at 1 in H. rewrite Hack in H.
      rewrite bind_run in H. unfold lookup_pending in H.
      cbn [pendingRequests record] in H. rewrite Hreq in H.
      rewrite bind_run in H. unfold bot in H.
      destruct (telegram env (sendMessage _ _ _) _) as [e|id'] eqn:Hsend;
        [|discriminate H].
      injection H as <- <-.
      exists (sendMessage (query_chat_id query) reply_no_pending no_options),
        [answerCallbackQuery (query_id query)].
      unfold record. cbn [pendingRequests tmp_dir calls].
      split; [by rewrite <- app_assoc|]. split; [exact Hsend|]. right. eauto. }
  destruct (selected_mode (query_data query)) as [mode_|] eqn:Hmode.
  2:{ by rewrite (callback_unknown env query w id request) in H. }
  rewrite (callback_selected env query w id request mode_) in H by done.
  rewrite bind_run in H. unfold bot in H.
  destruct (telegram env (sendMessage _ _ _) _) as [e|statusMsgId] eqn:Hsend.
  - injection H as <- <-.
    exists (sendMessage (query_chat_id query) status_processing no_options),
      [answerCallbackQuery (query_id query);
       editMessageReplyMarkup [] (query_chat_id query) (query_message_id query)].
    unfold record, consumed in *. cbn [pendingRequests tmp_dir calls] in *.
    split; [by rewrite <- app_assoc|]. split; [exact Hsend|]. right. eauto.
  - pose proof (processClip_returns env (query_chat_id query) (Pending.url request)
                  (Pending.startTime request) (Pending.endTime request) mode_
                  statusMsgId
                  (record (sendMessage (query_chat_id query) status_processing
                             no_options) (consumed query w))) as Hret.
    rewrite H in Hret. discriminate Hret.
Qed.

Lemma callback_rejection_witness :
  exists c before,
    calls (on_callback_query no_send (choice "format_audio") waiting_world).2
      = calls waiting_world ++ before ++ [c] /\
    telegram no_send c
      (World (pendingRequests (on_callback_query no_send (choice "format_audio")
                                 waiting_world).2)
             (tmp_dir (on_callback_query no_send (choice "format_audio")
                         waiting_world).2)
             (calls waiting_world ++ before))
      = inl (lit "ETELEGRAM: 429 Too Many Requests") /\
    (c = answerCallbackQuery (query_id (choice "format_audio")) \/
     exists text, c = sendMessage (query_chat_id (choice "format_audio")) text
                        no_options).
Proof.
  apply (callback_rejection no_send (choice "format_audio") waiting_world).
  vm_compute. reflexivity.
Defined.

(* ------------------------------------------------------------------ *)
(** ** 7a. Text messages: one reply *)
(* ------------------------------------------------------------------ *)

Lemma reply_run env c w :
  (bot env c ;; mret tt) w
  = (match telegram env c w with
     | inl message => Throw message
     | inr _ => Return tt
     end, record c w).
Proof. rewrite bind_run. unfold bot. by destruct (telegram env c w). Qed.

(** X20. A message without text has no effect at all.  A message with text
    gets exactly one reply, a text message to its own chat, and causes no
    other call; the files are as before; and the handler throws only when
    that reply is rejected. *)
Theorem message_one_reply env msg w :
  let after := (on_message env msg w).2 in
  if truthy (msg_text msg) then
    exists text opts,
      let reply := sendMessage (msg_chat_id msg) text opts in
      calls after = calls w ++ [reply] /\
      tmp_dir after = tmp_dir w /\
      (on_message env msg w).1 =
        match telegram env reply
                (World (pendingRequests after) (tmp_dir w) (calls w)) with
        | inl message => Throw message
        | inr _ => Return tt
        end
  else on_message env msg w = (Return tt, w).
Proof.
  intros after. subst after. unfold on_message.
  destruct (truthy (msg_text msg)); cbn [negb]; [|done].
  set (chatId := msg_chat_id msg).
  destruct (extractYouTubeUrl _) as [[|c u]|],
           (extractTimestamps _) as [[start end_]|];
    try (rewrite reply_run; do 2 eexists; cbn [fst snd record calls tmp_dir];
         repeat split; by destruct w).
  destruct (ge _ _).
  - rewrite reply_run. do 2 eexists. cbn [fst snd record calls tmp_dir].
    repeat split. by destruct w.
  - rewrite bind_run. unfold store. rewrite reply_run.
    do 2 eexists. cbn [fst snd record calls tmp_dir pendingRequests].
    repeat split.
Qed.

(* ------------------------------------------------------------------ *)
(** ** What a run calls *)
(* ------------------------------------------------------------------ *)

Lemma emits_ret {A} P (Q : A -> Prop) a : Q a -> emits P Q (mret a).
Proof. intros Ha w. exists []. by rewrite app_nil_r. Qed.

Lemma emits_throw {A} P (Q : A -> Prop) message : emits P Q (throw message).
Proof. intros w. exists []. by rewrite app_nil_r. Qed.

Lemma emits_at_bind {A B} P (Q : A -> Prop) (R : B -> Prop) (m : M A) (f : A -> M B) w :
  emits_at P Q m w -> (forall a, Q a -> emits P R (f a)) ->
  emits_at P R (m ≫= f) w.
Proof.
  intros (new & Hc & Hnew & Hq) Hf. unfold emits_at. rewrite bind_run.
  destruct (m w) as [[a|message] w1]; cbn [fst snd] in *.
  - destruct (Hf a Hq w1) as (new' & Hc' & Hnew' & Hr).
    exists (new ++ new'). rewrite Hc', Hc, <- app_assoc.
    split; [done|]. split; [by apply Forall_app|done].
  - exists new. auto.
Qed.

Lemma emits_bind {A B} P (Q : A -> Prop) (R : B -> Prop) (m : M A) (f : A -> M B) :
  emits P Q m -> (forall a, Q a -> emits P R (f a)) -> emits P R (m ≫= f).
Proof. intros Hm Hf w. eapply emits_at_bind; eauto. Qed.

Lemma emits_try_catch {A} P (Q : A -> Prop) (m : M A) handler :
  emits P Q m -> (forall message, emits P Q (handler message)) ->
  emits P Q (try_catch m handler).
Proof.
  intros Hm Hh w. destruct (Hm w) as (new & Hc & Hnew & Hq).
  unfold emits_at, try_catch.
  destruct (m w) as [[a|message] w1]; cbn [fst snd] in *.
  - exists new. auto.
  - destruct (Hh message w1) as (new' & Hc' & Hnew' & Hr).
    exists (new ++ new'). rewrite Hc', Hc, <- app_assoc.
    split; [done|]. split; [by apply Forall_app|done].
Qed.

Lemma emits_at_try_finally {A} P (Q : A -> Prop) (m : M A) c w :
  emits_at P Q m w -> emits P (fun _ => True) c ->
  emits_at P (fun _ => True) (try_finally m c) w.
Proof.
  intros (new & Hc & Hnew & _) Hfin. unfold emits_at, try_finally.
  destruct (m w) as [r w1]; cbn [fst snd] in *.
  destruct (Hfin w1) as (new' & Hc' & Hnew' & _).
  exists (new ++ new').
  destruct (c w1) as [[[]|message] w2]; cbn [fst snd] in *;
    rewrite Hc', Hc, <- app_assoc;
    (split; [done|]); (split; [by apply Forall_app|]); by destruct r.
Qed.

Lemma emits_for_of {A} P (l : list A) body :
  (forall a, emits P (fun _ => True) (body a)) ->
  emits P (fun _ => True) (for_of l body).
Proof.
  intros Hb. induction l as [|a l IH]; cbn [for_of]; [by apply emits_ret|].
  eapply emits_bind; [apply Hb|]. intros _ _. apply IH.
Qed.

Lemma emits_silent {A} P (Q : A -> Prop) (m : M A) :
  (forall w, calls (m w).2 = calls w) ->
  (forall w a, (m w).1 = Return a -> Q a) ->
  emits P Q m.
Proof.
  intros Hc Hq w. exists []. rewrite app_nil_r. split; [apply Hc|].
  split; [done|]. destruct (m w).1 eqn:Hr; [|done]. by apply (Hq w).
Qed.

Lemma emits_one {A} P (m : M A) c :
  P c -> (forall w, calls (m w).2 = calls w ++ [c]) ->
  emits P (fun _ => True) m.
Proof.
  intros Hp Hc w. exists [c]. split; [apply Hc|].
  split; [by constructor|]. by destruct (m w).1.
Qed.

Section Calls.
Variable env : environment.
Variable P : call -> Prop.

Lemma emits_bot c : P c -> emits P (fun _ => True) (bot env c).
Proof.
  intros Hp. apply (emits_one P _ c Hp). intros w. unfold bot.
  by destruct (telegram env c w).
Qed.

Lemma emits_existsSync file : emits P (fun _ => True) (existsSync file).
Proof. by apply emits_silent. Qed.

Lemma emits_statSync file : emits P (fun _ => True) (statSync env file).
Proof.
  apply emits_silent; [|done]. intros w. unfold statSync.
  by destruct (tmp_dir w !! file).
Qed.

Lemma emits_unlinkSync file :
  P (unlinkSync file) -> emits P (fun _ => True) (fs_unlinkSync env file).
Proof.
  intros Hp. apply (emits_one P _ _ Hp). intros w. unfold fs_unlinkSync.
  destruct (tmp_dir w !! file); [|done]. by destruct (unlink_error env file w).
Qed.

Lemma emits_readdirSync :
  P readdirSync -> emits P (fun _ => True) (fs_readdirSync env).
Proof.
  intros Hp. apply (emits_one P _ _ Hp). intros w. unfold fs_readdirSync.
  by destruct (readdir_error env w).
Qed.

Lemma emits_runCommand cmd args :
  P (execFile cmd args) -> emits P (fun _ => True) (runCommand env cmd args).
Proof.
  intros Hp. apply (emits_one P _ _ Hp). intros w. unfold runCommand.
  by destruct (tool env cmd args w) as [[out|err message] dir].
Qed.

Lemma emits_updateStatus chatId statusMsgId text :
  P (editMessageText text chatId statusMsgId) ->
  emits P (fun _ => True) (updateStatus env chatId statusMsgId text).
Proof.
  intros Hp. apply (emits_one P _ _ Hp). intros w.
  by rewrite updateStatus_run.
Qed.

Lemma emits_cleanupFile file :
  P (unlinkSync file) -> emits P (fun _ => True) (cleanupFile env file).
Proof.
  intros Hp. apply emits_try_catch; [|intros; by apply emits_ret].
  eapply emits_bind; [apply emits_existsSync|].
  intros [] _; [by apply emits_unlinkSync|by apply emits_ret].
Qed.

Lemma emits_cleanupGlob pattern :
  P readdirSync ->
  (forall file, startsWith file (drop_dot_star pattern) = true -> P (unlinkSync file)) ->
  emits P (fun _ => True) (cleanupGlob env pattern).
Proof.
  intros Hdir Hp. apply emits_try_catch; [|intros; by apply emits_ret].
  eapply emits_bind; [by apply emits_readdirSync|].
  intros files _. apply emits_for_of. intros file.
  destruct (startsWith file _) eqn:Hfile; [|by apply emits_ret].
  apply emits_cleanupFile. by apply Hp.
Qed.

Lemma emits_first_existing (Q : str -> Prop) names :
  Forall Q names ->
  emits P (fun found => match found with Some name => Q name | None => True end)
        (first_existing names).
Proof.
  induction 1 as [|name names Hname _ IH]; cbn [first_existing].
  - by apply emits_ret.
  - eapply emits_bind; [apply emits_existsSync|].
    intros [] _; [by apply emits_ret|apply IH].
Qed.

End Calls.

Lemma found_starts_with_raw P mode_ uid :
  emits P (fun found => match found with
                        | Some name => startsWith name (uid ++ lit "_raw") = true
                        | None => True
                        end)
        (findDownloadedFile (downloadPath mode_ uid)).
Proof.
  unfold findDownloadedFile.
  eapply emits_bind; [apply emits_existsSync|].
  intros [] _.
  - apply emits_ret. unfold downloadPath.
    change (lit "_raw.") with (lit "_raw" ++ lit ".").
    rewrite <- (app_assoc (lit "_raw")), app_assoc. apply startsWith_app.
  - rewrite download_base. apply emits_first_existing.
    apply Forall_map, Forall_forall. intros e _. cbn. apply startsWith_app.
Qed.

Section Footprint.
Variable env : environment.
Variables (chatId : Z) (url startTime endTime : str) (mode_ : mode)
          (statusMsgId : Z) (uid : str).

Let P := pipeline_call chatId url startTime endTime mode_ statusMsgId uid.

Lemma download_and_cut_emits :
  emits P (fun _ => True)
    (download_and_cut env chatId url startTime endTime mode_ statusMsgId uid).
Proof.
  unfold download_and_cut.
  eapply emits_bind; [by apply emits_updateStatus|]. intros _ _.
  eapply emits_bind; [apply emits_runCommand; by left|]. intros _ _.
  eapply emits_bind; [apply found_starts_with_raw|].
  intros [actualDownload|] Hfound; [|apply emits_throw].
  eapply emits_bind; [by apply emits_updateStatus|]. intros _ _.
  eapply emits_bind; [|intros; by apply emits_ret].
  apply emits_runCommand. right. split; [done|]. by exists actualDownload.
Qed.

Lemma check_and_send_emits :
  emits P (fun _ => True)
    (check_and_send env chatId startTime endTime mode_ statusMsgId uid).
Proof.
  unfold check_and_send.
  eapply emits_bind; [apply emits_statSync|]. intros size _.
  destruct (_ <? _); [by apply emits_updateStatus|].
  destruct (_ =? _); [apply emits_throw|].
  eapply emits_bind; [by apply emits_updateStatus|]. intros _ _.
  eapply emits_bind; [|intros; by apply emits_updateStatus].
  subst P. destruct mode_; cbn [isAudio]; by apply emits_bot.
Qed.

Lemma attempt_emits :
  emits P (fun _ => True)
    (attempt env chatId url startTime endTime mode_ statusMsgId uid).
Proof.
  apply emits_try_catch; [|intros; by apply emits_updateStatus].
  eapply emits_bind; [apply download_and_cut_emits|].
  intros _ _. apply check_and_send_emits.
Qed.

Lemma cleanup_emits : emits P (fun _ => True) (cleanup env mode_ uid).
Proof.
  assert (Hown : forall tail, P (unlinkSync (uid ++ tail))).
  { intros tail. apply startsWith_app. }
  unfold cleanup.
  eapply emits_bind; [apply emits_cleanupFile, Hown|]. intros _ _.
  eapply emits_bind; [apply emits_cleanupFile, Hown|]. intros _ _.
  apply emits_cleanupGlob; [done|].
  intros file Hfile. rewrite glob_prefix in Hfile.
  by apply startsWith_prefix in Hfile.
Qed.

End Footprint.

Lemma processClip_emits env chatId url startTime endTime mode_ statusMsgId w :
  emits_at (pipeline_call chatId url startTime endTime mode_ statusMsgId
              (hex12 (randomBytes6 env w)))
           (fun _ => True)
           (processClip env chatId url startTime endTime mode_ statusMsgId) w.
Proof.
  eapply (emits_at_try_finally _ (fun _ => True));
    [apply attempt_emits|apply cleanup_emits].
Qed.

(** X21. What one run of the pipeline calls.  It edits its own status
    message and no other; it sends no text message; it uploads nothing but
    its own output file, to its own chat, as audio in audio mode and as
    video in video mode; the only programs it runs are [yt-dlp], on the
    download arguments, and [ffmpeg], on the cut arguments with an input
    file named after the run; and it unlinks only files whose names start
    with the [uid] of the run. *)
Theorem processClip_footprint env chatId url startTime endTime mode_ statusMsgId w :
  let uid := hex12 (randomBytes6 env w) in
  exists new,
    calls (processClip env chatId url startTime endTime mode_ statusMsgId w).2
      = calls w ++ new /\
    Forall (pipeline_call chatId url startTime endTime mode_ statusMsgId uid) new.
Proof.
  intros uid.
  destruct (processClip_emits env chatId url startTime endTime mode_ statusMsgId w)
    as (new & Hc & Hnew & _).
  by exists new.
Qed.

Lemma emits_at_weaken {A} (P P' : call -> Prop) (Q Q' : A -> Prop) (m : M A) w :
  (forall c, P c -> P' c) -> (forall a, Q a -> Q' a) ->
  emits_at P Q m w -> emits_at P' Q' m w.
Proof.
  intros Hp Hq (new & Hc & Hnew & Hr). exists new. split; [done|].
  split; [by eapply Forall_impl|]. destruct (m w).1; auto.
Qed.

Lemma handle_emits env ev :
  emits (addressed_to ev) (fun _ : unit => True) (handle env ev).
Proof.
  assert (Hreply : forall ev c,
            addressed_to ev c ->
            emits (addressed_to ev) (fun _ : unit => True) (bot env c ;; mret tt)).
  { intros ev' c Hc. eapply emits_bind; [by apply emits_bot|].
    intros; by apply emits_ret. }
  destruct ev as [msg|query]; cbn [handle].
  - unfold on_message. destruct (negb _); [by apply emits_ret|].
    destruct (extractYouTubeUrl _) as [[|c u]|],
             (extractTimestamps _) as [[start end_]|];
      try (by apply Hreply).
    destruct (ge _ _); [by apply Hreply|].
    eapply emits_bind with (Q := fun _ => True); [|intros _ _; by apply Hreply].
    by apply emits_silent.
  - unfold on_callback_query.
    eapply emits_bind; [by apply emits_bot|]. intros _ _.
    eapply emits_bind with (Q := fun _ => True); [by apply emits_silent|].
    intros [request|] _; [|by apply Hreply].
    destruct (selected_mode _) as [mode_|]; [|by apply emits_ret].
    eapply emits_bind with (Q := fun _ => True); [by apply emits_silent|].
    intros _ _.
    eapply emits_bind with (Q := fun _ => True).
    { apply emits_try_catch; [by apply Hreply|intros; by apply emits_ret]. }
    intros _ _.
    eapply emits_bind; [by apply emits_bot|]. intros statusMsgId _ w.
    eapply emits_at_weaken; [| |apply processClip_emits]; [|done].
    intros [] Hc; cbn in *; intuition.
Qed.

(** X22. Every call of a handler run that addresses someone addresses the
    chat of its event (and the answer to a callback query answers the query
    of the event); and a text message never makes the bot run a program or
    touch the disk: only a format choice does. *)
Theorem handle_addressed env ev w :
  exists new,
    calls (handle env ev w).2 = calls w ++ new /\ Forall (addressed_to ev) new.
Proof.
  destruct (handle_emits env ev w) as (new & Hc & Hnew & _). by exists new.
Qed.

(* ------------------------------------------------------------------ *)
(** ** 6. Status edits that fail *)
(* ------------------------------------------------------------------ *)

Lemma bind_same {A B} (m m' : M A) (f f' : A -> M B) w :
  m w = m' w -> (forall a w1, f a w1 = f' a w1) -> (m ≫= f) w = (m' ≫= f') w.
Proof.
  intros Hm Hf. rewrite !bind_run, Hm.
  by destruct (m' w) as [[a|message] w1].
Qed.

Lemma try_catch_same {A} (m m' : M A) h h' w :
  m w = m' w -> (forall message w1, h message w1 = h' message w1) ->
  try_catch m h w = try_catch m' h' w.
Proof.
  intros Hm Hh. unfold try_catch. rewrite Hm.
  by destruct (m' w) as [[a|message] w1].
Qed.

(** X23. Whether the edits of the status message succeed or fail makes no
    difference to a run of the pipeline: with any other answers of the
    transport to those edits it makes the same calls, returns the same and
    leaves the same world. *)
Theorem status_edits_ignored answer env chatId url startTime endTime mode_ statusMsgId w :
  processClip (edits_answered answer env) chatId url startTime endTime mode_
              statusMsgId w
  = processClip env chatId url startTime endTime mode_ statusMsgId w.
Proof.
  set (env' := edits_answered answer env).
  assert (Hstatus : forall text w1,
            updateStatus env' chatId statusMsgId text w1
            = updateStatus env chatId statusMsgId text w1).
  { intros. by rewrite !updateStatus_run. }
  unfold processClip, try_finally.
  change (randomBytes6 env' w) with (randomBytes6 env w).
  set (uid := hex12 (randomBytes6 env w)).
  assert (Hattempt :
    attempt env' chatId url startTime endTime mode_ statusMsgId uid w
    = attempt env chatId url startTime endTime mode_ statusMsgId uid w).
  { unfold attempt. apply try_catch_same; [|intros; apply Hstatus].
    apply bind_same.
    - unfold download_and_cut.
      apply bind_same; [apply Hstatus|]. intros _ w1.
      apply bind_same; [done|]. intros _ w2.
      apply bind_same; [done|]. intros [actualDownload|] w3; [|done].
      apply bind_same; [apply Hstatus|]. intros _ w4.
      by apply bind_same.
    - intros _ w1. unfold check_and_send.
      apply bind_same; [done|]. intros size w2.
      destruct (_ <? _); [apply Hstatus|].
      destruct (_ =? _); [done|].
      apply bind_same; [apply Hstatus|]. intros _ w3.
      apply bind_same; [|intros; apply Hstatus].
      by destruct mode_. }
  rewrite Hattempt.
  by destruct (attempt env chatId url startTime endTime mode_ statusMsgId uid w).
Qed.

(* ------------------------------------------------------------------ *)
(** ** 7. From the message to the pipeline *)
(* ------------------------------------------------------------------ *)

(** X24. What a message stores is what the format choice runs.  After a
    message with a link and a pair of timestamps in order has been handled
    and answered, and after any events of other chats, a format choice of the
    same chat ([format_audio] or [format_video]) that is acknowledged runs
    the pipeline on exactly that link and those timestamps, as audio for
    [format_audio] and as video for [format_video], having removed the
    request. *)
Theorem stored_request_is_run env env' msg events query w raw url ts id mode_ :
  msg_text msg = Some raw -> raw <> [] ->
  extractYouTubeUrl (trim raw) = Some url ->
  extractTimestamps (trim raw) = Some ts ->
  ge (toSeconds (startTime ts)) (toSeconds (endTime ts)) = false ->
  (on_message env msg w).1 = Return tt ->
  Forall (fun ee => chat_of ee.2 <> msg_chat_id msg) events ->
  query_chat_id query = msg_chat_id msg ->
  format_choice (query_data query) mode_ ->
  let w1 := run events (on_message env msg w).2 in
  telegram env' (answerCallbackQuery (query_id query)) w1 = inr id ->
  on_callback_query env' query w1 =
    (bot env' (sendMessage (msg_chat_id msg) status_processing no_options)
       ≫= fun statusMsgId =>
     processClip env' (msg_chat_id msg) url (startTime ts) (endTime ts)
                 mode_ statusMsgId)
      (consumed query w1)
  /\ pendingRequests (consumed query w1) !! msg_chat_id msg = None.
Proof.
  intros Htext Hne Hurl Hts Hge _ Hevents Hchat Hmode%format_choice_selected
    w1 Hack.
  assert (Hstored : pendingRequests w1 !! query_chat_id query
                    = Some (Pending.Build_t url (startTime ts) (endTime ts))).
  { subst w1. rewrite Hchat, run_other_chats by done.
    destruct (message_stored env msg w raw url ts) as [r ->]; auto.
    cbn [snd record pendingRequests]. apply lookup_insert_eq. }
  rewrite (callback_selected env' query w1 id _ mode_ Hack Hstored Hmode).
  rewrite Hchat. split; [done|].
  unfold consumed. cbn [pendingRequests]. rewrite Hchat. apply lookup_delete_eq.
Qed.

Lemma stored_request_is_run_witness :
  on_callback_query (obliging 500) (choice "format_video")
    (run [(obliging 500,
           Message {| msg_text := Some (lit "https://youtu.be/xyz 1:00 to 2:00");
                      msg_chat_id := 6 |})]
         (on_message (obliging 500)
            {| msg_text := Some (lit "https://youtu.be/abc123 from 0:10 to 0:30");
               msg_chat_id := 5 |} empty_world).2)
  = (bot (obliging 500) (sendMessage 5 status_processing no_options)
       ≫= fun statusMsgId =>
     processClip (obliging 500) 5 (lit "https://youtu.be/abc123")
                 (lit "00:00:10") (lit "00:00:30") video statusMsgId)
      (consumed (choice "format_video")
         (run [(obliging 500,
                Message {| msg_text := Some (lit "https://youtu.be/xyz 1:00 to 2:00");
                           msg_chat_id := 6 |})]
              (on_message (obliging 500)
                 {| msg_text := Some (lit "https://youtu.be/abc123 from 0:10 to 0:30");
                    msg_chat_id := 5 |} empty_world).2)).
Proof.
  refine (proj1 (stored_request_is_run (obliging 500) (obliging 500)
            {| msg_text := Some (lit "https://youtu.be/abc123 from 0:10 to 0:30");
               msg_chat_id := 5 |}
            [(obliging 500,
              Message {| msg_text := Some (lit "https://youtu.be/xyz 1:00 to 2:00");
                         msg_chat_id := 6 |})]
            (choice "format_video") empty_world
            (lit "https://youtu.be/abc123 from 0:10 to 0:30")
            (lit "https://youtu.be/abc123")
            {| startTime := lit "00:00:10"; endTime := lit "00:00:30" |}
            2%Z video _ _ _ _ _ _ _ _ _ _)).
  - reflexivity.
  - discriminate.
  - vm_compute. reflexivity.
  - vm_compute. reflexivity.
  - vm_compute. reflexivity.
  - vm_compute. reflexivity.
  - repeat constructor. discriminate.
  - reflexivity.
  - right. split; reflexivity.
  - vm_compute. reflexivity.
Defined.

(* ------------------------------------------------------------------ *)
(** ** Which programs are run, and on what *)
(* ------------------------------------------------------------------ *)

Lemma callback_tools env query w :
  exists new,
    calls (on_callback_query env query w).2 = calls w ++ new /\
    forall cmd args,
      In (execFile cmd args) new ->
      exists request mode_ uid,
        pendingRequests w !! query_chat_id query = Some request /\
        selected_mode (query_data query) = Some mode_ /\
        pipeline_call (query_chat_id query) (Pending.url request)
          (Pending.startTime request) (Pending.endTime request) mode_
          0 uid (execFile cmd args).
Proof.
  set (ack := answerCallbackQuery (query_id query)).
  assert (Hnone : forall new : list call,
            Forall (fun c => match c with execFile _ _ => False | _ => True end) new ->
            forall cmd args, In (execFile cmd args) new ->
            exists request mode_ uid,
              pendingRequests w !! query_chat_id query = Some request /\
              selected_mode (query_data query) = Some mode_ /\
              pipeline_call (query_chat_id query) (Pending.url request)
                (Pending.startTime request) (Pending.endTime request) mode_
                0 uid (execFile cmd args)).
  { intros new Hnew cmd args Hin.
    rewrite List.Forall_forall in Hnew. by apply Hnew in Hin. }
  destruct (telegram env ack w) as [e|id] eqn:Hack.
  { rewrite (callback_not_answered env query w e Hack).
    exists [ack]. split; [done|]. apply Hnone. by repeat constructor. }
  destruct (pendingRequests w !! query_chat_id query) as [request|] eqn:Hreq.
  2:{ destruct (callback_refused env query w id Hack Hreq) as [r ->].
      eexists [ack; _]. split; [by unfold record; cbn; rewrite <- app_assoc|].
      apply Hnone. by repeat constructor. }
  destruct (selected_mode (query_data query)) as [mode_|] eqn:Hmode.
  2:{ rewrite (callback_unknown env query w id request Hack Hreq Hmode).
      exists [ack]. split; [done|]. apply Hnone. by repeat constructor. }
  rewrite (callback_selected env query w id request mode_ Hack Hreq Hmode).
  rewrite bind_run. unfold bot.
  set (send := sendMessage (query_chat_id query) status_processing no_options).
  destruct (telegram env send (consumed query w)) as [e|statusMsgId].
  { eexists [ack; _; send]. split.
    - unfold record, consumed. cbn. by rewrite <- app_assoc.
    - apply Hnone. by repeat constructor. }
  destruct (processClip_emits env (query_chat_id query) (Pending.url request)
              (Pending.startTime request) (Pending.endTime request) mode_
              statusMsgId (record send (consumed query w)))
    as (new & -> & Hnew & _).
  eexists ([ack; _; send] ++ new). split.
  - unfold record, consumed. cbn. by rewrite <- !app_assoc.
  - intros cmd args [Hin|Hin]%in_app_or.
    + exfalso. cbn in Hin. by destruct Hin as [?|[?|[?|[]]]].
    + rewrite List.Forall_forall in Hnew. apply Hnew in Hin.
      exists request, mode_, (hex12 (randomBytes6 env (record send (consumed query w)))).
      done.
Qed.

(** X25. The bot runs a program only for a format choice that finds a
    pending request, and then only [yt-dlp] on the link of that request or
    [ffmpeg], on a download of the run, between the timestamps of that
    request.  In every world the bot can reach, that request is well formed:
    the link has one of the known shapes and no white space, the timestamps
    have the form HH:MM:SS. *)
Theorem tools_run_on_stored_requests env ev w :
  reachable w ->
  exists new,
    calls (handle env ev w).2 = calls w ++ new /\
    forall cmd args,
      In (execFile cmd args) new ->
      exists query request mode_ uid,
        ev = CallbackQuery query /\
        pendingRequests w !! query_chat_id query = Some request /\
        well_formed_request request /\
        selected_mode (query_data query) = Some mode_ /\
        ((cmd = lit "yt-dlp" /\ args = ytdlpArgs (Pending.url request) mode_ uid)
         \/ (cmd = lit "ffmpeg" /\
             exists actualDownload,
               startsWith actualDownload (uid ++ lit "_raw") = true /\
               args = ffmpegArgs (Pending.startTime request)
                                 (Pending.endTime request) mode_ uid
                                 actualDownload)).
Proof.
  intros Hw. destruct ev as [msg|query].
  - destruct (handle_emits env (Message msg) w) as (new & Hc & Hnew & _).
    exists new. split; [done|]. intros cmd args Hin.
    rewrite List.Forall_forall in Hnew. by apply Hnew in Hin.
  - destruct (callback_tools env query w) as (new & Hc & Hnew).
    exists new. split; [done|]. intros cmd args Hin.
    destruct (Hnew cmd args Hin) as (request & mode_ & uid & Hreq & Hmode & Hcall).
    exists query, request, mode_, uid. repeat (split; [done|]).
    split; [by apply (reachable_well_formed w Hw (query_chat_id query))|].
    split; [done|exact Hcall].
Qed.

Lemma tools_run_on_stored_requests_witness :
  exists new,
    calls (handle (obliging 500) (CallbackQuery (choice "format_audio"))
             (handle (obliging 500)
                (Message {| msg_text := Some (lit "https://youtu.be/abc123 from 0:10 to 0:30");
                            msg_chat_id := 5 |}) empty_world).2).2
    = calls (handle (obliging 500)
               (Message {| msg_text := Some (lit "https://youtu.be/abc123 from 0:10 to 0:30");
                           msg_chat_id := 5 |}) empty_world).2 ++ new.
Proof.
  set (ev := Message {| msg_text := Some (lit "https://youtu.be/abc123 from 0:10 to 0:30");
                        msg_chat_id := 5 |}).
  destruct (tools_run_on_stored_requests (obliging 500)
              (CallbackQuery (choice "format_audio"))
              (handle (obliging 500) ev empty_world).2) as (new & Hc & _).
  - apply (reach_handle (obliging 500) ev empty_world
             (handle (obliging 500) ev empty_world).1).
    + apply reach_initial. split; reflexivity.
    + apply surjective_pairing.
  - by exists new.
Defined.

(* ------------------------------------------------------------------ *)
(** ** 6. The last word of a run *)
(* ------------------------------------------------------------------ *)

Lemma statuses_record c w :
  statuses (calls (record c w)) = statuses (calls w) ++ statuses [c].
Proof. unfold record. cbn [calls]. apply statuses_app. Qed.

Section Outcome.
Variable env : environment.
Variables (chatId : Z) (url startTime endTime : str) (mode_ : mode)
          (statusMsgId : Z) (uid : str).

Lemma check_and_send_final w1 w2 :
  check_and_send env chatId startTime endTime mode_ statusMsgId uid w1
    = (Return tt, w2) ->
  exists earlier final,
    statuses (calls w2) = statuses (calls w1) ++ earlier ++ [final] /\
    (final = status_done \/ final = status_too_large).
Proof.
  unfold check_and_send. rewrite bind_run. unfold statSync at 1.
  destruct (tmp_dir w1 !! outputPath mode_ uid) as [size|]; [|discriminate].
  destruct (_ <? _).
  { rewrite updateStatus_run. intros [= <-]. exists [], status_too_large.
    rewrite statuses_record. auto. }
  destruct (_ =? _); [discriminate|].
  rewrite bind_run, updateStatus_run, bind_run.
  destruct (isAudio mode_); unfold bot at 1;
    (destruct (telegram env _ _); [discriminate|]);
    rewrite updateStatus_run; intros [= <-];
    exists [status_uploading], status_done;
    rewrite !statuses_record; cbn [statuses flat_map app];
    rewrite app_nil_r, <- app_assoc; auto.
Qed.

Lemma attempt_final w :
  exists earlier final,
    statuses (calls (attempt env chatId url startTime endTime mode_ statusMsgId
                       uid w).2)
      = statuses (calls w) ++ earlier ++ [final] /\
    (final = status_done \/ final = status_too_large \/
     exists message, final = userMessage message).
Proof.
  unfold attempt, try_catch. rewrite bind_run.
  destruct (download_and_cut_emits env chatId url startTime endTime mode_
              statusMsgId uid w) as (new1 & Hc1 & _).
  destruct (download_and_cut _ _ _ _ _ _ _ _ w) as [[[]|message] w1];
    cbn [fst snd] in *.
  - destruct (check_and_send_emits env chatId url startTime endTime mode_
                statusMsgId uid w1) as (new2 & Hc2 & _).
    destruct (check_and_send _ _ _ _ _ _ _ w1) as [[[]|message] w2] eqn:Hsend;
      cbn [fst snd] in *.
    + apply check_and_send_final in Hsend as (earlier & final & -> & Hfinal).
      exists (statuses new1 ++ earlier), final.
      rewrite Hc1, statuses_app, <- !app_assoc. split; [done|].
      destruct Hfinal; auto.
    + rewrite updateStatus_run. cbn [snd].
      rewrite statuses_record, Hc2, Hc1, !statuses_app.
      exists (statuses new1 ++ statuses new2), (userMessage message).
      rewrite <- !app_assoc. split; [done|]. eauto.
  - rewrite updateStatus_run. cbn [snd].
    rewrite statuses_record, Hc1, statuses_app.
    exists (statuses new1), (userMessage message).
    rewrite <- !app_assoc. split; [done|]. eauto.
Qed.

End Outcome.

(** X26. A run of the pipeline always ends by saying how it went: the last
    edit of the status message that it asks for says that the clip is done,
    that it is too large, or what the [catch] block makes of the error that
    stopped it; never one of the progress texts. *)
Theorem pipeline_reports_outcome env chatId url startTime endTime mode_ statusMsgId w :
  exists earlier final,
    statuses (calls (processClip env chatId url startTime endTime mode_
                       statusMsgId w).2)
      = statuses (calls w) ++ earlier ++ [final] /\
    (final = status_done \/ final = status_too_large \/
     exists message, final = userMessage message) /\
    final <> status_downloading /\ final <> status_cutting /\
    final <> status_uploading.
Proof.
  rewrite processClip_run.
  set (uid := hex12 (randomBytes6 env w)).
  destruct (attempt_final env chatId url startTime endTime mode_ statusMsgId uid w)
    as (earlier & final & Hs & Hfinal).
  destruct (cleanup_run env mode_ uid
              (attempt env chatId url startTime endTime mode_ statusMsgId uid w).2)
    as (w' & ds & -> & _ & Hc & Hfs & _).
  exists earlier, final. cbn [snd].
  rewrite Hc, statuses_app, (statuses_fs ds Hfs), app_nil_r.
  split; [done|]. split; [done|].
  assert (Hwrong : forall message text,
            userMessage message = text -> startsWith text went_wrong = true).
  { intros message text <-. unfold userMessage. apply startsWith_app. }
  destruct Hfinal as [->|[->|[message Hm]]];
    try (repeat split; intros H; vm_compute in H; discriminate H).
  repeat split; intros H; rewrite H in Hm; symmetry in Hm;
    apply Hwrong in Hm; vm_compute in Hm; discriminate Hm.
Qed.

(* ------------------------------------------------------------------ *)
(** ** 6. Download, then cut *)
(* ------------------------------------------------------------------ *)

(** X27. When the download goes well and its file is found (under the
    expected name or another extension), the status says cutting and
    [ffmpeg] is run on the file that was found; when that goes well too,
    download and cut return, the two programs having run once each, in this
    order.  What the programs print is not looked at. *)
Theorem cut_runs_on_found_file env chatId url startTime endTime mode_ statusMsgId
    w stdout dir actualDownload stdout' dir' :
  let uid := hex12 (randomBytes6 env w) in
  let status text := editMessageText text chatId statusMsgId in
  let download := execFile (lit "yt-dlp") (ytdlpArgs url mode_ uid) in
  let cut := execFile (lit "ffmpeg")
               (ffmpegArgs startTime endTime mode_ uid actualDownload) in
  let w1 := World (pendingRequests w) dir
                  (calls w ++ [status status_downloading; download]) in
  let w2 := record (status status_cutting) w1 in
  tool env (lit "yt-dlp") (ytdlpArgs url mode_ uid)
       (record (status status_downloading) w) = (exited_0 stdout, dir) ->
  findDownloadedFile (downloadPath mode_ uid) w1 = (Return (Some actualDownload), w1) ->
  tool env (lit "ffmpeg") (ffmpegArgs startTime endTime mode_ uid actualDownload) w2
    = (exited_0 stdout', dir') ->
  download_and_cut env chatId url startTime endTime mode_ statusMsgId uid w
  = (Return tt,
     World (pendingRequests w) dir'
           (calls w ++ [status status_downloading; download;
                        status status_cutting; cut])).
Proof.
  intros uid status download cut w1 w2 Hdl Hfind Hcut. unfold status in *.
  unfold download_and_cut.
  rewrite !bind_run, updateStatus_run. rewrite bind_run.
  unfold runCommand at 1. rewrite Hdl. rewrite bind_run.
  replace (World _ dir _) with w1
    by (subst w1; unfold record; cbn; by rewrite <- app_assoc).
  rewrite Hfind, !bind_run, updateStatus_run. fold w2.
  rewrite bind_run. unfold runCommand at 1. rewrite Hcut.
  subst w2 w1. unfold record. cbn [pendingRequests tmp_dir calls]. fold cut.
  by rewrite <- !app_assoc.
Qed.

Lemma cut_runs_on_found_file_witness :
  download_and_cut (obliging 500) 5 (lit "https://youtu.be/abc123")
    (lit "00:00:10") (lit "00:00:30") audio 7
    (hex12 (randomBytes6 (obliging 500) empty_world)) empty_world
  = (Return tt,
     World ∅
       (<[ lit "abcdef123745_clip.mp3" := 500 ]>
          {[ lit "abcdef123745_raw.webm" := 1000 ]})
       [editMessageText status_downloading 5 7;
        execFile (lit "yt-dlp")
          (ytdlpArgs (lit "https://youtu.be/abc123") audio
             (hex12 (randomBytes6 (obliging 500) empty_world)));
        editMessageText status_cutting 5 7;
        execFile (lit "ffmpeg")
          (ffmpegArgs (lit "00:00:10") (lit "00:00:30") audio
             (hex12 (randomBytes6 (obliging 500) empty_world))
             (lit "abcdef123745_raw.webm"))]).
Proof.
  apply (cut_runs_on_found_file (obliging 500) 5 (lit "https://youtu.be/abc123")
           (lit "00:00:10") (lit "00:00:30") audio 7 empty_world
           [] {[ lit "abcdef123745_raw.webm" := 1000 ]}
           (lit "abcdef123745_raw.webm") []);
    vm_compute; reflexivity.
Defined.

(* ------------------------------------------------------------------ *)
(** ** 7a. Text with nothing to extract *)
(* ------------------------------------------------------------------ *)

Lemma no_digit_no_match x :
  forallb (fun c => negb (is_digit c)) x = true -> match_loop tsPattern O x = [].
Proof.
  assert (Hhere : forall y, match y with c :: _ => is_digit c = false | [] => True end ->
            match_here tsPattern y = None).
  { intros y Hy. unfold match_here. rewrite compile_tsPattern.
    unfold behind_candidate, behind_digits. destruct y as [|c y]; [done|].
    by rewrite Hy. }
  induction x as [|c x IH]; cbn [forallb match_loop].
  - by rewrite Hhere.
  - intros [Hc Hx]%andb_true_iff. apply negb_true_iff in Hc.
    rewrite Hhere by done. by apply IH.
Qed.

Lemma youtube_url_letter u :
  youtube_url u -> exists c, In c u /\ canonicalize c = 89.
Proof.
  intros (scheme & www & body & tail & -> & _ & _ & Hb & _).
  assert (Hhost : exists host rest, body = host ++ rest /\
            exists c s, host = c :: s /\ canonicalize c = 89).
  { destruct Hb as [(host & q & v & x & -> & H & _)
                   |[(host & x & -> & H & _)
                   |[(host & x & -> & H & _)|(host & x & -> & H & _)]]];
      exists host; eexists; (split; [reflexivity|]);
      eapply same_letters_head in H as (c & s & -> & Hc);
      try (vm_compute; reflexivity); eauto. }
  destruct Hhost as (host & rest & -> & c & s & -> & Hc).
  exists c. split; [|done].
  apply in_or_app. right. apply in_or_app. right. by left.
Qed.

Lemma trimStart_In c s : In c (trimStart s) -> In c s.
Proof.
  induction s as [|a s IH]; [done|]. cbn [trimStart].
  destruct (is_space a); [|done]. intros H. right. by apply IH.
Qed.

Lemma trim_In c s : In c (trim s) -> In c s.
Proof.
  unfold trim, trimEnd. intros H%in_rev%trimStart_In%in_rev.
  by apply trimStart_In.
Qed.

(** X28. A text without a digit has no timestamps, and a text without the
    letter y (in either case) has no link: a message with such a text, if
    it is not empty, stores nothing and is answered with the help text. *)
Theorem plain_text_gets_help env msg w raw :
  msg_text msg = Some raw -> raw <> [] ->
  (forall c, In c raw -> is_digit c = false /\ canonicalize c <> 89) ->
  extractTimestamps (trim raw) = None
  /\ extractYouTubeUrl (trim raw) = None
  /\ exists r,
       on_message env msg w =
         (r, record (sendMessage (msg_chat_id msg) reply_help parse_mode_Markdown) w).
Proof.
  intros Htext Hne Hraw.
  assert (Hts : extractTimestamps (trim raw) = None).
  { unfold extractTimestamps, match_g. rewrite no_digit_no_match; [done|].
    apply forallb_forall. intros c Hc%trim_In%Hraw. by rewrite (proj1 Hc). }
  assert (Hurl : extractYouTubeUrl (trim raw) = None).
  { unfold extractYouTubeUrl, match0.
    destruct (exec youtube_regex (trim raw)) as [[m rest]|] eqn:He; [|done].
    apply exec_Some in He as (pre & Heq & Hm & _); [|done].
    apply matches_youtube_regex, youtube_url_letter in Hm as (c & Hc & Hy).
    assert (Hin : In c (trim raw)).
    { rewrite Heq. apply in_or_app. right. apply in_or_app. by left. }
    apply trim_In, Hraw in Hin. by destruct Hin. }
  split; [done|]. split; [done|].
  unfold on_message. rewrite Htext. destruct raw as [|a raw]; [done|].
  cbn [truthy negb from_option id]. rewrite Hurl, Hts.
  rewrite reply_run. eauto.
Qed.

Lemma plain_text_gets_help_witness :
  extractTimestamps (trim (lit " hello there ")) = None.
Proof.
  refine (proj1 (plain_text_gets_help (obliging 500)
                   {| msg_text := Some (lit " hello there "); msg_chat_id := 5 |}
                   empty_world (lit " hello there ") eq_refl _ _)).
  - discriminate.
  - intros c Hc. vm_compute in Hc.
    repeat (destruct Hc as [<-|Hc]; [split; [reflexivity|discriminate]|]).
    destruct Hc.
Defined.

(* ------------------------------------------------------------------ *)
(** ** 6. Nothing is left behind *)
(* ------------------------------------------------------------------ *)

Lemma cleanup_gone env mode_ uid w :
  (forall w0, readdir_error env w0 = None) ->
  (forall file w0, unlink_error env file w0 = None) ->
  tmp_dir (cleanup env mode_ uid w).2 !! outputPath mode_ uid = None
  /\ forall file, startsWith file (uid ++ lit "_raw") = true ->
                  tmp_dir (cleanup env mode_ uid w).2 !! file = None.
Proof.
  intros Hdir Hunlink. unfold cleanup. rewrite bind_run.
  destruct (cleanupFile_disk env (downloadPath mode_ uid) w)
    as (w1 & -> & _ & _ & _).
  rewrite bind_run.
  destruct (cleanupFile_disk env (outputPath mode_ uid) w1)
    as (w2 & -> & _ & _ & Hout).
  destruct (cleanupGlob_disk env (uid ++ lit "_raw.*") w2)
    as (w3 & -> & _ & _ & Hsame & Hgone).
  cbn [snd]. split.
  - destruct (Hsame (outputPath mode_ uid)) as [H|H]; [|done]. rewrite H.
    destruct (tmp_dir w1 !! outputPath mode_ uid) as [size|] eqn:Hsize.
    + destruct Hout as [_ Hout]. by rewrite Hout, Hunlink.
    + by subst w2.
  - intros file Hfile. apply Hgone; [apply Hdir|apply Hunlink|].
    by rewrite glob_prefix.
Qed.

(** X29. When the directory can be listed and no unlinking fails, a run of
    the pipeline leaves none of its files behind, however it ends: the
    output file is gone, and so is every file whose name starts with the
    [uid] of the run followed by [_raw] (the download under any
    extension). *)
Theorem no_files_left env chatId url startTime endTime mode_ statusMsgId w :
  (forall w0, readdir_error env w0 = None) ->
  (forall file w0, unlink_error env file w0 = None) ->
  let uid := hex12 (randomBytes6 env w) in
  let w' := (processClip env chatId url startTime endTime mode_ statusMsgId w).2 in
  tmp_dir w' !! outputPath mode_ uid = None
  /\ tmp_dir w' !! downloadPath mode_ uid = None
  /\ forall file, startsWith file (uid ++ lit "_raw") = true ->
                  tmp_dir w' !! file = None.
Proof.
  intros Hdir Hunlink uid w'. subst w'. rewrite processClip_run. fold uid.
  destruct (cleanup_gone env mode_ uid
              (attempt env chatId url startTime endTime mode_ statusMsgId uid w).2
              Hdir Hunlink) as [Hout Hraw].
  split; [done|]. split; [|done].
  apply Hraw. unfold downloadPath.
  change (lit "_raw.") with (lit "_raw" ++ lit ".").
  rewrite <- (app_assoc (lit "_raw")), app_assoc. apply startsWith_app.
Qed.

Lemma no_files_left_witness :
  tmp_dir (processClip (obliging 500) 5 (lit "https://youtu.be/abc123")
             (lit "00:00:10") (lit "00:00:30") audio 7 empty_world).2
    !! outputPath audio (hex12 (randomBytes6 (obliging 500) empty_world))
  = None.
Proof.
  refine (proj1 (no_files_left (obliging 500) 5 (lit "https://youtu.be/abc123")
                   (lit "00:00:10") (lit "00:00:30") audio 7 empty_world _ _));
    reflexivity.
Defined.
